(** * Model4AutonomousVehicles: the multi-modal trajectory loss and decoder

    A shallow embedding of [src/Model4AutonomousVehicles.py]: the loss
    [pytorch_neg_multi_log_likelihood_batch], its single-mode wrapper, and
    the shape/decoding part of [LyftMultiModel].

    Arithmetic.  A tensor entry is an IEEE-style value: a finite
    number, one of the two infinities, or NaN.  The special values follow
    the IEEE rules the code relies on ([log 0 = -inf], [exp (-inf) = 0],
    [inf - inf = NaN], [0 * inf = NaN], NaN is absorbing).  The loss is
    embedded from the same source lines in two arithmetics.

    - Exact ([pytorch_neg_multi_log_likelihood_batch], [EntryWise]):
      finite values are real numbers and finite operations are exact.
      The algebraic identities of the loss are stated here.
    - In the range of [float32] ([Rounded], [Binary32]): a result
      beyond the largest finite [float32] number overflows to the
      infinity of its sign.  What depends on the range (masking by a
      product, sums of squares, the order of a sum) is stated here,
      and the linear layers of the model compute in it.

    The rounding of the significand is modelled in neither. *)

From Stdlib Require Import String Reals Lra Lia Arith Bool List Permutation.
Import ListNotations.

Open Scope R_scope.

(** ** Scalars *)

Inductive scalar : Type :=
| Fin (r : R)
| PInf
| NInf
| NaN.

Definition Rleb (x y : R) : bool := if Rle_dec x y then true else false.
Definition Rltb (x y : R) : bool := if Rlt_dec x y then true else false.

Definition isfinite (a : scalar) : bool :=
  match a with Fin _ => true | _ => false end.

Definition fneg (a : scalar) : scalar :=
  match a with
  | Fin x => Fin (- x)
  | PInf => NInf
  | NInf => PInf
  | NaN => NaN
  end.

Definition fadd (a b : scalar) : scalar :=
  match a, b with
  | NaN, _ | _, NaN => NaN
  | Fin x, Fin y => Fin (x + y)
  | PInf, NInf | NInf, PInf => NaN
  | PInf, _ | _, PInf => PInf
  | NInf, _ | _, NInf => NInf
  end.

Definition fsub (a b : scalar) : scalar := fadd a (fneg b).

(** The sign of a finite factor decides the sign of an infinite product;
    a zero factor gives NaN. *)
Definition inf_times (pos : bool) (x : R) : scalar :=
  if Rltb 0 x then (if pos then PInf else NInf)
  else if Rltb x 0 then (if pos then NInf else PInf)
  else NaN.

Definition fmul (a b : scalar) : scalar :=
  match a, b with
  | NaN, _ | _, NaN => NaN
  | Fin x, Fin y => Fin (x * y)
  | Fin x, PInf | PInf, Fin x => inf_times true x
  | Fin x, NInf | NInf, Fin x => inf_times false x
  | PInf, PInf | NInf, NInf => PInf
  | PInf, NInf | NInf, PInf => NInf
  end.

Definition fdiv (a b : scalar) : scalar :=
  match a, b with
  | NaN, _ | _, NaN => NaN
  | Fin x, Fin y =>
      if Rltb 0 y then Fin (x / y)
      else if Rltb y 0 then Fin (x / y)
      else inf_times true x
  | Fin _, _ => Fin 0
  | PInf, Fin y => if Rltb y 0 then NInf else PInf
  | NInf, Fin y => if Rltb y 0 then PInf else NInf
  | _, _ => NaN
  end.

(** [x ** 2] *)
Definition fsquare (a : scalar) : scalar := fmul a a.

Definition flog (a : scalar) : scalar :=
  match a with
  | Fin x => if Rltb 0 x then Fin (ln x)
             else if Rltb x 0 then NaN
             else NInf
  | PInf => PInf
  | _ => NaN
  end.

Definition fexp (a : scalar) : scalar :=
  match a with
  | Fin x => Fin (exp x)
  | PInf => PInf
  | NInf => Fin 0
  | NaN => NaN
  end.

(** [torch.max] propagates NaN. *)
Definition fmax (a b : scalar) : scalar :=
  match a, b with
  | NaN, _ | _, NaN => NaN
  | PInf, _ | _, PInf => PInf
  | NInf, c | c, NInf => c
  | Fin x, Fin y => Fin (Rmax x y)
  end.

(** [torch.isclose] with the default [rtol = 1e-05], [atol = 1e-08],
    [equal_nan = False]: equal values are close (this covers equal
    infinities), finite values are close when
    [|a - b| <= atol + rtol * |b|]. *)
Definition rtol : R := 1 / 100000.
Definition atol : R := 1 / 100000000.

Definition isclose (a b : scalar) : bool :=
  match a, b with
  | Fin x, Fin y => Rleb (Rabs (x - y)) (atol + rtol * Rabs y)
  | PInf, PInf | NInf, NInf => true
  | _, _ => false
  end.

(** ** Python results *)

Inductive exn : Type :=
| AssertionError (msg : string)
| ValueError
| RuntimeError
| IndexError
| NameError.

Inductive result (A : Type) : Type :=
| Ok (a : A)
| Raise (e : exn).

Arguments Ok {A} a.
Arguments Raise {A} e.

Definition bind {A B : Type} (m : result A) (k : A -> result B) : result B :=
  match m with
  | Ok a => k a
  | Raise e => Raise e
  end.

Notation "x <- m ;; k" := (bind m (fun x => k))
  (at level 61, m at next level, right associativity).

(** [assert cond, msg] *)
Definition assert (cond : bool) (msg : string) : result unit :=
  if cond then Ok tt else Raise (AssertionError msg).

Notation "'assert!' c 'or' msg ;; k" := (bind (assert c msg) (fun _ => k))
  (at level 61, c at next level, msg at next level, right associativity).

(** ** Tensors

    A tensor is its shape together with its entries, read by a
    multi-index.  Only the entries at in-range indices are meaningful. *)

Record Tensor : Type := mkTensor {
  shape : list nat;
  item : list nat -> scalar
}.

Definition insert_at (d : nat) (i : nat) (l : list nat) : list nat :=
  firstn d l ++ i :: skipn d l.

Definition remove_at (d : nat) (l : list nat) : list nat :=
  firstn d l ++ skipn (S d) l.

Definition replace_at (d : nat) (i : nat) (l : list nat) : list nat :=
  firstn d l ++ i :: skipn (S d) l.

(** All in-range multi-indices of a shape, in row-major order. *)
Fixpoint indices (shp : list nat) : list (list nat) :=
  match shp with
  | [] => [[]]
  | d :: rest => flat_map (fun i => map (cons i) (indices rest)) (seq 0 d)
  end.

Definition numel (x : Tensor) : nat := length (indices (shape x)).

Definition shape_eqb (s1 s2 : list nat) : bool :=
  if list_eq_dec Nat.eq_dec s1 s2 then true else false.

(** Sum and maximum of [f 0, ..., f (n-1)]; the empty sum is 0. *)
Definition range_sum (n : nat) (f : nat -> scalar) : scalar :=
  fold_right fadd (Fin 0) (map f (seq 0 n)).

Definition range_max (n : nat) (f : nat -> scalar) : scalar :=
  fold_right fmax NInf (map f (seq 0 n)).

Arguments range_sum : simpl never.
Arguments range_max : simpl never.

(** Pointwise operations. *)
Definition tmap (f : scalar -> scalar) (x : Tensor) : Tensor :=
  mkTensor (shape x) (fun idx => f (item x idx)).

(** [torch.unsqueeze(x, d)] *)
Definition unsqueeze (x : Tensor) (d : nat) : Tensor :=
  mkTensor (insert_at d 1%nat (shape x)) (fun idx => item x (remove_at d idx)).

(** [torch.sum(x, dim=d, keepdim=...)], for [d] within the rank of [x]. *)
Definition sum_dim (x : Tensor) (d : nat) (keepdim : bool) : Tensor :=
  let n := nth d (shape x) 0%nat in
  if keepdim
  then mkTensor (replace_at d 1%nat (shape x))
                (fun idx => range_sum n (fun i => item x (replace_at d i idx)))
  else mkTensor (remove_at d (shape x))
                (fun idx => range_sum n (fun i => item x (insert_at d i idx))).

(** The dimension that [dim=-1] names. *)
Definition last_dim (x : Tensor) : nat := (length (shape x) - 1)%nat.

(** [x.max(dim=d, keepdim=True)], values only.  Reducing a dimension of
    size 0 has no identity and raises. *)
Definition max_dim (x : Tensor) (d : nat) : result Tensor :=
  let n := nth d (shape x) 0%nat in
  if (n =? 0)%nat then Raise IndexError
  else Ok (mkTensor (replace_at d 1%nat (shape x))
             (fun idx => range_max n (fun i => item x (replace_at d i idx)))).

(** [torch.mean(x)]: the mean of no element is [0 / 0 = NaN]. *)
Definition mean (x : Tensor) : scalar :=
  fdiv (fold_right fadd (Fin 0) (map (item x) (indices (shape x))))
       (Fin (INR (numel x))).

(** [x.new_ones(shp)] *)
Definition new_ones (shp : list nat) : Tensor :=
  mkTensor shp (fun _ => Fin 1).

(** [torch.isfinite(x).all()] *)
Definition all_finite (x : Tensor) : bool :=
  forallb (fun idx => isfinite (item x idx)) (indices (shape x)).

(** *** Broadcasting

    Shapes are aligned on their trailing dimensions; two dimensions are
    compatible when they are equal or one of them is 1. *)

Definition bdim (a b : nat) : option nat :=
  if (a =? b)%nat then Some a
  else if (a =? 1)%nat then Some b
  else if (b =? 1)%nat then Some a
  else None.

Fixpoint bdims (s1 s2 : list nat) : option (list nat) :=
  match s1, s2 with
  | [], [] => Some []
  | a :: r1, b :: r2 =>
      match bdim a b, bdims r1 r2 with
      | Some d, Some r => Some (d :: r)
      | _, _ => None
      end
  | _, _ => None
  end.

Definition pad_shape (n : nat) (s : list nat) : list nat :=
  repeat 1%nat (n - length s) ++ s.

Definition broadcast_shapes (s1 s2 : list nat) : option (list nat) :=
  let n := Nat.max (length s1) (length s2) in
  bdims (pad_shape n s1) (pad_shape n s2).

(** The index at which an operand of shape [s] is read for the result
    index [idx]: leading result dimensions are dropped and a dimension
    of size 1 is read at 0. *)
Definition bcast_index (s idx : list nat) : list nat :=
  map (fun di => if (fst di =? 1)%nat then 0%nat else snd di)
      (combine s (skipn (length idx - length s) idx)).

Definition binop (f : scalar -> scalar -> scalar) (x y : Tensor) : result Tensor :=
  match broadcast_shapes (shape x) (shape y) with
  | Some s =>
      Ok (mkTensor s (fun idx => f (item x (bcast_index (shape x) idx))
                                   (item y (bcast_index (shape y) idx))))
  | None => Raise RuntimeError
  end.

Definition tsub := binop fsub.
Definition tmul := binop fmul.

(** [torch.allclose(x, y)] *)
Definition allclose (x y : Tensor) : result bool :=
  match broadcast_shapes (shape x) (shape y) with
  | Some s =>
      Ok (forallb (fun idx => isclose (item x (bcast_index (shape x) idx))
                                      (item y (bcast_index (shape y) idx)))
                  (indices s))
  | None => Raise RuntimeError
  end.

(** ** The multi-mode loss (source lines 226-258) *)

(** The raw per-mode error tensor of shape [(B,M)]: lines 243-247 and
    the reduction over time inside line 251. *)
Definition raw_mode_error (gt pred avails : Tensor) : result Tensor :=
  (* convert to (batch_size, num_modes, future_len, num_coords) *)
  let gt := unsqueeze gt 1 in                        (* add modes *)
  let avails := unsqueeze (unsqueeze avails 1) 3 in  (* avails[:, None, :, None] *)
  (* error (batch_size, num_modes, future_len) *)
  diff <- tsub gt pred ;;
  masked <- tmul diff avails ;;
  let squared := tmap fsquare masked in
  let error := sum_dim squared (last_dim squared) false in  (* reduce coords *)
  Ok (sum_dim error (last_dim error) false).                (* reduce time *)

Definition pytorch_neg_multi_log_likelihood_batch
    (gt pred confidences avails : Tensor) : result scalar :=
  assert! (length (shape pred) =? 4)%nat
    or "expected 3D (MxTxC) array for pred" ;;
  match shape pred with
  | [batch_size; num_modes; future_len; num_coords] =>
      assert! shape_eqb (shape gt) [batch_size; future_len; num_coords]
        or "expected 2D (Time x Coords) array for gt" ;;
      assert! shape_eqb (shape confidences) [batch_size; num_modes]
        or "expected 1D (Modes) array for gt" ;;
      close <- allclose (sum_dim confidences 1 false) (new_ones [batch_size]) ;;
      assert! close or "confidences should sum to 1" ;;
      assert! shape_eqb (shape avails) [batch_size; future_len]
        or "expected 1D (Time) array for gt" ;;
      (* assert all data are valid *)
      assert! all_finite pred or "invalid value found in pred" ;;
      assert! all_finite gt or "invalid value found in gt" ;;
      assert! all_finite confidences or "invalid value found in confidences" ;;
      assert! all_finite avails or "invalid value found in avails" ;;
      reduced <- raw_mode_error gt pred avails ;;
      (* error (batch_size, num_modes) *)
      error <- tsub (tmap flog confidences) (tmap (fmul (Fin (1 / 2))) reduced) ;;
      (* use max aggregator on modes for numerical stability *)
      max_value <- max_dim error 1 ;;
      shifted <- tsub error max_value ;;
      let exps := tmap fexp shifted in
      let total := sum_dim exps (last_dim exps) true in
      error <- tsub (tmap fneg (tmap flog total)) max_value ;;  (* reduce modes *)
      Ok (mean error)
  | _ => Raise ValueError
  end.

(** ** The single-mode loss (source lines 262-278) *)

Definition pytorch_neg_multi_log_likelihood_single
    (gt pred avails : Tensor) : result scalar :=
  match shape pred with
  | [batch_size; future_len; num_coords] =>
      let confidences := new_ones [batch_size; 1%nat] in
      pytorch_neg_multi_log_likelihood_batch gt (unsqueeze pred 1) confidences avails
  | _ => Raise ValueError
  end.

(** ** Tensor operations used to state properties *)

(** [torch.index_select(x, 1, index)]: the entries of [x] along
    dimension 1 picked (and ordered) by [index]. *)
Definition index_select1 (x : Tensor) (index : list nat) : Tensor :=
  mkTensor (replace_at 1 (length index) (shape x))
           (fun idx => item x (replace_at 1 (nth (nth 1 idx 0%nat) index 0%nat) idx)).

(** ** The loss, entry by entry

    What lines 243-258 compute for inputs of shapes [(B,T,C)],
    [(B,M,T,C)], [(B,M)] and [(B,T)], written with explicit indices. *)

Section EntryWise.
Variables gt pred confidences avails : Tensor.
Variables M T C : nat.

(** error at one timestep: the coordinates reduced (line 247) *)
Definition step_error (b m t : nat) : scalar :=
  range_sum C (fun c =>
    fsquare (fmul (fsub (item gt [b; t; c]) (item pred [b; m; t; c]))
                  (item avails [b; t]))).

(** the time axis reduced (the sum inside line 251) *)
Definition raw_error (b m : nat) : scalar :=
  range_sum T (step_error b m).

(** line 251 *)
Definition log_score (b m : nat) : scalar :=
  fsub (flog (item confidences [b; m])) (fmul (Fin (1 / 2)) (raw_error b m)).

(** lines 255-256 *)
Definition sample_nll (b : nat) : scalar :=
  let max_value := range_max M (log_score b) in
  fsub (fneg (flog (range_sum M (fun m => fexp (fsub (log_score b m) max_value)))))
       max_value.

(** line 258 *)
Definition batch_nll (B : nat) : scalar :=
  fdiv (range_sum B sample_nll) (Fin (INR B)).
End EntryWise.

(** The specification's reading of the raw per-mode error: the squared
    error of each coordinate multiplied by the availability of its
    timestep, summed over coordinates and time. *)
Definition masked_sq_error (gt pred avails : Tensor) (T C b m : nat) : scalar :=
  range_sum T (fun t => range_sum C (fun c =>
    fmul (item avails [b; t])
         (fsquare (fsub (item gt [b; t; c]) (item pred [b; m; t; c]))))).

(** ** Valid inputs of the loss *)

Definition finite_on (x : Tensor) : Prop :=
  forall idx, In idx (indices (shape x)) -> isfinite (item x idx) = true.

Definition rows_sum_to_one (confidences : Tensor) (B M : nat) : Prop :=
  forall b, (b < B)%nat ->
    isclose (range_sum M (fun m => item confidences [b; m])) (Fin 1) = true.

Record valid_inputs (gt pred confidences avails : Tensor) (B M T C : nat) : Prop := {
  pred_shape : shape pred = [B; M; T; C];
  gt_shape : shape gt = [B; T; C];
  confidences_shape : shape confidences = [B; M];
  avails_shape : shape avails = [B; T];
  confidences_sum : rows_sum_to_one confidences B M;
  pred_finite : finite_on pred;
  gt_finite : finite_on gt;
  confidences_finite : finite_on confidences;
  avails_finite : finite_on avails
}.

(** What the loss does compute per mode: the squared error of each
    coordinate multiplied by the square of the availability of its
    timestep, summed over coordinates and time. *)
Definition squared_mask_error (gt pred avails : Tensor) (T C b m : nat) : scalar :=
  range_sum T (fun t => range_sum C (fun c =>
    fmul (fsquare (item avails [b; t]))
         (fsquare (fsub (item gt [b; t; c]) (item pred [b; m; t; c]))))).

(** ** Invalid inputs of the loss

    The ways in which an input can violate the preconditions: the rank
    of [pred], the shapes of the other tensors against the shape of
    [pred], a non-finite entry in any tensor, a row of confidences
    whose sum is not close to 1. *)
Inductive invalid_inputs (gt pred confidences avails : Tensor) : Prop :=
| pred_not_rank_4 :
    length (shape pred) <> 4%nat ->
    invalid_inputs gt pred confidences avails
| gt_shape_mismatch (B M T C : nat) :
    shape pred = [B; M; T; C] -> shape gt <> [B; T; C] ->
    invalid_inputs gt pred confidences avails
| confidences_shape_mismatch (B M T C : nat) :
    shape pred = [B; M; T; C] -> shape confidences <> [B; M] ->
    invalid_inputs gt pred confidences avails
| avails_shape_mismatch (B M T C : nat) :
    shape pred = [B; M; T; C] -> shape avails <> [B; T] ->
    invalid_inputs gt pred confidences avails
| non_finite_value (x : Tensor) (idx : list nat) :
    In x [gt; pred; confidences; avails] ->
    In idx (indices (shape x)) -> isfinite (item x idx) = false ->
    invalid_inputs gt pred confidences avails
| confidence_row_off (B M b : nat) :
    shape confidences = [B; M] -> (b < B)%nat ->
    isclose (range_sum M (fun m => item confidences [b; m])) (Fin 1) = false ->
    invalid_inputs gt pred confidences avails.

(** [pred[:, m]]: the trajectory of mode [m]. *)
Definition select_mode (x : Tensor) (m : nat) : Tensor :=
  mkTensor (remove_at 1 (shape x)) (fun idx => item x (insert_at 1 m idx)).

(** ** Sample tensors *)

(** [torch.full(shp, v)] *)
Definition full (shp : list nat) (v : R) : Tensor :=
  mkTensor shp (fun _ => Fin v).

(** One sample, one timestep, two coordinates: ground truth (1,1),
    prediction (0,0), the step available. *)
Definition gt_ones : Tensor := full [1; 1; 2]%nat 1.
Definition traj_zeros : Tensor := full [1; 1; 2]%nat 0.
Definition avails_ones : Tensor := full [1; 1]%nat 1.
Definition one_mode_zeros : Tensor := full [1; 1; 1; 2]%nat 0.
Definition one_mode_confidence : Tensor := full [1; 1]%nat 1.

(** The same prediction in two modes of confidence 1/2 each. *)
Definition two_modes_zeros : Tensor := full [1; 2; 1; 2]%nat 0.
Definition two_modes_uniform : Tensor := full [1; 2]%nat (1 / 2).

(** One sample with two timesteps of which the second is masked, and
    two predictions that differ at the masked timestep only. *)
Definition gt_two_steps : Tensor := full [1; 2; 2]%nat 0.
Definition avails_first_only : Tensor :=
  mkTensor [1; 2]%nat
    (fun idx => if (nth 1 idx 0 =? 0)%nat then Fin 1 else Fin 0).
Definition pred_two_steps : Tensor := full [1; 1; 2; 2]%nat 0.
Definition pred_two_steps_moved : Tensor :=
  mkTensor [1; 1; 2; 2]%nat
    (fun idx => if (nth 2 idx 0 =? 1)%nat then Fin 5 else Fin 0).

(** One available step weighted 1/2, and a prediction holding a NaN. *)
Definition avails_half : Tensor := full [1; 1]%nat (1 / 2).
Definition pred_nan : Tensor := mkTensor [1; 1; 1; 2]%nat (fun _ => NaN).

(** Two modes of which the second has confidence 0. *)
Definition second_mode_off : Tensor :=
  mkTensor [1; 2]%nat
    (fun idx => if (nth 1 idx 0 =? 0)%nat then Fin 1 else Fin 0).

(** One sample with three coordinates per timestep. *)
Definition gt_three_coords : Tensor := full [1; 1; 3]%nat 0.
Definition pred_three_coords : Tensor := full [1; 1; 1; 3]%nat 0.

(** ** The loss in a machine format

    The same source lines, with the result of every arithmetic
    operation brought into a machine format by a map [rnd] on scalars.
    Negation, maximum and comparisons are exact in every format and are
    not followed by [rnd].  With [rnd] the identity the values are
    those of the embedding above; with [overflow32] below they are
    those of the loss on [float32] tensors up to the rounding of the
    significand. *)

Module Rounded.
Section Format.
Variable rnd : scalar -> scalar.

Definition add (a b : scalar) : scalar := rnd (fadd a b).
Definition sub (a b : scalar) : scalar := rnd (fsub a b).
Definition mul (a b : scalar) : scalar := rnd (fmul a b).
Definition div (a b : scalar) : scalar := rnd (fdiv a b).
Definition square (a : scalar) : scalar := rnd (fsquare a).
Definition log (a : scalar) : scalar := rnd (flog a).
Definition exp (a : scalar) : scalar := rnd (fexp a).

(** A sum is accumulated from its first term to its last. *)
Definition sum_list (l : list scalar) : scalar :=
  fold_left add l (Fin 0).

Definition range_sum (n : nat) (f : nat -> scalar) : scalar :=
  sum_list (map f (seq 0 n)).

(** [torch.sum(x, dim=d, keepdim=...)] *)
Definition sum_dim (x : Tensor) (d : nat) (keepdim : bool) : Tensor :=
  let n := nth d (shape x) 0%nat in
  if keepdim
  then mkTensor (replace_at d 1%nat (shape x))
                (fun idx => range_sum n (fun i => item x (replace_at d i idx)))
  else mkTensor (remove_at d (shape x))
                (fun idx => range_sum n (fun i => item x (insert_at d i idx))).

(** [torch.mean(x)] *)
Definition mean (x : Tensor) : scalar :=
  div (sum_list (map (item x) (indices (shape x))))
      (Fin (INR (numel x))).

(** lines 243-247 and the reduction over time inside line 251 *)
Definition raw_mode_error (gt pred avails : Tensor) : result Tensor :=
  let gt := unsqueeze gt 1 in
  let avails := unsqueeze (unsqueeze avails 1) 3 in
  diff <- binop sub gt pred ;;
  masked <- binop mul diff avails ;;
  let squared := tmap square masked in
  let error := sum_dim squared (last_dim squared) false in
  Ok (sum_dim error (last_dim error) false).

(** lines 226-258 *)
Definition pytorch_neg_multi_log_likelihood_batch
    (gt pred confidences avails : Tensor) : result scalar :=
  assert! (length (shape pred) =? 4)%nat
    or "expected 3D (MxTxC) array for pred" ;;
  match shape pred with
  | [batch_size; num_modes; future_len; num_coords] =>
      assert! shape_eqb (shape gt) [batch_size; future_len; num_coords]
        or "expected 2D (Time x Coords) array for gt" ;;
      assert! shape_eqb (shape confidences) [batch_size; num_modes]
        or "expected 1D (Modes) array for gt" ;;
      close <- allclose (sum_dim confidences 1 false) (new_ones [batch_size]) ;;
      assert! close or "confidences should sum to 1" ;;
      assert! shape_eqb (shape avails) [batch_size; future_len]
        or "expected 1D (Time) array for gt" ;;
      assert! all_finite pred or "invalid value found in pred" ;;
      assert! all_finite gt or "invalid value found in gt" ;;
      assert! all_finite confidences or "invalid value found in confidences" ;;
      assert! all_finite avails or "invalid value found in avails" ;;
      reduced <- raw_mode_error gt pred avails ;;
      error <- binop sub (tmap log confidences) (tmap (mul (Fin (1 / 2))) reduced) ;;
      max_value <- max_dim error 1 ;;
      shifted <- binop sub error max_value ;;
      let exps := tmap exp shifted in
      let total := sum_dim exps (last_dim exps) true in
      error <- binop sub (tmap fneg (tmap log total)) max_value ;;
      Ok (mean error)
  | _ => Raise ValueError
  end.

(** lines 262-278 *)
Definition pytorch_neg_multi_log_likelihood_single
    (gt pred avails : Tensor) : result scalar :=
  match shape pred with
  | [batch_size; future_len; num_coords] =>
      let confidences := new_ones [batch_size; 1%nat] in
      pytorch_neg_multi_log_likelihood_batch gt (unsqueeze pred 1) confidences avails
  | _ => Raise ValueError
  end.

(** The loss entry by entry, as in [EntryWise]. *)
Section EntryWise.
Variables gt pred confidences avails : Tensor.
Variables M T C : nat.

Definition step_error (b m t : nat) : scalar :=
  range_sum C (fun c =>
    square (mul (sub (item gt [b; t; c]) (item pred [b; m; t; c]))
                (item avails [b; t]))).

Definition raw_error (b m : nat) : scalar :=
  range_sum T (step_error b m).

Definition log_score (b m : nat) : scalar :=
  sub (log (item confidences [b; m])) (mul (Fin (1 / 2)) (raw_error b m)).

Definition sample_nll (b : nat) : scalar :=
  let max_value := range_max M (log_score b) in
  sub (fneg (log (range_sum M (fun m => exp (sub (log_score b m) max_value)))))
      max_value.

Definition batch_nll (B : nat) : scalar :=
  div (range_sum B sample_nll) (Fin (INR B)).
End EntryWise.

Definition rows_sum_to_one (confidences : Tensor) (B M : nat) : Prop :=
  forall b, (b < B)%nat ->
    isclose (range_sum M (fun m => item confidences [b; m])) (Fin 1) = true.

Record valid_inputs (gt pred confidences avails : Tensor) (B M T C : nat) : Prop := {
  pred_shape : shape pred = [B; M; T; C];
  gt_shape : shape gt = [B; T; C];
  confidences_shape : shape confidences = [B; M];
  avails_shape : shape avails = [B; T];
  confidences_sum : rows_sum_to_one confidences B M;
  pred_finite : finite_on pred;
  gt_finite : finite_on gt;
  confidences_finite : finite_on confidences;
  avails_finite : finite_on avails
}.
End Format.

Arguments range_sum : simpl never.
Arguments sum_list : simpl never.
End Rounded.

(** ** The range of [float32]

    The largest finite [float32] number is [(2 - 2^-23) * 2^127].  An
    exact result beyond it overflows to the infinity of its sign.  The
    rounding of the significand and the loss of precision near zero are
    not modelled: within the range a result is the exact real number. *)
Definition max_float32 : R := 340282346638528859811704183484516925440.

Definition overflow32 (a : scalar) : scalar :=
  match a with
  | Fin x => if Rltb max_float32 x then PInf
             else if Rltb x (- max_float32) then NInf
             else Fin x
  | _ => a
  end.

Arguments overflow32 : simpl never.

(** The finite entries a [float32] tensor can hold. *)
Definition in_range32 (x : R) : Prop := - max_float32 <= x <= max_float32.

Definition float32_on (x : Tensor) : Prop :=
  forall idx, In idx (indices (shape x)) ->
    exists r, item x idx = Fin r /\ in_range32 r.

Module Binary32.
Definition add := Rounded.add overflow32.
Definition sub := Rounded.sub overflow32.
Definition mul := Rounded.mul overflow32.
Definition div := Rounded.div overflow32.
Definition square := Rounded.square overflow32.
Definition log := Rounded.log overflow32.
Definition exp := Rounded.exp overflow32.
Definition range_sum := Rounded.range_sum overflow32.

Definition pytorch_neg_multi_log_likelihood_batch :=
  Rounded.pytorch_neg_multi_log_likelihood_batch overflow32.
Definition pytorch_neg_multi_log_likelihood_single :=
  Rounded.pytorch_neg_multi_log_likelihood_single overflow32.

Definition step_error := Rounded.step_error overflow32.
Definition raw_error := Rounded.raw_error overflow32.
Definition log_score := Rounded.log_score overflow32.
Definition sample_nll := Rounded.sample_nll overflow32.
Definition batch_nll := Rounded.batch_nll overflow32.

(** Valid [float32] inputs of the loss: the shapes agree, every entry
    is a finite [float32] number and every row of confidences sums to
    1 within the tolerance of [torch.allclose]. *)
Record valid_inputs (gt pred confidences avails : Tensor) (B M T C : nat) : Prop := {
  checks_pass : Rounded.valid_inputs overflow32 gt pred confidences avails B M T C;
  pred_float32 : float32_on pred;
  gt_float32 : float32_on gt;
  confidences_float32 : float32_on confidences;
  avails_float32 : float32_on avails
}.
End Binary32.

(** ** LyftMultiModel (source lines 154-222) *)

Module LyftMultiModel.

(** The entries of [cfg["model_params"]] that the model reads. *)
Record model_params : Type := {
  model_architecture : string;
  history_num_frames : nat;
  future_num_frames : nat
}.

(** The configuration of lines 58-105. *)
Definition cfg : model_params := {|
  model_architecture := "resnet34";
  history_num_frames := 10;
  future_num_frames := 50
|}.

(** A torchvision ResNet as far as the model uses it: the input
    channels of [conv1], the width of the feature vector that
    [avgpool] and [flatten] leave, the batches of rasters on which its
    layers run through (they raise on an empty raster, and in training
    mode batch normalisation raises on a single value per channel),
    and the feature values. *)
Record ResNet : Type := {
  conv1_in_channels : nat;
  num_features : nat;
  accepts : Tensor -> bool;
  features : Tensor -> list nat -> scalar
}.

(** Modelled from the spec: the feature width of the torchvision
    ResNets imported at line 11, whose code is not part of the
    sources: 512 for the shallow resnet18 and resnet34, 2048 for the
    deeper resnet50 and resnet101 (in torchvision
    [512 * block.expansion], with expansion 1 and 4).  The comment at
    lines 175-176 of the source says the same. *)
Definition resnet_width (name : string) : option nat :=
  if (name =? "resnet18")%string then Some 512%nat
  else if (name =? "resnet34")%string then Some 512%nat
  else if (name =? "resnet50")%string then Some 2048%nat
  else if (name =? "resnet101")%string then Some 2048%nat
  else None.

(** [nn.Linear] with its parameters. *)
Record Linear : Type := {
  in_features : nat;
  out_features : nat;
  weight : nat -> nat -> scalar;
  bias : nat -> scalar
}.

(** The values of the parameters of a model: the rasters that the
    convolutional layers accept and the features they compute, and the
    weights and biases of the two linear layers. *)
Record Parameters : Type := {
  backbone_accepts : Tensor -> bool;
  backbone_features : Tensor -> list nat -> scalar;
  head_weight : nat -> nat -> scalar;
  head_bias : nat -> scalar;
  logit_weight : nat -> nat -> scalar;
  logit_bias : nat -> scalar
}.

Record Model : Type := {
  backbone : ResNet;
  head : Linear;
  logit : Linear;
  future_len : nat;
  num_preds : nat;
  num_modes : nat
}.

(** [eval(architecture)(pretrained=True, progress=True)]: the names
    bound at line 11 are the four ResNet constructors. *)
Definition eval_architecture (theta : Parameters) (architecture : string) : result ResNet :=
  match resnet_width architecture with
  | Some width =>
      Ok {| conv1_in_channels := 3;
            num_features := width;
            accepts := backbone_accepts theta;
            features := backbone_features theta |}
  | None => Raise NameError
  end.

(** Lines 178-181. *)
Definition backbone_out_features (architecture : string) : nat :=
  if (architecture =? "resnet50")%string then 2048%nat else 512%nat.

(** [LyftMultiModel.__init__(self, cfg, num_modes=3)] *)
Definition __init__ (theta : Parameters) (cfg : model_params) (num_modes : nat)
    : result Model :=
  let architecture := model_architecture cfg in
  backbone <- eval_architecture theta architecture ;;
  let num_history_channels := ((history_num_frames cfg + 1) * 2)%nat in
  let num_in_channels := (3 + num_history_channels)%nat in
  let backbone := {| conv1_in_channels := num_in_channels;
                     num_features := num_features backbone;
                     accepts := accepts backbone;
                     features := features backbone |} in
  let backbone_out_features := backbone_out_features architecture in
  (* X, Y coords for the future positions *)
  let future_len := future_num_frames cfg in
  let num_targets := (2 * future_len)%nat in
  let head := {| in_features := backbone_out_features;
                 out_features := 4096;
                 weight := head_weight theta;
                 bias := head_bias theta |} in
  let num_preds := (num_targets * num_modes)%nat in
  let logit := {| in_features := 4096;
                  out_features := num_preds + num_modes;
                  weight := logit_weight theta;
                  bias := logit_bias theta |} in
  Ok {| backbone := backbone; head := head; logit := logit;
        future_len := future_len; num_preds := num_preds;
        num_modes := num_modes |}.

(** Lines 199-210: the convolutional layers, [avgpool] and [flatten]
    on a batch of images of shape [(bs, channels, h, w)].  An error of
    the layers is rendered as [RuntimeError], whatever its class. *)
Definition backbone_forward (bb : ResNet) (x : Tensor) : result Tensor :=
  match shape x with
  | [bs; channels; _; _] =>
      if (channels =? conv1_in_channels bb)%nat
      then if accepts bb x
           then Ok (mkTensor [bs; num_features bb] (features bb x))
           else Raise RuntimeError
      else Raise RuntimeError
  | _ => Raise RuntimeError
  end.

(** [nn.Linear.forward] on a 2-d input: [x @ weight.T + bias], in the
    range of [float32]. *)
Definition linear_forward (l : Linear) (x : Tensor) : result Tensor :=
  match shape x with
  | [bs; n] =>
      if (n =? in_features l)%nat
      then Ok (mkTensor [bs; out_features l]
                 (fun idx =>
                    let b := nth 0 idx 0%nat in
                    let j := nth 1 idx 0%nat in
                    Binary32.add
                      (Binary32.range_sum n
                         (fun i => Binary32.mul (item x [b; i]) (weight l j i)))
                      (bias l j)))
      else Raise RuntimeError
  | _ => Raise RuntimeError
  end.

(** [torch.split(x, split_size, dim=1)] on a 2-d input: chunks of
    [split_size] columns, the last one smaller when the width is not a
    multiple. *)
Definition split1 (x : Tensor) (split_size : nat) : result (list Tensor) :=
  match shape x with
  | [bs; n] =>
      if (split_size =? 0)%nat
      then (if (n =? 0)%nat then Ok [x] else Raise RuntimeError)
      else
        let chunks := Nat.max 1 ((n + split_size - 1) / split_size) in
        Ok (map (fun k =>
                   mkTensor [bs; Nat.min split_size (n - k * split_size)]
                     (fun idx => item x [nth 0 idx 0%nat;
                                         (k * split_size + nth 1 idx 0%nat)%nat]))
                (seq 0 chunks))
  | _ => Raise RuntimeError
  end.

(** Row-major offsets, for [view]. *)
Definition prod (shp : list nat) : nat := fold_right Nat.mul 1%nat shp.

Fixpoint ravel (shp idx : list nat) : nat :=
  match shp, idx with
  | _ :: s, i :: r => (i * prod s + ravel s r)%nat
  | _, _ => 0%nat
  end.

Fixpoint unravel (shp : list nat) (k : nat) : list nat :=
  match shp with
  | [] => []
  | _ :: s => (k / prod s)%nat :: unravel s (k mod prod s)
  end.

(** [x.view(shp)] *)
Definition view (x : Tensor) (shp : list nat) : result Tensor :=
  if (prod (shape x) =? prod shp)%nat
  then Ok (mkTensor shp (fun idx => item x (unravel (shape x) (ravel shp idx))))
  else Raise RuntimeError.

(** [torch.softmax(x, dim=1)], computed as the library does, with the
    maximum of the row subtracted:
    [exp(x_j - max) / sum_k exp(x_k - max)] along dimension 1.  The
    exponentials lie between 0 and 1, so the range of the format plays
    no role here. *)
Definition softmax1 (x : Tensor) : Tensor :=
  let n := nth 1 (shape x) 0%nat in
  mkTensor (shape x)
    (fun idx =>
       let row k := item x (replace_at 1 k idx) in
       let max_value := range_max n row in
       fdiv (fexp (fsub (item x idx) max_value))
            (range_sum n (fun k => fexp (fsub (row k) max_value)))).

(** Lines 217-222 of [forward]: the output of the last layer split
    into trajectories and confidences. *)
Definition decode (self : Model) (x : Tensor) : result (Tensor * Tensor) :=
  (* pred (batch_size)x(modes)x(time)x(2D coords)
     confidences (batch_size)x(modes) *)
  match shape x with
  | [bs; _] =>
      chunks <- split1 x (num_preds self) ;;
      match chunks with
      | [pred; confidences] =>
          pred <- view pred [bs; num_modes self; future_len self; 2%nat] ;;
          assert! shape_eqb (shape confidences) [bs; num_modes self]
            or EmptyString ;;
          let confidences := softmax1 confidences in
          Ok (pred, confidences)
      | _ => Raise ValueError
      end
  | _ => Raise ValueError
  end.

(** Lines 199-213 of [forward]: the output of the last layer. *)
Definition last_layer_output (self : Model) (x : Tensor) : result Tensor :=
  x <- backbone_forward (backbone self) x ;;
  x <- linear_forward (head self) x ;;
  linear_forward (logit self) x.

(** [LyftMultiModel.forward(self, x)] *)
Definition forward (self : Model) (x : Tensor) : result (Tensor * Tensor) :=
  x <- backbone_forward (backbone self) x ;;
  x <- linear_forward (head self) x ;;
  x <- linear_forward (logit self) x ;;
  decode self x.

(** The configuration with the deeper backbone imported at line 11. *)
Definition cfg_resnet101 : model_params := {|
  model_architecture := "resnet101";
  history_num_frames := 10;
  future_num_frames := 50
|}.

(** All parameters 0, and a batch of two all-zero rasters. *)
Definition zero_parameters : Parameters := {|
  backbone_accepts := fun _ => true;
  backbone_features := fun _ _ => Fin 0;
  head_weight := fun _ _ => Fin 0;
  head_bias := fun _ => Fin 0;
  logit_weight := fun _ _ => Fin 0;
  logit_bias := fun _ => Fin 0
|}.

(** The same with a NaN in the bias of the last layer. *)
Definition nan_bias_parameters : Parameters := {|
  backbone_accepts := fun _ => true;
  backbone_features := fun _ _ => Fin 0;
  head_weight := fun _ _ => Fin 0;
  head_bias := fun _ => Fin 0;
  logit_weight := fun _ _ => Fin 0;
  logit_bias := fun _ => NaN
|}.

Definition two_rasters : Tensor := full [2; 25; 224; 224]%nat 0.

(** A batch of two rasters holding NaN, and parameters whose
    convolutional layers pass the first entry of a raster on to each
    of its features. *)
Definition nan_rasters : Tensor := mkTensor [2; 25; 224; 224]%nat (fun _ => NaN).

Definition passing_parameters : Parameters := {|
  backbone_accepts := fun _ => true;
  backbone_features := fun x idx => item x [nth 0 idx 0%nat; 0%nat; 0%nat; 0%nat];
  head_weight := fun _ _ => Fin 0;
  head_bias := fun _ => Fin 0;
  logit_weight := fun _ _ => Fin 0;
  logit_bias := fun _ => Fin 0
|}.

End LyftMultiModel.

(** ** The evaluation step (source lines 282-289) *)

Module Wrapper.

(** What the step gives: its value, the [KeyError] of a missing entry
    of [data], or an error raised by the model or the criterion. *)
Inductive step_result (A : Type) : Type :=
| Done (a : A)
| KeyError (key : string)
| Raised (e : exn).

Arguments Done {A} a.
Arguments KeyError {A} key.
Arguments Raised {A} e.

(** [data[key]] for a batch of the data loader, a dict of tensors. *)
Fixpoint getitem (data : list (string * Tensor)) (key : string) : option Tensor :=
  match data with
  | [] => None
  | (k, v) :: rest => if (k =? key)%string then Some v else getitem rest key
  end.

Definition lift {A : Type} (r : result A) : step_result A :=
  match r with
  | Ok a => Done a
  | Raise e => Raised e
  end.

(** [forward(data, model, device, criterion)]; moving a tensor to the
    device does not change it. *)
Definition forward (data : list (string * Tensor)) (model : LyftMultiModel.Model)
    (criterion : Tensor -> Tensor -> Tensor -> Tensor -> result scalar)
    : step_result (scalar * Tensor * Tensor) :=
  match getitem data "image" with
  | None => KeyError "image"
  | Some inputs =>
      match getitem data "target_availabilities" with
      | None => KeyError "target_availabilities"
      | Some target_availabilities =>
          match getitem data "target_positions" with
          | None => KeyError "target_positions"
          | Some targets =>
              (* Forward pass *)
              lift (pc <- LyftMultiModel.forward model inputs ;;
                    let (preds, confidences) := pc in
                    loss <- criterion targets preds confidences target_availabilities ;;
                    Ok (loss, preds, confidences))
          end
      end
  end.

End Wrapper.

(** ** Real-valued readings of the loss *)

Definition to_R (a : scalar) : R :=
  match a with Fin r => r | _ => 0 end.

Definition Rsum (n : nat) (f : nat -> R) : R :=
  fold_right Rplus 0 (map f (seq 0 n)).

(** [x[b:b+1]]: sample [b] of a batch, as a batch of one. *)
Definition batch_slice (x : Tensor) (b : nat) : Tensor :=
  mkTensor (replace_at 0 1%nat (shape x))
           (fun idx => item x (replace_at 0 (nth 0 idx 0 + b)%nat idx)).

(** ** More sample tensors *)

(** A row of confidences 3/2 and -1/2: it sums to 1. *)
Definition signed_confidences : Tensor :=
  mkTensor [1; 2]%nat
    (fun idx => if (nth 1 idx 0 =? 0)%nat then Fin (3 / 2) else Fin (- (1 / 2))).

(** The sample of [gt_ones] and [one_mode_zeros] moved by 3. *)
Definition gt_moved : Tensor := full [1; 1; 2]%nat 4.
Definition one_mode_moved : Tensor := full [1; 1; 1; 2]%nat 3.

(** A batch of the data loader for [LyftMultiModel.two_rasters]. *)
Definition two_targets : Tensor := full [2; 50; 2]%nat 0.
Definition two_availabilities : Tensor := full [2; 50]%nat 1.
Definition two_samples : list (string * Tensor) :=
  [("image"%string, LyftMultiModel.two_rasters);
   ("target_availabilities"%string, two_availabilities);
   ("target_positions"%string, two_targets)].

(** ** Sample tensors at the edge of the [float32] range *)

(** [2^127] and [2^64]: both are [float32] numbers; the difference
    [-2^127 - 2^127] and the square [(2^64)^2] are beyond the range. *)
Definition two_127 : R := 170141183460469231731687303715884105728.
Definition two_64 : R := 18446744073709551616.

(** One sample whose only timestep is masked, with the ground truth at
    [-2^127]; a prediction equal to it and one at [+2^127]. *)
Definition gt_low : Tensor := full [1; 1; 2]%nat (- two_127).
Definition avails_none : Tensor := full [1; 1]%nat 0.
Definition one_mode_low : Tensor := full [1; 1; 1; 2]%nat (- two_127).
Definition one_mode_high : Tensor := full [1; 1; 1; 2]%nat two_127.

(** Two modes: the first predicts [-2^127], the second [+2^127]. *)
Definition two_modes_low_high : Tensor :=
  mkTensor [1; 2; 1; 2]%nat
    (fun idx => if (nth 1 idx 0 =? 0)%nat then Fin (- two_127) else Fin two_127).

(** One available sample with the ground truth at [2^64] and the
    prediction at 0. *)
Definition gt_far : Tensor := full [1; 1; 2]%nat two_64.

(** The sum of squared errors of a single trajectory of sample [b], as
    a real number. *)
Definition real_sq_error (gt traj : Tensor) (T C b : nat) : R :=
  Rsum T (fun t => Rsum C (fun c =>
    Rsqr (to_R (item gt [b; t; c]) - to_R (item traj [b; t; c])))).

(** The modes left when those marked by [zero] are dropped, in their
    order. *)
Definition remaining_modes (zero : nat -> bool) (M : nat) : list nat :=
  filter (fun m => negb (zero m)) (seq 0 M).

(** What a square, an exponential and a sum of such can be: NaN,
    [+inf] or a non-negative number. *)
Definition nonneg_value (a : scalar) : Prop :=
  a = NaN \/ a = PInf \/ exists e, a = Fin e /\ 0 <= e.

(** ** Sample batches with distinct modes and samples *)

(** Two modes that predict (0,0) and (1,1), with confidences 1/4 and
    3/4. *)
Definition two_modes_apart : Tensor :=
  mkTensor [1; 2; 1; 2]%nat
    (fun idx => if (nth 1 idx 0 =? 0)%nat then Fin 0 else Fin 1).
Definition two_modes_skewed : Tensor :=
  mkTensor [1; 2]%nat
    (fun idx => if (nth 1 idx 0 =? 0)%nat then Fin (1 / 4) else Fin (3 / 4)).

(** Five modes with the confidences [2^127, -2^127, 2^127, -2^127, 1]:
    summed in this order they give 1; with the second and the third
    exchanged the sum overflows. *)
Definition five_modes_zeros : Tensor := full [1; 5; 1; 2]%nat 0.
Definition five_modes_alternating : Tensor :=
  mkTensor [1; 5]%nat
    (fun idx => match nth 1 idx 0%nat with
                | 0%nat | 2%nat => Fin two_127
                | 1%nat | 3%nat => Fin (- two_127)
                | _ => Fin 1
                end).

(** Two samples with the ground truths (1,1) and (2,2). *)
Definition gt_two_samples : Tensor :=
  mkTensor [2; 1; 2]%nat
    (fun idx => if (nth 0 idx 0 =? 0)%nat then Fin 1 else Fin 2).
Definition pred_two_samples : Tensor := full [2; 2; 1; 2]%nat 0.
Definition confidences_two_samples : Tensor := full [2; 2]%nat (1 / 2).
Definition avails_two_samples : Tensor := full [2; 1]%nat 1.

(** ** Scalar arithmetic *)

Lemma fadd_comm (a b : scalar) : fadd a b = fadd b a.
Proof. destruct a, b; simpl; try reflexivity; f_equal; lra. Qed.

Lemma fadd_assoc (a b c : scalar) : fadd a (fadd b c) = fadd (fadd a b) c.
Proof. destruct a, b, c; simpl; try reflexivity; f_equal; lra. Qed.

Lemma fadd_0_l (a : scalar) : fadd (Fin 0) a = a.
Proof. destruct a; simpl; try reflexivity; f_equal; lra. Qed.

Lemma fadd_0_r (a : scalar) : fadd a (Fin 0) = a.
Proof. rewrite fadd_comm; apply fadd_0_l. Qed.

Lemma fmax_comm (a b : scalar) : fmax a b = fmax b a.
Proof. destruct a, b; simpl; try reflexivity; f_equal; apply Rmax_comm. Qed.

Lemma fmax_assoc (a b c : scalar) : fmax a (fmax b c) = fmax (fmax a b) c.
Proof. destruct a, b, c; simpl; try reflexivity; f_equal; apply Rmax_assoc. Qed.

Lemma fmax_NInf_l (a : scalar) : fmax NInf a = a.
Proof. destruct a; reflexivity. Qed.

Lemma Rltb_true (x y : R) : x < y -> Rltb x y = true.
Proof. intros H; unfold Rltb; destruct (Rlt_dec x y); [reflexivity | contradiction]. Qed.

Lemma Rltb_false (x y : R) : y <= x -> Rltb x y = false.
Proof. intros H; unfold Rltb; destruct (Rlt_dec x y); [lra | reflexivity]. Qed.

Lemma Rleb_true (x y : R) : x <= y -> Rleb x y = true.
Proof. intros H; unfold Rleb; destruct (Rle_dec x y); [reflexivity | contradiction]. Qed.

Lemma isfinite_Fin (a : scalar) : isfinite a = true -> exists r, a = Fin r.
Proof. destruct a; simpl; intros H; try discriminate; eauto. Qed.

(** ** Sums and maxima over a range *)

Section Folds.
Variable op : scalar -> scalar -> scalar.
Variable unit : scalar.
Hypothesis op_comm : forall a b, op a b = op b a.
Hypothesis op_assoc : forall a b c, op a (op b c) = op (op a b) c.

Lemma fold_right_perm (l1 l2 : list scalar) :
  Permutation l1 l2 -> fold_right op unit l1 = fold_right op unit l2.
Proof.
  induction 1; simpl.
  - reflexivity.
  - now rewrite IHPermutation.
  - rewrite !op_assoc. f_equal. apply op_comm.
  - congruence.
Qed.

Hypothesis op_unit : forall a, op unit a = a.

Lemma fold_right_op_app (l1 l2 : list scalar) :
  fold_right op unit (l1 ++ l2) = op (fold_right op unit l1) (fold_right op unit l2).
Proof.
  induction l1 as [|a l1 IH]; simpl.
  - now rewrite op_unit.
  - now rewrite IH, op_assoc.
Qed.
End Folds.

Lemma range_sum_ext (n : nat) (f g : nat -> scalar) :
  (forall i, (i < n)%nat -> f i = g i) -> range_sum n f = range_sum n g.
Proof.
  intros H. unfold range_sum. f_equal. apply map_ext_in.
  intros i Hi. apply in_seq in Hi. apply H. lia.
Qed.

Lemma range_max_ext (n : nat) (f g : nat -> scalar) :
  (forall i, (i < n)%nat -> f i = g i) -> range_max n f = range_max n g.
Proof.
  intros H. unfold range_max. f_equal. apply map_ext_in.
  intros i Hi. apply in_seq in Hi. apply H. lia.
Qed.

Lemma range_sum_S (n : nat) (f : nat -> scalar) :
  range_sum (S n) f = fadd (range_sum n f) (f n).
Proof.
  unfold range_sum. rewrite seq_S, map_app. simpl.
  rewrite (fold_right_op_app fadd (Fin 0) fadd_assoc fadd_0_l). simpl.
  now rewrite fadd_0_r.
Qed.

(** ** Shapes and indices *)

Lemma shape_eqb_refl (s : list nat) : shape_eqb s s = true.
Proof. unfold shape_eqb. destruct (list_eq_dec Nat.eq_dec s s); congruence. Qed.

Lemma shape_eqb_eq (s1 s2 : list nat) : shape_eqb s1 s2 = true <-> s1 = s2.
Proof.
  unfold shape_eqb. destruct (list_eq_dec Nat.eq_dec s1 s2); split; congruence.
Qed.

Lemma in_indices (s idx : list nat) :
  In idx (indices s) <-> Forall2 lt idx s.
Proof.
  revert idx. induction s as [|d s IH]; intros idx; simpl.
  - split.
    + intros [<- | []]. constructor.
    + intros H. inversion H. now left.
  - rewrite in_flat_map. split.
    + intros (i & Hi & Hin). apply in_map_iff in Hin as (r & <- & Hr).
      apply in_seq in Hi. constructor; [lia | now apply IH].
    + intros H. inversion H as [|i d' r s' Hlt Hr]; subst.
      exists i. split; [apply in_seq; lia|].
      apply in_map. now apply IH.
Qed.

Lemma clamp_lt (d i : nat) :
  (i < d)%nat -> (if (d =? 1)%nat then 0%nat else i) = i.
Proof.
  intros H. destruct (Nat.eqb_spec d 1); [lia | reflexivity].
Qed.

(** Reads of a broadcast operand at in-range indices. *)
Ltac in_range :=
  repeat match goal with
         | H : (?i < ?d)%nat |- _ => rewrite (clamp_lt d i H)
         end.

Lemma bdim_refl (a : nat) : bdim a a = Some a.
Proof. unfold bdim. now rewrite Nat.eqb_refl. Qed.

Lemma bdim_1_l (a : nat) : bdim 1 a = Some a.
Proof.
  unfold bdim. destruct (Nat.eqb_spec 1 a); [congruence | reflexivity].
Qed.

Lemma bdim_1_r (a : nat) : bdim a 1 = Some a.
Proof.
  unfold bdim. destruct (Nat.eqb_spec a 1) as [->|]; [reflexivity|].
  simpl. reflexivity.
Qed.

(** Broadcast shapes of symbolic dimensions. *)
Ltac bshape := repeat (simpl; rewrite ?bdim_refl, ?bdim_1_l, ?bdim_1_r).

(** ** The loss, entry by entry *)

Lemma raw_mode_error_entries (gt pred avails : Tensor) (B M T C : nat) :
  shape pred = [B; M; T; C] ->
  shape gt = [B; T; C] ->
  shape avails = [B; T] ->
  exists E,
    raw_mode_error gt pred avails = Ok E /\
    shape E = [B; M] /\
    forall b m, (b < B)%nat -> (m < M)%nat ->
      item E [b; m] = raw_error gt pred avails T C b m.
Proof.
  intros Hp Hg Ha.
  unfold raw_mode_error, tsub, tmul, binop, broadcast_shapes. simpl.
  rewrite Hp, Hg, Ha. bshape.
  eexists. split; [reflexivity|]. split; [reflexivity|].
  intros b m Hb Hm. simpl.
  unfold raw_error, step_error.
  apply range_sum_ext; intros t Ht.
  apply range_sum_ext; intros c Hc.
  unfold bcast_index; simpl. in_range.
  reflexivity.
Qed.

Lemma indices_B1 (B : nat) : indices [B; 1%nat] = map (fun b => [b; 0%nat]) (seq 0 B).
Proof.
  simpl. induction (seq 0 B) as [|b l IH]; simpl; [reflexivity | now rewrite IH].
Qed.

Lemma mean_B1 (x : Tensor) (B : nat) :
  shape x = [B; 1%nat] ->
  mean x = fdiv (range_sum B (fun b => item x [b; 0%nat])) (Fin (INR B)).
Proof.
  intros H. unfold mean, numel. rewrite H, indices_B1.
  rewrite length_map, length_seq, map_map. reflexivity.
Qed.

Lemma all_finite_true (x : Tensor) : finite_on x -> all_finite x = true.
Proof. intros H. apply forallb_forall. exact H. Qed.

Lemma indices_1 (B : nat) (idx : list nat) :
  In idx (indices [B]) -> exists b, (b < B)%nat /\ idx = [b].
Proof.
  intros H. apply in_indices in H.
  inversion H as [|b B' r s Hb Hr]; subst. inversion Hr; subst. eauto.
Qed.

Lemma confidences_close (confidences : Tensor) (B M : nat) :
  shape confidences = [B; M] ->
  rows_sum_to_one confidences B M ->
  allclose (sum_dim confidences 1 false) (new_ones [B]) = Ok true.
Proof.
  intros Hs Hrows. unfold allclose, broadcast_shapes. simpl.
  rewrite Hs. simpl. rewrite bdim_refl. f_equal.
  apply forallb_forall. intros idx Hin.
  apply indices_1 in Hin as (b & Hb & ->).
  unfold bcast_index; simpl. in_range.
  apply Hrows, Hb.
Qed.

(** The reduction over modes and the batch mean (lines 255-258) for a
    tensor of per-mode scores. *)
Lemma reduce_modes_entries (S : Tensor) (B M : nat) :
  shape S = [B; M] -> (0 < M)%nat ->
  (max_value <- max_dim S 1 ;;
   shifted <- tsub S max_value ;;
   let exps := tmap fexp shifted in
   let total := sum_dim exps (last_dim exps) true in
   error <- tsub (tmap fneg (tmap flog total)) max_value ;;
   Ok (mean error)) =
  Ok (fdiv (range_sum B (fun b =>
        let row m := item S [b; m] in
        fsub (fneg (flog (range_sum M (fun m => fexp (fsub (row m) (range_max M row))))))
             (range_max M row)))
      (Fin (INR B))).
Proof.
  intros HS HM.
  unfold max_dim. rewrite HS. simpl nth.
  rewrite (proj2 (Nat.eqb_neq M 0)) by lia.
  unfold tsub, binop, broadcast_shapes. simpl.
  rewrite HS. bshape.
  f_equal. rewrite (mean_B1 _ B) by reflexivity. f_equal.
  apply range_sum_ext; intros b Hb. simpl.
  unfold bcast_index; simpl. in_range.
  f_equal. f_equal. f_equal.
  apply range_sum_ext; intros m Hm. in_range. reflexivity.
Qed.

(** For valid inputs the checks of lines 229-240 pass; the loss is then
    [batch_nll], unless there is no mode to take the maximum over. *)
Lemma batch_loss_valid (gt pred confidences avails : Tensor) (B M T C : nat) :
  valid_inputs gt pred confidences avails B M T C ->
  pytorch_neg_multi_log_likelihood_batch gt pred confidences avails =
  if (M =? 0)%nat then Raise IndexError
  else Ok (batch_nll gt pred confidences avails M T C B).
Proof.
  intros [Hp Hg Hc Ha Hsum Fp Fg Fc Fa].
  unfold pytorch_neg_multi_log_likelihood_batch.
  rewrite Hp, Hg, Hc, Ha. simpl length. simpl Nat.eqb.
  rewrite !shape_eqb_refl.
  rewrite (confidences_close _ B M Hc Hsum).
  rewrite !all_finite_true by assumption.
  destruct (raw_mode_error_entries gt pred avails B M T C Hp Hg Ha)
    as (E & -> & HE & Hitems).
  cbn [bind assert].
  unfold tsub at 1. unfold binop, broadcast_shapes. cbn [tmap shape].
  rewrite Hc, HE. bshape.
  destruct (Nat.eqb_spec M 0) as [->|HM].
  { reflexivity. }
  rewrite (reduce_modes_entries _ B M) by (reflexivity || lia).
  unfold batch_nll, sample_nll. f_equal. f_equal.
  apply range_sum_ext; intros b Hb. cbn [item].
  assert (Hrow : forall m, (m < M)%nat ->
            fsub (flog (item confidences (bcast_index [B; M] [b; m])))
                 (fmul (Fin (1 / 2)) (item E (bcast_index [B; M] [b; m]))) =
            log_score gt pred confidences avails T C b m).
  { intros m Hm. unfold bcast_index; simpl. in_range.
    rewrite Hitems by assumption. reflexivity. }
  rewrite (range_max_ext M _ (log_score gt pred confidences avails T C b)) by exact Hrow.
  f_equal. f_equal. f_equal.
  apply range_sum_ext; intros m Hm. now rewrite Hrow.
Qed.

Lemma batch_loss_entries (gt pred confidences avails : Tensor) (B M T C : nat) :
  valid_inputs gt pred confidences avails B M T C -> (0 < M)%nat ->
  pytorch_neg_multi_log_likelihood_batch gt pred confidences avails =
  Ok (batch_nll gt pred confidences avails M T C B).
Proof.
  intros Hv HM. rewrite (batch_loss_valid _ _ _ _ B M T C Hv).
  now rewrite (proj2 (Nat.eqb_neq M 0)) by lia.
Qed.

(** Entries of finite tensors. *)
Lemma finite_at (x : Tensor) (idx : list nat) :
  finite_on x -> Forall2 lt idx (shape x) -> exists r, item x idx = Fin r.
Proof.
  intros Hf Hidx. apply isfinite_Fin, Hf, in_indices, Hidx.
Qed.

Lemma finite_at2 (x : Tensor) (B M b m : nat) :
  finite_on x -> shape x = [B; M] -> (b < B)%nat -> (m < M)%nat ->
  exists r, item x [b; m] = Fin r.
Proof.
  intros Hf Hs Hb Hm. apply finite_at; [assumption|].
  rewrite Hs. repeat constructor; assumption.
Qed.

Lemma finite_at3 (x : Tensor) (B T C b t c : nat) :
  finite_on x -> shape x = [B; T; C] ->
  (b < B)%nat -> (t < T)%nat -> (c < C)%nat ->
  exists r, item x [b; t; c] = Fin r.
Proof.
  intros Hf Hs Hb Ht Hc. apply finite_at; [assumption|].
  rewrite Hs. repeat constructor; assumption.
Qed.

Lemma finite_at4 (x : Tensor) (B M T C b m t c : nat) :
  finite_on x -> shape x = [B; M; T; C] ->
  (b < B)%nat -> (m < M)%nat -> (t < T)%nat -> (c < C)%nat ->
  exists r, item x [b; m; t; c] = Fin r.
Proof.
  intros Hf Hs Hb Hm Ht Hc. apply finite_at; [assumption|].
  rewrite Hs. repeat constructor; assumption.
Qed.

Lemma scalar_eq_dec (a b : scalar) : {a = b} + {a <> b}.
Proof.
  destruct a as [x| | |], b as [y| | |];
    try (left; reflexivity); try (right; discriminate).
  destruct (Req_dec_T x y) as [->|N]; [left; reflexivity|].
  right. intros E. inversion E. contradiction.
Qed.

(** ** Rows of equal scores *)

Lemma range_sum_finite (n : nat) (f : nat -> scalar) :
  (forall i, (i < n)%nat -> exists r, f i = Fin r) ->
  exists r, range_sum n f = Fin r.
Proof.
  intros H. induction n as [|n IH].
  - exists 0. reflexivity.
  - destruct IH as [r Hr]; [auto|].
    destruct (H n) as [x Hx]; [lia|].
    rewrite range_sum_S, Hr, Hx. simpl. eauto.
Qed.

Lemma range_sum_const (n : nat) (f : nat -> scalar) (c : R) :
  (forall i, (i < n)%nat -> f i = Fin c) ->
  range_sum n f = Fin (INR n * c).
Proof.
  intros H. induction n as [|n IH].
  - unfold range_sum. simpl. f_equal; lra.
  - rewrite range_sum_S, IH, H by auto. rewrite S_INR. simpl. f_equal; lra.
Qed.

Lemma range_sum_scale (n : nat) (f : nat -> scalar) (k : R) :
  (forall i, (i < n)%nat -> exists r, f i = Fin r) ->
  range_sum n (fun i => fmul (Fin k) (f i)) = fmul (Fin k) (range_sum n f).
Proof.
  intros H. induction n as [|n IH].
  - unfold range_sum. simpl. f_equal; lra.
  - rewrite !range_sum_S, IH by auto.
    destruct (range_sum_finite n f) as [s ->]; [auto|].
    destruct (H n) as [x ->]; [lia|].
    simpl. f_equal; lra.
Qed.

Lemma range_max_const (n : nat) (f : nat -> scalar) (x : R) :
  (0 < n)%nat -> (forall i, (i < n)%nat -> f i = Fin x) ->
  range_max n f = Fin x.
Proof.
  unfold range_max. intros Hn H.
  assert (Hs : forall i, In i (seq 0 n) -> f i = Fin x).
  { intros i Hi. apply in_seq in Hi. apply H. lia. }
  assert (Hne : seq 0 n <> []) by (destruct n; [lia | discriminate]).
  clear H Hn. induction (seq 0 n) as [|a l IH]; [congruence|].
  simpl. rewrite Hs by (simpl; auto).
  destruct l as [|a' l'].
  - reflexivity.
  - rewrite IH; [|intros; apply Hs; simpl; auto | discriminate].
    simpl. f_equal. apply Rmax_left. lra.
Qed.

Lemma INR_pos (n : nat) : (0 < n)%nat -> 0 < INR n.
Proof. intros H. apply lt_0_INR. exact H. Qed.

(** The log-sum-exp of [n] equal scores [x] is [x + ln n]. *)
Lemma nll_const_row (n : nat) (f : nat -> scalar) (x : R) :
  (0 < n)%nat -> (forall i, (i < n)%nat -> f i = Fin x) ->
  fsub (fneg (flog (range_sum n (fun i => fexp (fsub (f i) (range_max n f))))))
       (range_max n f) = Fin (- ln (INR n) - x).
Proof.
  intros Hn H. rewrite (range_max_const n f x Hn H).
  rewrite (range_sum_const n _ 1).
  2:{ intros i Hi. rewrite H by assumption. simpl. f_equal.
      replace (x + - x) with 0 by lra. apply exp_0. }
  simpl. rewrite Rmult_1_r, Rltb_true by (now apply INR_pos).
  simpl. f_equal; lra.
Qed.

(** The score row of a sample whose modes have the confidence [/ M] and
    the same raw error [e] reduces to half that error. *)
Lemma uniform_sample_nll (gt pred confidences avails : Tensor)
    (M T C b : nat) (e : R) :
  (0 < M)%nat ->
  (forall m, (m < M)%nat -> item confidences [b; m] = Fin (/ INR M)) ->
  (forall m, (m < M)%nat -> raw_error gt pred avails T C b m = Fin e) ->
  sample_nll gt pred confidences avails M T C b = Fin (1 / 2 * e).
Proof.
  intros HM Hc He. unfold sample_nll. cbv zeta.
  rewrite (nll_const_row M _ (- ln (INR M) - 1 / 2 * e) HM).
  - f_equal; lra.
  - intros m Hm. unfold log_score. rewrite Hc, He by assumption.
    simpl. rewrite Rltb_true by (apply Rinv_0_lt_compat; now apply INR_pos).
    simpl. f_equal. rewrite ln_Rinv by (now apply INR_pos). lra.
Qed.

Lemma half_mean (B : nat) (f : nat -> scalar) :
  (forall b, (b < B)%nat -> exists r, f b = Fin r) ->
  fdiv (range_sum B (fun b => fmul (Fin (1 / 2)) (f b))) (Fin (INR B)) =
  fmul (Fin (1 / 2)) (fdiv (range_sum B f) (Fin (INR B))).
Proof.
  intros H. rewrite range_sum_scale by assumption.
  destruct (range_sum_finite B f H) as [s Hs]. rewrite Hs.
  destruct B as [|B].
  - unfold range_sum in Hs. simpl in Hs. injection Hs as <-.
    simpl. rewrite !Rltb_false by lra.
    unfold inf_times. rewrite !Rltb_false by lra. reflexivity.
  - assert (Hn : 0 < INR (S B)) by (apply INR_pos; lia).
    remember (INR (S B)) as n. unfold fdiv, fmul.
    rewrite !Rltb_true by assumption. f_equal. field. lra.
Qed.

(** ** The single-mode wrapper *)

Lemma indices_2 (B M : nat) (idx : list nat) :
  In idx (indices [B; M]) ->
  exists b m, idx = [b; m] /\ (b < B)%nat /\ (m < M)%nat.
Proof.
  intros H. apply in_indices in H.
  inversion H as [|b ? r1 ? Hb H1]; subst.
  inversion H1 as [|m ? r2 ? Hm H2]; subst.
  inversion H2; subst. eauto 6.
Qed.

Lemma indices_3 (B T C : nat) (idx : list nat) :
  In idx (indices [B; T; C]) ->
  exists b t c, idx = [b; t; c] /\ (b < B)%nat /\ (t < T)%nat /\ (c < C)%nat.
Proof.
  intros H. apply in_indices in H.
  inversion H as [|b ? r1 ? Hb H1]; subst.
  inversion H1 as [|t ? r2 ? Ht H2]; subst.
  inversion H2 as [|c ? r3 ? Hc H3]; subst.
  inversion H3; subst. eauto 8.
Qed.

Lemma indices_4 (B M T C : nat) (idx : list nat) :
  In idx (indices [B; M; T; C]) ->
  exists b m t c, idx = [b; m; t; c] /\
    (b < B)%nat /\ (m < M)%nat /\ (t < T)%nat /\ (c < C)%nat.
Proof.
  intros H. apply in_indices in H.
  inversion H as [|b ? r1 ? Hb H1]; subst.
  inversion H1 as [|m ? r2 ? Hm H2]; subst.
  inversion H2 as [|t ? r3 ? Ht H3]; subst.
  inversion H3 as [|c ? r4 ? Hc H4]; subst.
  inversion H4; subst. eauto 10.
Qed.

Lemma isclose_Fin_eq (x y : R) : x = y -> isclose (Fin x) (Fin y) = true.
Proof.
  intros ->. simpl. apply Rleb_true.
  replace (y - y) with 0 by lra. rewrite Rabs_R0.
  pose proof (Rabs_pos y). unfold atol, rtol. lra.
Qed.

Lemma new_ones_rows (B : nat) : rows_sum_to_one (new_ones [B; 1%nat]) B 1.
Proof.
  intros b Hb. unfold range_sum. simpl. apply isclose_Fin_eq. lra.
Qed.

Lemma single_inputs_valid (gt traj avails : Tensor) (B T C : nat) :
  shape gt = [B; T; C] -> shape traj = [B; T; C] -> shape avails = [B; T] ->
  finite_on gt -> finite_on traj -> finite_on avails ->
  valid_inputs gt (unsqueeze traj 1) (new_ones [B; 1%nat]) avails B 1 T C.
Proof.
  intros Hg Ht Ha Fg Ft Fa. split; try assumption.
  - unfold unsqueeze. simpl. now rewrite Ht.
  - reflexivity.
  - apply new_ones_rows.
  - intros idx Hin. unfold unsqueeze in *. simpl in *. rewrite Ht in Hin.
    apply (indices_4 B 1 T C) in Hin as (b & m & t & c & -> & Hb & Hm & Htt & Hc).
    simpl. apply Ft, in_indices. rewrite Ht. repeat constructor; assumption.
  - intros idx Hin. reflexivity.
Qed.

Lemma single_unfold (gt traj avails : Tensor) (B T C : nat) :
  shape traj = [B; T; C] ->
  pytorch_neg_multi_log_likelihood_single gt traj avails =
  pytorch_neg_multi_log_likelihood_batch gt (unsqueeze traj 1)
    (new_ones [B; 1%nat]) avails.
Proof.
  intros H. unfold pytorch_neg_multi_log_likelihood_single. now rewrite H.
Qed.

Lemma raw_error_finite (gt pred confidences avails : Tensor) (B M T C b m : nat) :
  valid_inputs gt pred confidences avails B M T C ->
  (b < B)%nat -> (m < M)%nat ->
  exists e, raw_error gt pred avails T C b m = Fin e.
Proof.
  intros V Hb Hm. unfold raw_error, step_error.
  apply range_sum_finite; intros t Ht.
  apply range_sum_finite; intros c Hc.
  destruct (finite_at3 gt B T C b t c (gt_finite _ _ _ _ _ _ _ _ V)
              (gt_shape _ _ _ _ _ _ _ _ V) Hb Ht Hc) as [g ->].
  destruct (finite_at4 pred B M T C b m t c (pred_finite _ _ _ _ _ _ _ _ V)
              (pred_shape _ _ _ _ _ _ _ _ V) Hb Hm Ht Hc) as [p ->].
  destruct (finite_at2 avails B T b t (avails_finite _ _ _ _ _ _ _ _ V)
              (avails_shape _ _ _ _ _ _ _ _ V) Hb Ht) as [a ->].
  simpl. eauto.
Qed.

(** The loss of a batch whose modes all have the confidence [/ M] and,
    per sample, the same raw error. *)
Lemma uniform_batch_value (gt pred confidences avails : Tensor) (B M T C : nat) :
  valid_inputs gt pred confidences avails B M T C -> (0 < M)%nat ->
  (forall b m, (b < B)%nat -> (m < M)%nat ->
     item confidences [b; m] = Fin (/ INR M)) ->
  (forall b m, (b < B)%nat -> (m < M)%nat ->
     raw_error gt pred avails T C b m = raw_error gt pred avails T C b 0) ->
  pytorch_neg_multi_log_likelihood_batch gt pred confidences avails =
  Ok (fmul (Fin (1 / 2))
        (fdiv (range_sum B (fun b => raw_error gt pred avails T C b 0))
              (Fin (INR B)))).
Proof.
  intros V HM Hc He.
  rewrite (batch_loss_entries _ _ _ _ B M T C V HM). f_equal.
  rewrite <- half_mean.
  2:{ intros b Hb. now apply (raw_error_finite gt pred confidences avails B M T C). }
  unfold batch_nll. f_equal. apply range_sum_ext; intros b Hb.
  destruct (raw_error_finite gt pred confidences avails B M T C b 0 V Hb HM)
    as [e Hraw].
  rewrite (uniform_sample_nll gt pred confidences avails M T C b e HM).
  - now rewrite Hraw.
  - intros m Hm. now apply Hc.
  - intros m Hm. rewrite He by assumption. exact Hraw.
Qed.

Lemma single_value (gt traj avails : Tensor) (B T C : nat) :
  shape gt = [B; T; C] -> shape traj = [B; T; C] -> shape avails = [B; T] ->
  finite_on gt -> finite_on traj -> finite_on avails ->
  pytorch_neg_multi_log_likelihood_single gt traj avails =
  Ok (fmul (Fin (1 / 2))
        (fdiv (range_sum B (fun b => raw_error gt (unsqueeze traj 1) avails T C b 0))
              (Fin (INR B)))).
Proof.
  intros Hg Ht Ha Fg Ft Fa.
  rewrite (single_unfold gt traj avails B T C Ht).
  apply (uniform_batch_value _ _ _ _ B 1 T C).
  - now apply single_inputs_valid.
  - lia.
  - intros b m Hb Hm. simpl. now rewrite Rinv_1.
  - intros b m Hb Hm. replace m with 0%nat by lia. reflexivity.
Qed.

Lemma full_finite (shp : list nat) (v : R) : finite_on (full shp v).
Proof. intros idx _. reflexivity. Qed.

(** C9.  The single-mode loss is the batch loss at one mode of
    confidence 1: on a [(B,T,C)] prediction it is the batch loss of the
    prediction with a mode dimension of size 1 inserted and an all-ones
    [(B,1)] confidence tensor, and for finite inputs of matching shapes
    it is a loss value. *)
Theorem single_is_batch_with_one_mode (gt pred avails : Tensor) (B T C : nat) :
  shape gt = [B; T; C] -> shape pred = [B; T; C] -> shape avails = [B; T] ->
  pytorch_neg_multi_log_likelihood_single gt pred avails =
  pytorch_neg_multi_log_likelihood_batch gt (unsqueeze pred 1)
    (new_ones [B; 1%nat]) avails /\
  (finite_on gt -> finite_on pred -> finite_on avails ->
   exists loss, pytorch_neg_multi_log_likelihood_single gt pred avails = Ok loss).
Proof.
  intros Hg Hp Ha. split.
  - now apply (single_unfold gt pred avails B T C).
  - intros Fg Fp Fa. eexists.
    now apply (single_value gt pred avails B T C).
Qed.

(** ** Identical modes with uniform confidences *)

Lemma uniform_identical_value
    (gt pred confidences avails traj : Tensor) (B M T C : nat) :
  valid_inputs gt pred confidences avails B M T C -> (0 < M)%nat ->
  shape traj = [B; T; C] ->
  (forall b m t c, (b < B)%nat -> (m < M)%nat -> (t < T)%nat -> (c < C)%nat ->
     item pred [b; m; t; c] = item traj [b; t; c]) ->
  (forall b m, (b < B)%nat -> (m < M)%nat ->
     item confidences [b; m] = Fin (1 / INR M)) ->
  let value :=
    fmul (Fin (1 / 2))
         (fdiv (range_sum B (fun b => raw_error gt (unsqueeze traj 1) avails T C b 0))
               (Fin (INR B))) in
  pytorch_neg_multi_log_likelihood_batch gt pred confidences avails = Ok value /\
  pytorch_neg_multi_log_likelihood_single gt traj avails = Ok value.
Proof.
  intros V HM Ht Hsame Hc value. unfold value.
  assert (Hraw : forall b m, (b < B)%nat -> (m < M)%nat ->
            raw_error gt pred avails T C b m =
            raw_error gt (unsqueeze traj 1) avails T C b 0).
  { intros b m Hb Hm. unfold raw_error, step_error.
    apply range_sum_ext; intros t Htt. apply range_sum_ext; intros c Hcc.
    rewrite Hsame by assumption. reflexivity. }
  split.
  - rewrite (uniform_batch_value _ _ _ _ B M T C V HM).
    + do 3 f_equal. apply range_sum_ext; intros b Hb. now apply Hraw.
    + intros b m Hb Hm. rewrite Hc by assumption. f_equal.
      unfold Rdiv. now rewrite Rmult_1_l.
    + intros b m Hb Hm. rewrite !Hraw by assumption. reflexivity.
  - apply (single_value gt traj avails B T C); try assumption; try apply V.
    intros idx Hin. rewrite Ht in Hin.
    apply indices_3 in Hin as (b & t & c & -> & Hb & Htt & Hcc).
    rewrite <- (Hsame b 0%nat t c) by assumption.
    apply (pred_finite _ _ _ _ _ _ _ _ V), in_indices.
    rewrite (pred_shape _ _ _ _ _ _ _ _ V). repeat constructor; assumption.
Qed.

(** C3, as amended.  When the [M >= 1] mode predictions of a valid
    batch are one and the same trajectory and every confidence is
    [1/M], [pytorch_neg_multi_log_likelihood_batch] returns exactly the
    single-mode loss of that trajectory: the [log M] of the log-sum-exp
    is cancelled by the [log (1/M)] of the confidences. *)
Theorem uniform_identical_modes_give_single_loss
    (gt pred confidences avails traj : Tensor) (B M T C : nat) :
  valid_inputs gt pred confidences avails B M T C -> (0 < M)%nat ->
  shape traj = [B; T; C] ->
  (forall b m t c, (b < B)%nat -> (m < M)%nat -> (t < T)%nat -> (c < C)%nat ->
     item pred [b; m; t; c] = item traj [b; t; c]) ->
  (forall b m, (b < B)%nat -> (m < M)%nat ->
     item confidences [b; m] = Fin (1 / INR M)) ->
  exists loss,
    pytorch_neg_multi_log_likelihood_single gt traj avails = Ok loss /\
    pytorch_neg_multi_log_likelihood_batch gt pred confidences avails = Ok loss.
Proof.
  intros V HM Ht Hsame Hc.
  destruct (uniform_identical_value gt pred confidences avails traj B M T C
              V HM Ht Hsame Hc) as [Hb Hs].
  eexists. split; eassumption.
Qed.

Lemma full_valid (gt pred confidences avails : Tensor) (B M T C : nat) (g p c a : R) :
  gt = full [B; T; C] g -> pred = full [B; M; T; C] p ->
  confidences = full [B; M] c -> avails = full [B; T] a ->
  INR M * c = 1 ->
  valid_inputs gt pred confidences avails B M T C.
Proof.
  intros -> -> -> -> Hc. split; try reflexivity; try apply full_finite.
  intros b Hb. rewrite (range_sum_const M _ c) by reflexivity.
  now apply isclose_Fin_eq.
Qed.

Lemma two_modes_valid :
  valid_inputs gt_ones two_modes_zeros two_modes_uniform avails_ones 1 2 1 2.
Proof.
  apply (full_valid _ _ _ _ 1 2 1 2 1 0 (1 / 2) 1); try reflexivity.
  simpl. lra.
Qed.

Lemma sample_value_one :
  fmul (Fin (1 / 2))
       (fdiv (range_sum 1 (fun b => raw_error gt_ones (unsqueeze traj_zeros 1)
                                      avails_ones 1 2 b 0))
             (Fin (INR 1))) = Fin 1.
Proof.
  unfold raw_error, step_error, range_sum. simpl.
  rewrite Rltb_true by lra. simpl. f_equal; field.
Qed.

(** C3, as stated, fails: for one sample with ground truth (1,1) whose
    two modes both predict (0,0) with confidence 1/2 each, the batch
    loss is 1 and the single-mode loss is 1, not [1 + log 2]. *)
Lemma uniform_identical_modes_counterexample :
  pytorch_neg_multi_log_likelihood_batch
    gt_ones two_modes_zeros two_modes_uniform avails_ones = Ok (Fin 1) /\
  pytorch_neg_multi_log_likelihood_single gt_ones traj_zeros avails_ones = Ok (Fin 1) /\
  Fin 1 <> fadd (Fin 1) (flog (Fin (INR 2))).
Proof.
  assert (Hc : forall b m, (b < 1)%nat -> (m < 2)%nat ->
            item two_modes_uniform [b; m] = Fin (1 / INR 2)).
  { intros b m _ _. simpl. f_equal; lra. }
  destruct (uniform_identical_value gt_ones two_modes_zeros two_modes_uniform
              avails_ones traj_zeros 1 2 1 2 two_modes_valid
              (Nat.lt_0_succ 1) eq_refl (fun _ _ _ _ _ _ _ _ => eq_refl) Hc)
    as [Hb Hs].
  rewrite sample_value_one in Hb, Hs.
  split; [exact Hb | split; [exact Hs |]].
  simpl. rewrite Rltb_true by lra. intros E. injection E as E.
  replace (1 + 1) with 2 in E by lra.
  pose proof ln_lt_2. lra.
Qed.

(** ** Rejected inputs *)

Lemma in_indices_1 (B b : nat) : (b < B)%nat -> In [b] (indices [B]).
Proof. intros H. apply in_indices. repeat constructor. exact H. Qed.

(** The checks of lines 229-240 either raise an [AssertionError] or
    establish that the inputs are valid. *)
Lemma batch_rejects_or_valid (gt pred confidences avails : Tensor) :
  (exists msg, pytorch_neg_multi_log_likelihood_batch gt pred confidences avails
               = Raise (AssertionError msg)) \/
  (exists B M T C, valid_inputs gt pred confidences avails B M T C).
Proof.
  unfold pytorch_neg_multi_log_likelihood_batch.
  destruct (shape pred) as [|B [|M [|T [|C [|x r]]]]] eqn:Hp;
    try (left; eexists; reflexivity).
  simpl length. simpl Nat.eqb. cbn [assert bind].
  destruct (shape_eqb (shape gt) [B; T; C]) eqn:Hg;
    [apply shape_eqb_eq in Hg | left; eexists; reflexivity].
  destruct (shape_eqb (shape confidences) [B; M]) eqn:Hc;
    [apply shape_eqb_eq in Hc | left; eexists; reflexivity].
  cbn [assert bind].
  unfold allclose, broadcast_shapes. simpl. rewrite Hc. simpl.
  rewrite bdim_refl. cbn [bind].
  match goal with |- context [assert ?c _] => destruct c eqn:Hclose end;
    [| left; eexists; reflexivity].
  cbn [assert bind].
  destruct (shape_eqb (shape avails) [B; T]) eqn:Ha;
    [apply shape_eqb_eq in Ha | left; eexists; reflexivity].
  destruct (all_finite pred) eqn:Fp; [| left; eexists; reflexivity].
  destruct (all_finite gt) eqn:Fg; [| left; eexists; reflexivity].
  destruct (all_finite confidences) eqn:Fc; [| left; eexists; reflexivity].
  destruct (all_finite avails) eqn:Fa; [| left; eexists; reflexivity].
  right. exists B, M, T, C.
  unfold all_finite in *. rewrite forallb_forall in Fp, Fg, Fc, Fa.
  split; try assumption.
  intros b Hb. rewrite forallb_forall in Hclose.
  specialize (Hclose [b] (in_indices_1 B b Hb)).
  unfold bcast_index in Hclose; simpl in Hclose.
  rewrite (clamp_lt B b Hb) in Hclose. exact Hclose.
Qed.


(** ** The raw per-mode error *)

Lemma raw_error_squares_mask (gt pred confidences avails : Tensor)
    (B M T C b m : nat) :
  valid_inputs gt pred confidences avails B M T C ->
  (b < B)%nat -> (m < M)%nat ->
  raw_error gt pred avails T C b m = squared_mask_error gt pred avails T C b m.
Proof.
  intros V Hb Hm. unfold raw_error, step_error, squared_mask_error.
  apply range_sum_ext; intros t Ht.
  apply range_sum_ext; intros c Hc.
  destruct (finite_at3 gt B T C b t c (gt_finite _ _ _ _ _ _ _ _ V)
              (gt_shape _ _ _ _ _ _ _ _ V) Hb Ht Hc) as [g ->].
  destruct (finite_at4 pred B M T C b m t c (pred_finite _ _ _ _ _ _ _ _ V)
              (pred_shape _ _ _ _ _ _ _ _ V) Hb Hm Ht Hc) as [p ->].
  destruct (finite_at2 avails B T b t (avails_finite _ _ _ _ _ _ _ _ V)
              (avails_shape _ _ _ _ _ _ _ _ V) Hb Ht) as [a ->].
  simpl. f_equal; ring.
Qed.

Lemma squared_mask_is_mask (gt pred confidences avails : Tensor)
    (B M T C b m : nat) :
  valid_inputs gt pred confidences avails B M T C ->
  (b < B)%nat -> (m < M)%nat ->
  (forall t, (t < T)%nat ->
     item avails [b; t] = Fin 0 \/ item avails [b; t] = Fin 1) ->
  squared_mask_error gt pred avails T C b m = masked_sq_error gt pred avails T C b m.
Proof.
  intros V Hb Hm Hav. unfold squared_mask_error, masked_sq_error.
  apply range_sum_ext; intros t Ht.
  apply range_sum_ext; intros c Hc.
  destruct (finite_at3 gt B T C b t c (gt_finite _ _ _ _ _ _ _ _ V)
              (gt_shape _ _ _ _ _ _ _ _ V) Hb Ht Hc) as [g ->].
  destruct (finite_at4 pred B M T C b m t c (pred_finite _ _ _ _ _ _ _ _ V)
              (pred_shape _ _ _ _ _ _ _ _ V) Hb Hm Ht Hc) as [p ->].
  destruct (Hav t Ht) as [-> | ->]; simpl; f_equal; ring.
Qed.



(** ** Selecting and reordering modes *)

Lemma fold_max_is_NInf (l : list scalar) :
  fold_right fmax NInf l = NInf -> forall a, In a l -> a = NInf.
Proof.
  induction l as [|x l IH]; simpl; intros H a Hin; [contradiction|].
  destruct x, (fold_right fmax NInf l); simpl in H; try discriminate.
  destruct Hin as [<- | Hin]; [reflexivity | now apply IH].
Qed.

Lemma map_nth_seq (A : Type) (l : list A) (d : A) :
  map (fun i => nth i l d) (seq 0 (length l)) = l.
Proof.
  induction l as [|a l IH]; simpl; [reflexivity|].
  f_equal. rewrite <- seq_shift, map_map. exact IH.
Qed.

Lemma range_max_select (f : nat -> scalar) (keep : list nat) :
  range_max (length keep) (fun i => f (nth i keep 0%nat)) =
  fold_right fmax NInf (map f keep).
Proof.
  unfold range_max. f_equal.
  rewrite <- (map_map (fun i => nth i keep 0%nat) f). now rewrite map_nth_seq.
Qed.

(** ** The loss in a machine format, entry by entry *)

Section RoundedLoss.
Variable rnd : scalar -> scalar.

Lemma rounded_sum_ext (n : nat) (f g : nat -> scalar) :
  (forall i, (i < n)%nat -> f i = g i) ->
  Rounded.range_sum rnd n f = Rounded.range_sum rnd n g.
Proof.
  intros H. unfold Rounded.range_sum. f_equal. apply map_ext_in.
  intros i Hi. apply in_seq in Hi. apply H. lia.
Qed.

Lemma rounded_raw_mode_error_entries (gt pred avails : Tensor) (B M T C : nat) :
  shape pred = [B; M; T; C] ->
  shape gt = [B; T; C] ->
  shape avails = [B; T] ->
  exists E,
    Rounded.raw_mode_error rnd gt pred avails = Ok E /\
    shape E = [B; M] /\
    forall b m, (b < B)%nat -> (m < M)%nat ->
      item E [b; m] = Rounded.raw_error rnd gt pred avails T C b m.
Proof.
  intros Hp Hg Ha.
  unfold Rounded.raw_mode_error, binop, broadcast_shapes. simpl.
  rewrite Hp, Hg, Ha. bshape.
  eexists. split; [reflexivity|]. split; [reflexivity|].
  intros b m Hb Hm. simpl.
  unfold Rounded.raw_error, Rounded.step_error.
  apply rounded_sum_ext; intros t Ht.
  apply rounded_sum_ext; intros c Hc.
  unfold bcast_index; simpl. in_range.
  reflexivity.
Qed.

Lemma rounded_mean_B1 (x : Tensor) (B : nat) :
  shape x = [B; 1%nat] ->
  Rounded.mean rnd x =
  Rounded.div rnd (Rounded.range_sum rnd B (fun b => item x [b; 0%nat])) (Fin (INR B)).
Proof.
  intros H. unfold Rounded.mean, numel. rewrite H, indices_B1.
  rewrite length_map, length_seq, map_map. reflexivity.
Qed.

Lemma rounded_confidences_close (confidences : Tensor) (B M : nat) :
  shape confidences = [B; M] ->
  Rounded.rows_sum_to_one rnd confidences B M ->
  allclose (Rounded.sum_dim rnd confidences 1 false) (new_ones [B]) = Ok true.
Proof.
  intros Hs Hrows. unfold allclose, broadcast_shapes. simpl.
  rewrite Hs. simpl. rewrite bdim_refl. f_equal.
  apply forallb_forall. intros idx Hin.
  apply indices_1 in Hin as (b & Hb & ->).
  unfold bcast_index; simpl. in_range.
  apply Hrows, Hb.
Qed.

Lemma rounded_reduce_modes_entries (S : Tensor) (B M : nat) :
  shape S = [B; M] -> (0 < M)%nat ->
  (max_value <- max_dim S 1 ;;
   shifted <- binop (Rounded.sub rnd) S max_value ;;
   let exps := tmap (Rounded.exp rnd) shifted in
   let total := Rounded.sum_dim rnd exps (last_dim exps) true in
   error <- binop (Rounded.sub rnd) (tmap fneg (tmap (Rounded.log rnd) total)) max_value ;;
   Ok (Rounded.mean rnd error)) =
  Ok (Rounded.div rnd (Rounded.range_sum rnd B (fun b =>
        let row m := item S [b; m] in
        Rounded.sub rnd
          (fneg (Rounded.log rnd (Rounded.range_sum rnd M (fun m =>
             Rounded.exp rnd (Rounded.sub rnd (row m) (range_max M row))))))
          (range_max M row)))
      (Fin (INR B))).
Proof.
  intros HS HM.
  unfold max_dim. rewrite HS. simpl nth.
  rewrite (proj2 (Nat.eqb_neq M 0)) by lia.
  unfold binop, broadcast_shapes. simpl.
  rewrite HS. bshape.
  f_equal. rewrite (rounded_mean_B1 _ B) by reflexivity. f_equal.
  apply rounded_sum_ext; intros b Hb. simpl.
  unfold bcast_index; simpl. in_range.
  f_equal. f_equal. f_equal.
  apply rounded_sum_ext; intros m Hm. in_range. reflexivity.
Qed.

(** For valid inputs the checks of lines 229-240 pass in every format;
    the loss is then [batch_nll], unless there is no mode to take the
    maximum over. *)
Lemma rounded_batch_loss_valid (gt pred confidences avails : Tensor) (B M T C : nat) :
  Rounded.valid_inputs rnd gt pred confidences avails B M T C ->
  Rounded.pytorch_neg_multi_log_likelihood_batch rnd gt pred confidences avails =
  if (M =? 0)%nat then Raise IndexError
  else Ok (Rounded.batch_nll rnd gt pred confidences avails M T C B).
Proof.
  intros [Hp Hg Hc Ha Hsum Fp Fg Fc Fa].
  unfold Rounded.pytorch_neg_multi_log_likelihood_batch.
  rewrite Hp, Hg, Hc, Ha. simpl length. simpl Nat.eqb.
  rewrite !shape_eqb_refl.
  rewrite (rounded_confidences_close _ B M Hc Hsum).
  rewrite !all_finite_true by assumption.
  destruct (rounded_raw_mode_error_entries gt pred avails B M T C Hp Hg Ha)
    as (E & -> & HE & Hitems).
  cbn [bind assert].
  unfold binop at 1. unfold broadcast_shapes. cbn [tmap shape].
  rewrite Hc, HE. bshape.
  destruct (Nat.eqb_spec M 0) as [->|HM].
  { reflexivity. }
  rewrite (rounded_reduce_modes_entries _ B M) by (reflexivity || lia).
  unfold Rounded.batch_nll, Rounded.sample_nll. f_equal. f_equal.
  apply rounded_sum_ext; intros b Hb. cbn [item].
  assert (Hrow : forall m, (m < M)%nat ->
            Rounded.sub rnd (Rounded.log rnd (item confidences (bcast_index [B; M] [b; m])))
                 (Rounded.mul rnd (Fin (1 / 2)) (item E (bcast_index [B; M] [b; m]))) =
            Rounded.log_score rnd gt pred confidences avails T C b m).
  { intros m Hm. unfold bcast_index; simpl. in_range.
    rewrite Hitems by assumption. reflexivity. }
  rewrite (range_max_ext M _ (Rounded.log_score rnd gt pred confidences avails T C b))
    by exact Hrow.
  f_equal. f_equal. f_equal.
  apply rounded_sum_ext; intros m Hm. now rewrite Hrow.
Qed.

Lemma rounded_batch_loss_entries (gt pred confidences avails : Tensor) (B M T C : nat) :
  Rounded.valid_inputs rnd gt pred confidences avails B M T C -> (0 < M)%nat ->
  Rounded.pytorch_neg_multi_log_likelihood_batch rnd gt pred confidences avails =
  Ok (Rounded.batch_nll rnd gt pred confidences avails M T C B).
Proof.
  intros Hv HM. rewrite (rounded_batch_loss_valid _ _ _ _ B M T C Hv).
  now rewrite (proj2 (Nat.eqb_neq M 0)) by lia.
Qed.
End RoundedLoss.

(** The last term of a sum is added last. *)
Lemma sum_list_snoc (rnd : scalar -> scalar) (l : list scalar) (a : scalar) :
  Rounded.sum_list rnd (l ++ [a]) = Rounded.add rnd (Rounded.sum_list rnd l) a.
Proof. unfold Rounded.sum_list. now rewrite fold_left_app. Qed.

Lemma sum_list_map_snoc {A : Type} (rnd : scalar -> scalar) (f : A -> scalar)
    (l : list A) (a : A) :
  Rounded.sum_list rnd (map f (l ++ [a])) =
  Rounded.add rnd (Rounded.sum_list rnd (map f l)) (f a).
Proof. rewrite map_app. apply sum_list_snoc. Qed.

(** Without rounding the values are those of the exact embedding. *)
Lemma unrounded_sum (l : list scalar) :
  Rounded.sum_list (fun a => a) l = fold_right fadd (Fin 0) l.
Proof.
  unfold Rounded.sum_list, Rounded.add.
  apply (fold_symmetric fadd).
  - intros x y z. apply fadd_assoc.
  - intros y. apply fadd_comm.
Qed.

Lemma unrounded_batch_nll (gt pred confidences avails : Tensor) (M T C B : nat) :
  Rounded.batch_nll (fun a => a) gt pred confidences avails M T C B =
  batch_nll gt pred confidences avails M T C B.
Proof.
  assert (Hsum : forall n f, Rounded.range_sum (fun a => a) n f = range_sum n f)
    by (intros; apply unrounded_sum).
  assert (Hscore : forall b m,
            Rounded.log_score (fun a => a) gt pred confidences avails T C b m =
            log_score gt pred confidences avails T C b m).
  { intros b m. unfold Rounded.log_score, log_score, Rounded.raw_error, raw_error.
    unfold Rounded.sub, Rounded.log, Rounded.mul. do 2 f_equal.
    rewrite Hsum. apply range_sum_ext; intros t _.
    unfold Rounded.step_error, step_error. rewrite Hsum. reflexivity. }
  unfold Rounded.batch_nll, batch_nll, Rounded.div. f_equal.
  rewrite Hsum. apply range_sum_ext; intros b _.
  unfold Rounded.sample_nll, sample_nll. cbv zeta.
  rewrite (range_max_ext M _ (log_score gt pred confidences avails T C b))
    by (intros; apply Hscore).
  unfold Rounded.sub, Rounded.log, Rounded.exp. do 3 f_equal.
  rewrite Hsum. apply range_sum_ext; intros m _. now rewrite Hscore.
Qed.

Lemma unrounded_valid (gt pred confidences avails : Tensor) (B M T C : nat) :
  Rounded.valid_inputs (fun a => a) gt pred confidences avails B M T C <->
  valid_inputs gt pred confidences avails B M T C.
Proof.
  split; intros [Hp Hg Hc Ha Hsum Fp Fg Fc Fa]; split; try assumption;
    intros b Hb; specialize (Hsum b Hb);
    unfold Rounded.range_sum in *; rewrite unrounded_sum in *; exact Hsum.
Qed.

(** On valid inputs the two embeddings agree when nothing is rounded. *)
Lemma unrounded_batch (gt pred confidences avails : Tensor) (B M T C : nat) :
  valid_inputs gt pred confidences avails B M T C ->
  Rounded.pytorch_neg_multi_log_likelihood_batch (fun a => a)
    gt pred confidences avails =
  pytorch_neg_multi_log_likelihood_batch gt pred confidences avails.
Proof.
  intros V.
  rewrite (batch_loss_valid _ _ _ _ B M T C V).
  rewrite (rounded_batch_loss_valid _ _ _ _ _ B M T C
             (proj2 (unrounded_valid _ _ _ _ B M T C) V)).
  destruct (M =? 0)%nat; [reflexivity|].
  f_equal. apply unrounded_batch_nll.
Qed.
(** ** The decoder *)

Import LyftMultiModel.

Lemma exp_sum_positive (n : nat) (f : nat -> scalar) :
  (forall j, (j < n)%nat -> exists r, f j = Fin r) ->
  exists S, range_sum n (fun k => fexp (f k)) = Fin S /\
            0 <= S /\ ((0 < n)%nat -> 0 < S).
Proof.
  intros H. induction n as [|n IH].
  - exists 0. split; [reflexivity|]. split; [lra | lia].
  - destruct IH as (S & HS & Hge & _); [auto|].
    destruct (H n) as [r Hr]; [lia|].
    rewrite range_sum_S, HS, Hr. simpl.
    pose proof (exp_pos r).
    exists (S + exp r). split; [reflexivity|]. split; [lra | intros _; lra].
Qed.

Lemma range_sum_div (n : nat) (h : nat -> scalar) (S : R) :
  0 < S ->
  (forall j, (j < n)%nat -> exists r, h j = Fin r) ->
  range_sum n (fun j => fdiv (h j) (Fin S)) = fdiv (range_sum n h) (Fin S).
Proof.
  intros HS H. induction n as [|n IH].
  - unfold range_sum. simpl. rewrite Rltb_true by assumption. f_equal; field; lra.
  - rewrite !range_sum_S, IH by auto.
    destruct (range_sum_finite n h) as [s ->]; [auto|].
    destruct (H n) as [x ->]; [lia|].
    simpl. rewrite Rltb_true by assumption. simpl. f_equal; field; lra.
Qed.

(** Exponentials of finite numbers divided by their sum form a
    categorical distribution. *)
Lemma normalised_exp_row (n : nat) (f : nat -> scalar) :
  (0 < n)%nat ->
  (forall j, (j < n)%nat -> exists r, f j = Fin r) ->
  let total := range_sum n (fun k => fexp (f k)) in
  (forall j, (j < n)%nat -> exists r, fdiv (fexp (f j)) total = Fin r /\ 0 <= r) /\
  range_sum n (fun j => fdiv (fexp (f j)) total) = Fin 1.
Proof.
  intros Hn H total.
  destruct (exp_sum_positive n f H) as (S & HS & _ & Hpos).
  specialize (Hpos Hn). unfold total. rewrite HS. split.
  - intros j Hj. destruct (H j Hj) as [r ->]. simpl.
    rewrite Rltb_true by assumption.
    exists (exp r / S). split; [reflexivity|].
    pose proof (exp_pos r). apply Rlt_le, Rdiv_lt_0_compat; assumption.
  - rewrite (range_sum_div n (fun j => fexp (f j)) S Hpos).
    + rewrite HS. simpl. rewrite Rltb_true by assumption. f_equal; field; lra.
    + intros j Hj. destruct (H j Hj) as [r ->]. simpl. eauto.
Qed.

Lemma range_max_finite (n : nat) (f : nat -> scalar) :
  (0 < n)%nat ->
  (forall j, (j < n)%nat -> exists r, f j = Fin r) ->
  exists mx, range_max n f = Fin mx.
Proof.
  intros Hn H. unfold range_max.
  assert (Hs : forall j, In j (seq 0 n) -> exists r, f j = Fin r).
  { intros j Hj. apply in_seq in Hj. apply H. lia. }
  assert (Hne : seq 0 n <> []) by (destruct n; [lia | discriminate]).
  clear H Hn. induction (seq 0 n) as [|a l IH]; [congruence|].
  simpl. destruct (Hs a) as [r ->]; [simpl; auto|].
  destruct l as [|a' l'].
  - exists r. reflexivity.
  - destruct IH as [mx ->]; [intros; apply Hs; simpl; auto | discriminate|].
    exists (Rmax r mx). reflexivity.
Qed.

(** A row of softmax over finite logits is a categorical distribution. *)
Lemma softmax_row (n : nat) (f : nat -> scalar) :
  (0 < n)%nat ->
  (forall j, (j < n)%nat -> exists r, f j = Fin r) ->
  let max_value := range_max n f in
  let total := range_sum n (fun k => fexp (fsub (f k) max_value)) in
  (forall j, (j < n)%nat ->
     exists r, fdiv (fexp (fsub (f j) max_value)) total = Fin r /\ 0 <= r) /\
  range_sum n (fun j => fdiv (fexp (fsub (f j) max_value)) total) = Fin 1.
Proof.
  intros Hn H. cbv zeta.
  destruct (range_max_finite n f Hn H) as [mx ->].
  apply (normalised_exp_row n (fun j => fsub (f j) (Fin mx)) Hn).
  intros j Hj. destruct (H j Hj) as [r ->]. simpl. eauto.
Qed.

(** *** The layers before the decoding *)

Lemma backbone_forward_ok (bb : ResNet) (x : Tensor) (bs h w : nat) :
  shape x = [bs; conv1_in_channels bb; h; w] ->
  accepts bb x = true ->
  backbone_forward bb x = Ok (mkTensor [bs; num_features bb] (features bb x)).
Proof.
  intros H Ha. unfold backbone_forward. rewrite H.
  now rewrite Nat.eqb_refl, Ha.
Qed.

Lemma backbone_forward_refused (bb : ResNet) (x : Tensor) (bs h w : nat) :
  shape x = [bs; conv1_in_channels bb; h; w] ->
  accepts bb x = false ->
  backbone_forward bb x = Raise RuntimeError.
Proof.
  intros H Ha. unfold backbone_forward. rewrite H.
  now rewrite Nat.eqb_refl, Ha.
Qed.

Lemma backbone_forward_inv (bb : ResNet) (x y : Tensor) :
  backbone_forward bb x = Ok y ->
  exists bs h w,
    shape x = [bs; conv1_in_channels bb; h; w] /\
    shape y = [bs; num_features bb].
Proof.
  unfold backbone_forward.
  destruct (shape x) as [|bs [|ch [|h [|w [|? ?]]]]]; try discriminate.
  destruct (Nat.eqb_spec ch (conv1_in_channels bb)) as [-> |]; [|discriminate].
  destruct (accepts bb x); [|discriminate].
  intros [= <-]. exists bs, h, w. split; reflexivity.
Qed.

Lemma linear_forward_shape (l : Linear) (x : Tensor) (bs : nat) :
  shape x = [bs; in_features l] ->
  exists y, linear_forward l x = Ok y /\ shape y = [bs; out_features l].
Proof.
  intros H. unfold linear_forward. rewrite H, Nat.eqb_refl.
  eexists. split; reflexivity.
Qed.

Lemma linear_forward_mismatch (l : Linear) (x : Tensor) (bs n : nat) :
  shape x = [bs; n] -> n <> in_features l ->
  linear_forward l x = Raise RuntimeError.
Proof.
  intros H Hn. unfold linear_forward. rewrite H.
  now rewrite (proj2 (Nat.eqb_neq n (in_features l))).
Qed.

Lemma linear_forward_inv (l : Linear) (x y : Tensor) :
  linear_forward l x = Ok y ->
  exists bs,
    shape x = [bs; in_features l] /\
    shape y = [bs; out_features l] /\
    forall b j,
      item y [b; j] =
      Binary32.add
        (Binary32.range_sum (in_features l)
           (fun i => Binary32.mul (item x [b; i]) (weight l j i)))
        (bias l j).
Proof.
  unfold linear_forward.
  destruct (shape x) as [|bs [|n [|? ?]]]; try discriminate.
  destruct (Nat.eqb_spec n (in_features l)) as [-> |]; [|discriminate].
  intros [= <-]. exists bs. repeat split.
Qed.

(** The output of the last layer has one row per raster. *)
Lemma last_layer_shape (model : Model) (x logits : Tensor) (B ch h w : nat) :
  shape x = [B; ch; h; w] ->
  last_layer_output model x = Ok logits ->
  shape logits = [B; out_features (logit model)].
Proof.
  intros Hx. unfold last_layer_output.
  destruct (backbone_forward (backbone model) x) as [x0|e] eqn:E0;
    cbn [bind]; [|discriminate].
  destruct (linear_forward (head model) x0) as [x1|e] eqn:E1;
    cbn [bind]; [|discriminate].
  intros E2.
  apply backbone_forward_inv in E0 as (bs & h' & w' & Hx' & S0).
  apply linear_forward_inv in E1 as (bs1 & S0' & S1 & _).
  apply linear_forward_inv in E2 as (bs2 & S1' & S2 & _).
  rewrite Hx in Hx'. injection Hx' as -> _ _ _.
  rewrite S0 in S0'. injection S0' as -> _.
  rewrite S1 in S1'. injection S1' as -> _.
  exact S2.
Qed.

Lemma forward_from_logits (model : Model) (x logits : Tensor) :
  last_layer_output model x = Ok logits ->
  forward model x = decode model logits.
Proof.
  unfold last_layer_output, forward. intros H.
  destruct (backbone_forward (backbone model) x) as [x0|e];
    cbn [bind] in *; [|discriminate].
  destruct (linear_forward (head model) x0) as [x1|e];
    cbn [bind] in *; [|discriminate].
  now rewrite H.
Qed.

(** What the constructor sets. *)
Lemma init_fields (theta : Parameters) (c : model_params) (M : nat) (model : Model) :
  __init__ theta c M = Ok model ->
  exists width,
    resnet_width (model_architecture c) = Some width /\
    backbone model =
      {| conv1_in_channels := 3 + (history_num_frames c + 1) * 2;
         num_features := width;
         accepts := backbone_accepts theta;
         features := backbone_features theta |} /\
    head model =
      {| in_features := backbone_out_features (model_architecture c);
         out_features := 4096;
         weight := head_weight theta;
         bias := head_bias theta |} /\
    logit model =
      {| in_features := 4096;
         out_features := 2 * future_num_frames c * M + M;
         weight := logit_weight theta;
         bias := logit_bias theta |} /\
    future_len model = future_num_frames c /\
    num_preds model = (2 * future_num_frames c * M)%nat /\
    num_modes model = M.
Proof.
  unfold __init__, eval_architecture.
  destruct (resnet_width (model_architecture c)) as [width|]; [|discriminate].
  cbn [bind]. intros [= <-]. exists width. repeat split.
Qed.

(** The head is sized for the right width on three of the four
    architecture names. *)
Lemma backbone_out_features_supported (name : string) (width : nat) :
  resnet_width name = Some width ->
  name <> "resnet101"%string ->
  backbone_out_features name = width.
Proof.
  unfold resnet_width, backbone_out_features.
  destruct (String.eqb_spec name "resnet18") as [-> | _];
    [intros E _; now injection E|].
  destruct (String.eqb_spec name "resnet34") as [-> | _];
    [intros E _; now injection E|].
  destruct (String.eqb_spec name "resnet50") as [-> | _];
    [intros E _; now injection E|].
  destruct (String.eqb_spec name "resnet101") as [-> | _];
    [intros _ N; now contradiction N | discriminate].
Qed.

(** On those names the layers before the decoding run through on every
    batch of rasters that the convolutional layers accept. *)
Lemma last_layer_supported (theta : Parameters) (c : model_params)
    (x : Tensor) (M B h w : nat) (model : Model) :
  __init__ theta c M = Ok model ->
  model_architecture c <> "resnet101"%string ->
  shape x = [B; 3 + (history_num_frames c + 1) * 2; h; w]%nat ->
  backbone_accepts theta x = true ->
  exists logits, last_layer_output model x = Ok logits.
Proof.
  intros Hinit Hname Hx Hacc.
  destruct (init_fields theta c M model Hinit)
    as (width & Hw & Hbb & Hhead & Hlogit & _).
  assert (Hx' : shape x = [B; conv1_in_channels (backbone model); h; w])
    by (rewrite Hbb; exact Hx).
  assert (Hacc' : accepts (backbone model) x = true)
    by (rewrite Hbb; exact Hacc).
  unfold last_layer_output.
  rewrite (backbone_forward_ok (backbone model) x B h w Hx' Hacc'). cbn [bind].
  set (embedding := mkTensor [B; num_features (backbone model)]
                             (features (backbone model) x)).
  assert (He : shape embedding = [B; in_features (head model)]).
  { unfold embedding. cbn [shape]. rewrite Hbb, Hhead. cbn.
    now rewrite (backbone_out_features_supported _ width Hw Hname). }
  destruct (linear_forward_shape (head model) embedding B He)
    as (hidden & Eh & Sh).
  assert (Sh' : shape hidden = [B; in_features (logit model)])
    by (rewrite Sh, Hhead, Hlogit; reflexivity).
  destruct (linear_forward_shape (logit model) hidden B Sh')
    as (logits & El & Sl).
  exists logits. rewrite Eh. cbn [bind]. exact El.
Qed.

(** *** The decoding *)

Lemma two_chunks (k m : nat) :
  (0 < m)%nat -> (m <= k)%nat -> ((k + m + k - 1) / k = 2)%nat.
Proof.
  intros Hm Hk. symmetry.
  apply (Nat.div_unique _ k 2 (m - 1)); lia.
Qed.

Lemma unravel_ravel_row (B K b r : nat) :
  (r < K)%nat -> unravel [B; K] (b * K + r) = [b; r].
Proof.
  intros Hr. cbn [unravel]. unfold prod. cbn [fold_right].
  rewrite !Nat.mul_1_r, Nat.div_1_r.
  f_equal; [|f_equal].
  - symmetry. apply (Nat.div_unique _ K b r); lia.
  - symmetry. apply (Nat.mod_unique _ K b r); lia.
Qed.

Lemma trajectory_offset (M f m t c : nat) :
  (m < M)%nat -> (t < f)%nat -> (c < 2)%nat ->
  ((m * f + t) * 2 + c < 2 * f * M)%nat.
Proof. intros Hm Ht Hc. nia. Qed.

(** Lines 217-222 when the last layer has [num_preds + num_modes]
    outputs with [num_preds = 2 * future_len * num_modes]. *)
Lemma decode_general (self : Model) (logits : Tensor) (B : nat) :
  shape logits = [B; num_preds self + num_modes self]%nat ->
  num_preds self = (2 * future_len self * num_modes self)%nat ->
  (0 < num_modes self)%nat -> (0 < future_len self)%nat ->
  decode self logits =
  Ok (mkTensor [B; num_modes self; future_len self; 2%nat]
        (fun idx =>
           let at_ := unravel [B; num_preds self]
                        (ravel [B; num_modes self; future_len self; 2%nat] idx) in
           item logits [nth 0 at_ 0; 0 * num_preds self + nth 1 at_ 0])%nat,
      softmax1 (mkTensor [B; num_modes self]
        (fun idx => item logits [nth 0 idx 0; 1 * num_preds self + nth 1 idx 0])%nat)).
Proof.
  intros Hs Hk HM Hf.
  assert (Hle : (num_modes self <= num_preds self)%nat) by nia.
  assert (Hpos : (0 < num_preds self)%nat) by nia.
  unfold decode, split1. rewrite Hs.
  rewrite (proj2 (Nat.eqb_neq (num_preds self) 0)) by lia.
  rewrite (two_chunks (num_preds self) (num_modes self) HM Hle).
  change (Nat.max 1 2) with 2%nat. cbn [seq map bind].
  replace (Nat.min (num_preds self)
             (num_preds self + num_modes self - 0 * num_preds self))
    with (num_preds self) by lia.
  replace (Nat.min (num_preds self)
             (num_preds self + num_modes self - 1 * num_preds self))
    with (num_modes self) by lia.
  unfold view. cbn [shape].
  replace (prod [B; num_preds self]
           =? prod [B; num_modes self; future_len self; 2])%nat with true.
  2:{ symmetry. apply Nat.eqb_eq. unfold prod. cbn [fold_right].
      rewrite Hk. ring. }
  cbn [bind]. rewrite shape_eqb_refl. cbn [assert bind].
  reflexivity.
Qed.

(** [forward] once the last layer has given its output: the decoding
    does not fail, the trajectories are read off the first
    [2 * future_len * M] scalars of each row and the confidences are
    the softmax of the [M] scalars that follow. *)
Lemma forward_decodes (theta : Parameters) (c : model_params)
    (x logits : Tensor) (M B ch h w : nat) (model : Model) :
  __init__ theta c M = Ok model ->
  (0 < M)%nat -> (0 < future_num_frames c)%nat ->
  shape x = [B; ch; h; w] ->
  last_layer_output model x = Ok logits ->
  let f := future_num_frames c in
  exists pred confidences,
    forward model x = Ok (pred, confidences) /\
    shape logits = [B; 2 * f * M + M]%nat /\
    shape pred = [B; M; f; 2%nat] /\
    shape confidences = [B; M] /\
    (forall b m t k, (b < B)%nat -> (m < M)%nat -> (t < f)%nat -> (k < 2)%nat ->
       item pred [b; m; t; k] = item logits [b; (m * f + t) * 2 + k]%nat) /\
    (forall b m, (b < B)%nat -> (m < M)%nat ->
       let row j := item logits [b; 2 * f * M + j]%nat in
       item confidences [b; m] =
       fdiv (fexp (fsub (row m) (range_max M row)))
            (range_sum M (fun j => fexp (fsub (row j) (range_max M row))))).
Proof.
  intros Hinit HM Hf Hx Hlast f.
  destruct (init_fields theta c M model Hinit)
    as (width & _ & _ & _ & Hlogit & Hfl & Hk & Hm).
  pose proof (last_layer_shape model x logits B ch h w Hx Hlast) as Sl.
  rewrite Hlogit in Sl. cbn [out_features] in Sl. fold f in Sl.
  assert (Sl' : shape logits = [B; num_preds model + num_modes model]%nat)
    by (rewrite Hk, Hm; exact Sl).
  assert (Hk' : num_preds model = (2 * future_len model * num_modes model)%nat)
    by (rewrite Hk, Hfl, Hm; reflexivity).
  assert (HM' : (0 < num_modes model)%nat) by (rewrite Hm; exact HM).
  assert (Hf' : (0 < future_len model)%nat) by (rewrite Hfl; exact Hf).
  pose proof (decode_general model logits B Sl' Hk' HM' Hf') as Hd.
  rewrite <- (forward_from_logits model x logits Hlast) in Hd.
  eexists. eexists.
  split; [exact Hd|]. split; [exact Sl|].
  split; [cbn [shape]; now rewrite Hm, Hfl|].
  split; [cbn [shape softmax1]; now rewrite Hm|]. split.
  - intros b m t k Hb Hmm Ht Hkk. cbn [item]. cbv zeta.
    rewrite Hm, Hfl, Hk. fold f.
    replace (ravel [B; M; f; 2%nat] [b; m; t; k])
      with (b * (2 * f * M) + ((m * f + t) * 2 + k))%nat
      by (cbn [ravel]; unfold prod; cbn [fold_right]; ring).
    rewrite unravel_ravel_row by (now apply trajectory_offset).
    cbn [nth]. reflexivity.
  - intros b m Hb Hmm. cbn [item softmax1 shape nth]. cbv zeta.
    rewrite Hm, Hk. fold f. unfold replace_at. cbn [firstn skipn app nth].
    rewrite Nat.mul_1_l. reflexivity.
Qed.

(** With finite logits the confidences of a sample are non-negative
    and sum to 1. *)
Lemma confidences_of_finite_logits (logits confidences : Tensor) (M K b : nat) :
  (0 < M)%nat ->
  (forall m, (m < M)%nat -> isfinite (item logits [b; K + m]%nat) = true) ->
  (forall m, (m < M)%nat ->
     let row j := item logits [b; K + j]%nat in
     item confidences [b; m] =
     fdiv (fexp (fsub (row m) (range_max M row)))
          (range_sum M (fun j => fexp (fsub (row j) (range_max M row))))) ->
  (forall m, (m < M)%nat -> exists r, item confidences [b; m] = Fin r /\ 0 <= r) /\
  range_sum M (fun m => item confidences [b; m]) = Fin 1.
Proof.
  intros HM Hfin Hconf.
  set (row := fun j => item logits [b; (K + j)%nat]) in *.
  assert (Hrow : forall j, (j < M)%nat -> exists r, row j = Fin r)
    by (intros j Hj; apply isfinite_Fin, Hfin, Hj).
  destruct (softmax_row M row HM Hrow) as [Hnn Hsum].
  split.
  - intros m Hm. rewrite (Hconf m Hm). now apply Hnn.
  - rewrite <- Hsum. apply range_sum_ext; intros m Hm. now apply Hconf.
Qed.

(** C5, as amended.  With the configured [num_modes = 3] and
    [future_len = 50], whenever the layers of [LyftMultiModel.forward]
    run through on a batch of [B] rasters, [forward] returns [pred] of
    shape [(B, 3, 50, 2)] and [confidences] of shape [(B, 3)]; and
    whenever the three confidence logits that the last layer gives for
    each sample are finite, the entries of [confidences] are
    non-negative and its rows sum to 1. *)
Theorem forward_output_contract_for_finite_logits
    (theta : Parameters) (x : Tensor) (B h w : nat) :
  shape x = [B; 25; h; w]%nat ->
  exists model,
    __init__ theta cfg 3 = Ok model /\
    num_modes model = 3%nat /\ future_len model = 50%nat /\
    forall logits,
      last_layer_output model x = Ok logits ->
      exists pred confidences,
        forward model x = Ok (pred, confidences) /\
        shape pred = [B; 3; 50; 2]%nat /\
        shape confidences = [B; 3%nat] /\
        ((forall b m, (b < B)%nat -> (m < 3)%nat ->
            isfinite (item logits [b; 300 + m]%nat) = true) ->
         forall b, (b < B)%nat ->
           (forall m, (m < 3)%nat ->
              exists r, item confidences [b; m] = Fin r /\ 0 <= r) /\
           range_sum 3 (fun m => item confidences [b; m]) = Fin 1).
Proof.
  intros Hx. eexists.
  match goal with
  | |- _ = Ok ?m /\ _ =>
      assert (Einit : __init__ theta cfg 3 = Ok m) by reflexivity
  end.
  match type of Einit with _ = Ok ?m => set (model := m) in * end.
  split; [exact Einit|]. split; [reflexivity|]. split; [reflexivity|].
  intros logits Hlast.
  destruct (forward_decodes theta cfg x logits 3 B 25 h w model Einit)
    as (pred & confidences & Hfwd & _ & Sp & Sc & _ & Hconf);
    try assumption; try (cbn; lia).
  exists pred, confidences.
  split; [exact Hfwd|]. split; [exact Sp|]. split; [exact Sc|].
  intros Hfin b Hb.
  apply (confidences_of_finite_logits logits confidences 3 300 b); [lia | |].
  - intros m Hm. now apply Hfin.
  - intros m Hm. now apply Hconf.
Qed.

(** C8, at the failing input.  For the architecture name "resnet101"
    the constructor succeeds and sizes the head for 512 features, the
    width of that backbone is 2048, and the mismatch surfaces in
    [forward] as a runtime error. *)
Theorem resnet101_head_width_mismatch
    (theta : Parameters) (x : Tensor) (B h w : nat) :
  shape x = [B; 25; h; w]%nat ->
  exists model,
    __init__ theta cfg_resnet101 3 = Ok model /\
    in_features (head model) = 512%nat /\
    num_features (backbone model) = 2048%nat /\
    forward model x = Raise RuntimeError.
Proof.
  intros Hx. eexists. split; [reflexivity|].
  split; [reflexivity|]. split; [reflexivity|].
  match goal with |- forward ?m _ = _ => set (model := m) end.
  unfold forward.
  destruct (accepts (backbone model) x) eqn:Hacc.
  - rewrite (backbone_forward_ok (backbone model) x B h w Hx Hacc). cbn [bind].
    rewrite (linear_forward_mismatch (head model) _ B 2048); try reflexivity.
    simpl. discriminate.
  - now rewrite (backbone_forward_refused (backbone model) x B h w Hx Hacc).
Qed.

(** X11.  The output contract of [forward] holds for every number of
    modes and every horizon, not only for 3 and 50: for [M >= 1] modes
    and a horizon of at least one frame, whenever the layers run
    through on a batch of [B] rasters the decoding does not fail,
    [pred] has shape [(B, M, future_len, 2)] and [confidences] has
    shape [(B, M)]; and when the output of the last layer is finite,
    every prediction is finite, every confidence is non-negative and
    every row of confidences sums to 1. *)
Theorem forward_contract_for_all_sizes
    (theta : Parameters) (c : model_params) (x logits : Tensor)
    (M B ch h w : nat) (model : Model) :
  __init__ theta c M = Ok model ->
  (0 < M)%nat -> (0 < future_num_frames c)%nat ->
  shape x = [B; ch; h; w] ->
  last_layer_output model x = Ok logits ->
  let f := future_num_frames c in
  exists pred confidences,
    forward model x = Ok (pred, confidences) /\
    shape pred = [B; M; f; 2%nat] /\
    shape confidences = [B; M] /\
    ((forall b j, (b < B)%nat -> (j < 2 * f * M + M)%nat ->
        isfinite (item logits [b; j]) = true) ->
     (forall b m t k, (b < B)%nat -> (m < M)%nat -> (t < f)%nat -> (k < 2)%nat ->
        isfinite (item pred [b; m; t; k]) = true) /\
     forall b, (b < B)%nat ->
       (forall m, (m < M)%nat ->
          exists r, item confidences [b; m] = Fin r /\ 0 <= r) /\
       range_sum M (fun m => item confidences [b; m]) = Fin 1).
Proof.
  intros Hinit HM Hf Hx Hlast f.
  destruct (forward_decodes theta c x logits M B ch h w model Hinit HM Hf Hx Hlast)
    as (pred & confidences & Hfwd & _ & Sp & Sc & Hpred & Hconf).
  fold f in Sp, Hpred, Hconf.
  exists pred, confidences.
  split; [exact Hfwd|]. split; [exact Sp|]. split; [exact Sc|].
  intros Hfin. split.
  - intros b m t k Hb Hm Ht Hk. rewrite Hpred by assumption.
    apply Hfin; [assumption|].
    pose proof (trajectory_offset M f m t k Hm Ht Hk). lia.
  - intros b Hb.
    apply (confidences_of_finite_logits logits confidences M (2 * f * M) b HM).
    + intros m Hm. apply Hfin; [assumption | lia].
    + intros m Hm. now apply Hconf.
Qed.

(** X12.  How the last layer's output is laid out.  Scalar
    [(m * future_len + t) * 2 + k] of sample [b] is coordinate [k] of
    timestep [t] of mode [m], and the [M] scalars after the
    [2 * future_len * M] trajectory scalars are the logits of the
    confidences: [confidences[b][m]] is the softmax of these [M]
    scalars at [m]. *)
Theorem forward_output_layout
    (theta : Parameters) (c : model_params) (x logits : Tensor)
    (M B ch h w : nat) (model : Model) :
  __init__ theta c M = Ok model ->
  (0 < M)%nat -> (0 < future_num_frames c)%nat ->
  shape x = [B; ch; h; w] ->
  last_layer_output model x = Ok logits ->
  let f := future_num_frames c in
  exists pred confidences,
    forward model x = Ok (pred, confidences) /\
    shape logits = [B; 2 * f * M + M]%nat /\
    (forall b m t k, (b < B)%nat -> (m < M)%nat -> (t < f)%nat -> (k < 2)%nat ->
       item pred [b; m; t; k] = item logits [b; (m * f + t) * 2 + k]%nat) /\
    (forall b m, (b < B)%nat -> (m < M)%nat ->
       item confidences [b; m] =
       item (softmax1 (mkTensor [B; M]
               (fun idx => item logits [nth 0 idx 0; 2 * f * M + nth 1 idx 0]%nat)))
            [b; m]).
Proof.
  intros Hinit HM Hf Hx Hlast f.
  destruct (forward_decodes theta c x logits M B ch h w model Hinit HM Hf Hx Hlast)
    as (pred & confidences & Hfwd & Sl & _ & _ & Hpred & Hconf).
  exists pred, confidences.
  split; [exact Hfwd|]. split; [exact Sl|]. split; [exact Hpred|].
  intros b m Hb Hm. rewrite (Hconf b m Hb Hm). reflexivity.
Qed.

(** ** The loss and the model at sample inputs *)

Lemma one_mode_valid :
  valid_inputs gt_ones one_mode_zeros one_mode_confidence avails_ones 1 1 1 2.
Proof.
  apply (full_valid _ _ _ _ 1 1 1 2 1 0 1 1); try reflexivity.
  simpl. lra.
Qed.

Lemma half_available_valid :
  valid_inputs gt_ones one_mode_zeros one_mode_confidence avails_half 1 1 1 2.
Proof.
  apply (full_valid _ _ _ _ 1 1 1 2 1 0 1 (1 / 2)); try reflexivity.
  simpl. lra.
Qed.

Lemma one_mode_row (confidences : Tensor) :
  (forall b, item confidences [b; 0%nat] = Fin 1) ->
  rows_sum_to_one confidences 1 1.
Proof.
  intros H b _. unfold range_sum. simpl. rewrite H. simpl.
  apply isclose_Fin_eq. lra.
Qed.

(** A NaN in the predictions is reported by the check of line 237. *)
Example nan_prediction_rejected :
  pytorch_neg_multi_log_likelihood_batch
    gt_ones pred_nan one_mode_confidence avails_ones =
  Raise (AssertionError "invalid value found in pred").
Proof.
  unfold pytorch_neg_multi_log_likelihood_batch. cbn -[allclose].
  match goal with
  | |- context [allclose ?a ?b] =>
      change (allclose a b)
        with (allclose (sum_dim one_mode_confidence 1 false) (new_ones [1%nat]))
  end.
  rewrite (confidences_close one_mode_confidence 1 1 eq_refl)
    by (apply one_mode_row; reflexivity).
  reflexivity.
Qed.

(** A ground truth without the time axis is reported by the check of
    line 232. *)
Example gt_shape_rejected :
  pytorch_neg_multi_log_likelihood_batch
    (full [1; 2]%nat 1) one_mode_zeros one_mode_confidence avails_ones =
  Raise (AssertionError "expected 2D (Time x Coords) array for gt").
Proof. reflexivity. Qed.


Lemma uniform_identical_modes_witness :
  exists loss,
    pytorch_neg_multi_log_likelihood_single gt_ones traj_zeros avails_ones = Ok loss /\
    pytorch_neg_multi_log_likelihood_batch
      gt_ones two_modes_zeros two_modes_uniform avails_ones = Ok loss.
Proof.
  apply (uniform_identical_modes_give_single_loss gt_ones two_modes_zeros
           two_modes_uniform avails_ones traj_zeros 1 2 1 2).
  - exact two_modes_valid.
  - lia.
  - reflexivity.
  - reflexivity.
  - intros b m _ _. simpl. f_equal; lra.
Defined.



Lemma single_is_batch_witness :
  pytorch_neg_multi_log_likelihood_single gt_ones traj_zeros avails_ones =
  pytorch_neg_multi_log_likelihood_batch gt_ones (unsqueeze traj_zeros 1)
    (new_ones [1; 1]%nat) avails_ones.
Proof.
  apply (single_is_batch_with_one_mode gt_ones traj_zeros avails_ones 1 1 2);
    reflexivity.
Defined.

Lemma resnet101_mismatch_witness :
  exists model,
    LyftMultiModel.__init__ LyftMultiModel.zero_parameters
      LyftMultiModel.cfg_resnet101 3 = Ok model /\
    LyftMultiModel.in_features (LyftMultiModel.head model) = 512%nat /\
    LyftMultiModel.num_features (LyftMultiModel.backbone model) = 2048%nat /\
    LyftMultiModel.forward model LyftMultiModel.two_rasters = Raise RuntimeError.
Proof.
  apply (resnet101_head_width_mismatch LyftMultiModel.zero_parameters
           LyftMultiModel.two_rasters 2 224 224).
  reflexivity.
Defined.

(** ** Sums of real numbers *)

Lemma Rsum_S (n : nat) (f : nat -> R) : Rsum (S n) f = Rsum n f + f n.
Proof.
  unfold Rsum. rewrite seq_S, map_app, fold_right_app. simpl.
  generalize (map f (seq 0 n)). intros l.
  induction l as [|a l IH]; simpl; [lra | rewrite IH; lra].
Qed.

Lemma Rsum_nonneg (n : nat) (f : nat -> R) :
  (forall i, (i < n)%nat -> 0 <= f i) -> 0 <= Rsum n f.
Proof.
  intros H. induction n as [|n IH]; [unfold Rsum; simpl; lra|].
  rewrite Rsum_S. pose proof (H n (Nat.lt_succ_diag_r n)).
  assert (0 <= Rsum n f) by auto. lra.
Qed.

Lemma Rsum_ge_term (n : nat) (f : nat -> R) (i : nat) :
  (forall j, (j < n)%nat -> 0 <= f j) -> (i < n)%nat -> f i <= Rsum n f.
Proof.
  intros H Hi. induction n as [|n IH]; [lia|].
  rewrite Rsum_S.
  destruct (Nat.eq_dec i n) as [-> | Hne].
  - assert (0 <= Rsum n f) by (apply Rsum_nonneg; auto). lra.
  - assert (f i <= Rsum n f) by (apply IH; [auto | lia]).
    pose proof (H n (Nat.lt_succ_diag_r n)). lra.
Qed.

Lemma to_R_Fin (a : scalar) (r : R) : a = Fin r -> a = Fin (to_R a).
Proof. intros ->. reflexivity. Qed.

Lemma confidence_real (gt pred confidences avails : Tensor) (B M T C b m : nat) :
  valid_inputs gt pred confidences avails B M T C ->
  (b < B)%nat -> (m < M)%nat ->
  item confidences [b; m] = Fin (to_R (item confidences [b; m])).
Proof.
  intros V Hb Hm.
  destruct (finite_at2 confidences B M b m (confidences_finite _ _ _ _ _ _ _ _ V)
              (confidences_shape _ _ _ _ _ _ _ _ V) Hb Hm) as [c Hc].
  now apply (to_R_Fin _ c).
Qed.

(** ** Edge cases of the loss *)

Lemma fold_max_NaN (l : list scalar) :
  In NaN l -> fold_right fmax NInf l = NaN.
Proof.
  induction l as [|a l IH]; simpl; [contradiction|].
  intros [-> | Hin]; [reflexivity|].
  rewrite IH by assumption. destruct a; reflexivity.
Qed.

Lemma fold_add_has_NaN (l : list scalar) :
  In NaN l -> fold_right fadd (Fin 0) l = NaN.
Proof.
  induction l as [|a l IH]; simpl; [contradiction|].
  intros [-> | Hin]; [reflexivity|].
  rewrite IH by assumption. destruct a; reflexivity.
Qed.

Lemma range_max_NaN (n i : nat) (f : nat -> scalar) :
  (i < n)%nat -> f i = NaN -> range_max n f = NaN.
Proof.
  intros Hi Hf. apply fold_max_NaN. rewrite <- Hf.
  apply in_map, in_seq. lia.
Qed.

Lemma range_sum_NaN (n i : nat) (f : nat -> scalar) :
  (i < n)%nat -> f i = NaN -> range_sum n f = NaN.
Proof.
  intros Hi Hf. apply fold_add_has_NaN. rewrite <- Hf.
  apply in_map, in_seq. lia.
Qed.


Lemma empty_batch_valid (gt pred confidences avails : Tensor) (M T C : nat) :
  shape pred = [0; M; T; C]%nat -> shape gt = [0; T; C]%nat ->
  shape confidences = [0; M]%nat -> shape avails = [0; T]%nat ->
  valid_inputs gt pred confidences avails 0 M T C.
Proof.
  intros Hp Hg Hc Ha. split; try assumption.
  - intros b Hb. lia.
  - intros idx Hin. rewrite Hp in Hin. destruct Hin.
  - intros idx Hin. rewrite Hg in Hin. destruct Hin.
  - intros idx Hin. rewrite Hc in Hin. destruct Hin.
  - intros idx Hin. rewrite Ha in Hin. destruct Hin.
Qed.

(** X5.  An empty batch is not rejected: with shapes [(0,M,T,C)],
    [(0,T,C)], [(0,M)] and [(0,T)] every check passes, whatever the
    entries; the loss is the mean of no sample, NaN, when there is a
    mode, and the maximum over no mode raises an [IndexError]
    otherwise. *)
Theorem empty_batch_loss
    (gt pred confidences avails : Tensor) (M T C : nat) :
  shape pred = [0; M; T; C]%nat -> shape gt = [0; T; C]%nat ->
  shape confidences = [0; M]%nat -> shape avails = [0; T]%nat ->
  pytorch_neg_multi_log_likelihood_batch gt pred confidences avails =
  if (M =? 0)%nat then Raise IndexError else Ok NaN.
Proof.
  intros Hp Hg Hc Ha.
  rewrite (batch_loss_valid gt pred confidences avails 0 M T C
             (empty_batch_valid gt pred confidences avails M T C Hp Hg Hc Ha)).
  destruct (M =? 0)%nat; [reflexivity|].
  f_equal. unfold batch_nll, range_sum. simpl.
  rewrite !Rltb_false by lra. unfold inf_times.
  now rewrite !Rltb_false by lra.
Qed.

Lemma Rleb_gt (x y : R) : y < x -> Rleb x y = false.
Proof. intros H. unfold Rleb. destruct (Rle_dec x y); [lra | reflexivity]. Qed.

Lemma zero_not_close_to_one : isclose (Fin 0) (Fin 1) = false.
Proof.
  simpl. apply Rleb_gt.
  rewrite Rabs_minus_sym. replace (1 - 0) with 1 by lra.
  rewrite Rabs_R1. unfold atol, rtol. lra.
Qed.

(** X6.  A non-empty batch without modes is rejected by the check of
    the confidence sums (line 234): the sum of an empty row is 0. *)
Theorem no_modes_rejected
    (gt pred confidences avails : Tensor) (B T C : nat) :
  shape pred = [B; 0; T; C]%nat -> shape gt = [B; T; C] ->
  shape confidences = [B; 0]%nat -> (0 < B)%nat ->
  pytorch_neg_multi_log_likelihood_batch gt pred confidences avails =
  Raise (AssertionError "confidences should sum to 1").
Proof.
  intros Hp Hg Hc HB.
  unfold pytorch_neg_multi_log_likelihood_batch.
  rewrite Hp, Hg, Hc. simpl length. simpl Nat.eqb. cbn [assert bind].
  rewrite !shape_eqb_refl. cbn [assert bind].
  unfold allclose, broadcast_shapes. simpl. rewrite Hc. simpl.
  rewrite bdim_refl. cbn [bind].
  destruct B as [|B]; [lia|].
  simpl. unfold range_sum. simpl.
  pose proof zero_not_close_to_one as Hfar. simpl in Hfar. rewrite Hfar.
  reflexivity.
Qed.

Lemma fadd_Fin_inv (a b : scalar) (s : R) :
  fadd a b = Fin s -> (exists x, a = Fin x) /\ (exists y, b = Fin y).
Proof. destruct a, b; simpl; intros H; try discriminate; eauto. Qed.

Lemma range_sum_Fin_inv (n : nat) (f : nat -> scalar) (s : R) :
  range_sum n f = Fin s -> forall i, (i < n)%nat -> exists r, f i = Fin r.
Proof.
  revert s. induction n as [|n IH]; intros s H i Hi; [lia|].
  rewrite range_sum_S in H.
  apply fadd_Fin_inv in H as [[x Hx] [y Hy]].
  destruct (Nat.eq_dec i n) as [-> | Hne]; [eauto|].
  apply (IH x Hx). lia.
Qed.

Lemma isclose_one_Fin (a : scalar) :
  isclose a (Fin 1) = true -> exists s, a = Fin s.
Proof. destruct a; simpl; intros H; try discriminate; eauto. Qed.

(** Confidences whose rows pass the check of line 234 are finite. *)
Lemma close_rows_finite (confidences : Tensor) (B M : nat) :
  shape confidences = [B; M] ->
  rows_sum_to_one confidences B M ->
  finite_on confidences.
Proof.
  intros Hs Hrows idx Hin. rewrite Hs in Hin.
  apply indices_2 in Hin as (b & m & -> & Hb & Hm).
  destruct (isclose_one_Fin _ (Hrows b Hb)) as [s Hsum].
  destruct (range_sum_Fin_inv M _ s Hsum m Hm) as [r ->]. reflexivity.
Qed.

(** X7.  The check of line 239 can never fire: a non-finite
    confidence already fails the check of the row sums at line 234, so
    no input makes the loss raise "invalid value found in
    confidences". *)
Theorem confidences_finiteness_check_never_fires
    (gt pred confidences avails : Tensor) :
  pytorch_neg_multi_log_likelihood_batch gt pred confidences avails <>
  Raise (AssertionError "invalid value found in confidences").
Proof.
  intros H. pose proof H as H0.
  unfold pytorch_neg_multi_log_likelihood_batch in H.
  destruct (shape pred) as [|B [|M [|T [|C [|x r]]]]] eqn:Hp;
    try (simpl in H; discriminate H).
  simpl length in H. simpl Nat.eqb in H. cbn [assert bind] in H.
  destruct (shape_eqb (shape gt) [B; T; C]) eqn:Hg;
    [apply shape_eqb_eq in Hg | simpl in H; discriminate H].
  destruct (shape_eqb (shape confidences) [B; M]) eqn:Hc;
    [apply shape_eqb_eq in Hc | simpl in H; discriminate H].
  cbn [assert bind] in H.
  remember (allclose (sum_dim confidences 1 false) (new_ones [B])) as ac eqn:Hac.
  unfold allclose, broadcast_shapes in Hac. simpl in Hac.
  rewrite Hc in Hac. simpl in Hac. rewrite bdim_refl in Hac.
  rewrite Hac in H. cbn [bind] in H. clear ac Hac.
  match type of H with
  | context [assert ?c _] => destruct c eqn:Hclose
  end; [|simpl in H; discriminate H].
  cbn [assert bind] in H.
  destruct (shape_eqb (shape avails) [B; T]) eqn:Ha;
    [apply shape_eqb_eq in Ha | simpl in H; discriminate H].
  cbn [assert bind] in H.
  destruct (all_finite pred) eqn:Fp; [|simpl in H; discriminate H].
  destruct (all_finite gt) eqn:Fg; [|simpl in H; discriminate H].
  cbn [assert bind] in H.
  assert (Hrows : rows_sum_to_one confidences B M).
  { intros b Hb. rewrite forallb_forall in Hclose.
    specialize (Hclose [b] (in_indices_1 B b Hb)).
    unfold bcast_index in Hclose; simpl in Hclose.
    rewrite (clamp_lt B b Hb) in Hclose. exact Hclose. }
  pose proof (close_rows_finite confidences B M Hc Hrows) as Fc.
  rewrite (all_finite_true confidences Fc) in H. cbn [assert bind] in H.
  destruct (all_finite avails) eqn:Fa; [|simpl in H; discriminate H].
  unfold all_finite in Fp, Fg, Fa. rewrite forallb_forall in Fp, Fg, Fa.
  assert (V : valid_inputs gt pred confidences avails B M T C)
    by (split; assumption).
  rewrite (batch_loss_valid gt pred confidences avails B M T C V) in H0.
  destruct (M =? 0)%nat; discriminate H0.
Qed.

(** ** How the loss depends on its inputs *)

Lemma batch_nll_same_errors
    (gt1 pred1 avails1 gt2 pred2 avails2 confidences : Tensor) (B M T C : nat) :
  (forall b m, (b < B)%nat -> (m < M)%nat ->
     raw_error gt1 pred1 avails1 T C b m = raw_error gt2 pred2 avails2 T C b m) ->
  batch_nll gt1 pred1 confidences avails1 M T C B =
  batch_nll gt2 pred2 confidences avails2 M T C B.
Proof.
  intros H.
  assert (Hscore : forall b m, (b < B)%nat -> (m < M)%nat ->
            log_score gt1 pred1 confidences avails1 T C b m =
            log_score gt2 pred2 confidences avails2 T C b m).
  { intros b m Hb Hm. unfold log_score. now rewrite H. }
  unfold batch_nll. f_equal. apply range_sum_ext; intros b Hb.
  unfold sample_nll. cbv zeta.
  rewrite (range_max_ext M _ (log_score gt2 pred2 confidences avails2 T C b))
    by (intros; now apply Hscore).
  f_equal. do 2 f_equal. apply range_sum_ext; intros m Hm.
  now rewrite Hscore.
Qed.

(** X8.  The loss depends on ground truth and predictions through
    their differences only: moving the ground truth and every mode's
    prediction of a coordinate by the same offset leaves the result
    unchanged. *)
Theorem loss_invariant_under_common_offset
    (gt pred gt' pred' confidences avails : Tensor) (B M T C : nat)
    (offset : nat -> nat -> nat -> R) :
  valid_inputs gt pred confidences avails B M T C ->
  valid_inputs gt' pred' confidences avails B M T C ->
  (forall b t c, (b < B)%nat -> (t < T)%nat -> (c < C)%nat ->
     item gt' [b; t; c] = fadd (item gt [b; t; c]) (Fin (offset b t c))) ->
  (forall b m t c, (b < B)%nat -> (m < M)%nat -> (t < T)%nat -> (c < C)%nat ->
     item pred' [b; m; t; c] =
     fadd (item pred [b; m; t; c]) (Fin (offset b t c))) ->
  pytorch_neg_multi_log_likelihood_batch gt' pred' confidences avails =
  pytorch_neg_multi_log_likelihood_batch gt pred confidences avails.
Proof.
  intros V V' Hgt Hpred.
  rewrite (batch_loss_valid _ _ _ _ B M T C V).
  rewrite (batch_loss_valid _ _ _ _ B M T C V').
  destruct (M =? 0)%nat; [reflexivity|]. f_equal.
  apply batch_nll_same_errors. intros b m Hb Hm.
  unfold raw_error, step_error.
  apply range_sum_ext; intros t Ht. apply range_sum_ext; intros c Hc.
  rewrite Hgt, Hpred by assumption.
  destruct (finite_at3 gt B T C b t c (gt_finite _ _ _ _ _ _ _ _ V)
              (gt_shape _ _ _ _ _ _ _ _ V) Hb Ht Hc) as [g ->].
  destruct (finite_at4 pred B M T C b m t c (pred_finite _ _ _ _ _ _ _ _ V)
              (pred_shape _ _ _ _ _ _ _ _ V) Hb Hm Ht Hc) as [p ->].
  destruct (item avails [b; t]); simpl; try reflexivity.
  - f_equal; ring.
  - replace (g + offset b t c + - (p + offset b t c)) with (g + - p) by ring.
    reflexivity.
  - replace (g + offset b t c + - (p + offset b t c)) with (g + - p) by ring.
    reflexivity.
Qed.

(** ** Arithmetic in the range of [float32] *)

Lemma max_float32_ge_1 : 1 <= max_float32.
Proof. unfold max_float32. lra. Qed.

Lemma overflow32_in_range (x : R) :
  in_range32 x -> overflow32 (Fin x) = Fin x.
Proof.
  intros [H1 H2]. unfold overflow32. now rewrite !Rltb_false by lra.
Qed.

Lemma overflow32_above (x : R) :
  max_float32 < x -> overflow32 (Fin x) = PInf.
Proof. intros H. unfold overflow32. now rewrite Rltb_true. Qed.

Lemma overflow32_below (x : R) :
  x < - max_float32 -> overflow32 (Fin x) = NInf.
Proof.
  intros H. pose proof max_float32_ge_1. unfold overflow32.
  rewrite Rltb_false by lra. now rewrite Rltb_true.
Qed.

Lemma overflow32_Fin_inv (a : scalar) (r : R) :
  overflow32 a = Fin r -> a = Fin r /\ in_range32 r.
Proof.
  destruct a as [x| | |]; try discriminate.
  unfold overflow32, Rltb. destruct (Rlt_dec max_float32 x); [discriminate|].
  destruct (Rlt_dec x (- max_float32)); [discriminate|].
  intros [= <-]. split; [reflexivity | unfold in_range32; lra].
Qed.

Lemma overflow32_idem (a : scalar) : overflow32 (overflow32 a) = overflow32 a.
Proof.
  destruct a as [x| | |]; try reflexivity.
  unfold overflow32.
  destruct (Rltb max_float32 x) eqn:E1; [reflexivity|].
  destruct (Rltb x (- max_float32)) eqn:E2; [reflexivity|].
  now rewrite E1, E2.
Qed.

Lemma in_range32_0 : in_range32 0.
Proof. pose proof max_float32_ge_1. unfold in_range32. lra. Qed.

Lemma in_range32_1 : in_range32 1.
Proof. pose proof max_float32_ge_1. unfold in_range32. lra. Qed.

Lemma overflow32_0 : overflow32 (Fin 0) = Fin 0.
Proof. apply overflow32_in_range, in_range32_0. Qed.

Lemma overflow32_1 : overflow32 (Fin 1) = Fin 1.
Proof. apply overflow32_in_range, in_range32_1. Qed.

(** The operations of [Binary32], unfolded to [overflow32]. *)
Ltac unfold32 :=
  unfold Binary32.add, Binary32.sub, Binary32.mul, Binary32.div,
    Binary32.square, Binary32.log, Binary32.exp,
    Rounded.add, Rounded.sub, Rounded.mul, Rounded.div,
    Rounded.square, Rounded.log, Rounded.exp.

Lemma float32_finite (x : Tensor) : float32_on x -> finite_on x.
Proof. intros H idx Hin. destruct (H idx Hin) as (r & -> & _). reflexivity. Qed.

Lemma float32_full (shp : list nat) (v : R) :
  in_range32 v -> float32_on (full shp v).
Proof. intros Hv idx _. exists v. split; [reflexivity | exact Hv]. Qed.

Lemma float32_at (x : Tensor) (idx : list nat) :
  float32_on x -> Forall2 lt idx (shape x) ->
  exists r, item x idx = Fin r /\ in_range32 r.
Proof. intros Hf Hidx. apply Hf, in_indices, Hidx. Qed.

Lemma float32_at2 (x : Tensor) (B M b m : nat) :
  float32_on x -> shape x = [B; M] -> (b < B)%nat -> (m < M)%nat ->
  exists r, item x [b; m] = Fin r /\ in_range32 r.
Proof.
  intros Hf Hs Hb Hm. apply float32_at; [assumption|].
  rewrite Hs. repeat constructor; assumption.
Qed.

(** The loss on valid [float32] inputs. *)
Lemma batch32_valid (gt pred confidences avails : Tensor) (B M T C : nat) :
  Binary32.valid_inputs gt pred confidences avails B M T C ->
  Binary32.pytorch_neg_multi_log_likelihood_batch gt pred confidences avails =
  if (M =? 0)%nat then Raise IndexError
  else Ok (Binary32.batch_nll gt pred confidences avails M T C B).
Proof. intros V. apply rounded_batch_loss_valid, V. Qed.

Lemma batch32_entries (gt pred confidences avails : Tensor) (B M T C : nat) :
  Binary32.valid_inputs gt pred confidences avails B M T C -> (0 < M)%nat ->
  Binary32.pytorch_neg_multi_log_likelihood_batch gt pred confidences avails =
  Ok (Binary32.batch_nll gt pred confidences avails M T C B).
Proof. intros V HM. apply rounded_batch_loss_entries; [apply V | exact HM]. Qed.

(** ** Masked timesteps in [float32] *)

(** A masked term is 0 when the difference does not overflow. *)
Lemma masked_term32 (g p : R) :
  in_range32 (g - p) ->
  Binary32.square (Binary32.mul (Binary32.sub (Fin g) (Fin p)) (Fin 0)) = Fin 0.
Proof.
  intros H. unfold32. simpl.
  rewrite (overflow32_in_range (g + - p)) by exact H. simpl.
  rewrite Rmult_0_r, overflow32_0. simpl.
  now rewrite Rmult_0_r, overflow32_0.
Qed.

(** When it does, the product with the mask is [inf * 0 = NaN]. *)
Lemma masked_term32_overflow (g p : R) :
  g - p < - max_float32 ->
  Binary32.square (Binary32.mul (Binary32.sub (Fin g) (Fin p)) (Fin 0)) = NaN.
Proof.
  intros H. unfold32. simpl.
  rewrite (overflow32_below (g + - p)) by exact H. simpl.
  unfold inf_times. rewrite !Rltb_false by lra. reflexivity.
Qed.

Lemma sum32_zero (n : nat) (f : nat -> scalar) :
  (forall i, (i < n)%nat -> f i = Fin 0) -> Binary32.range_sum n f = Fin 0.
Proof.
  intros H. unfold Binary32.range_sum, Rounded.range_sum.
  assert (Hs : forall i, In i (seq 0 n) -> f i = Fin 0).
  { intros i Hi. apply in_seq in Hi. apply H. lia. }
  clear H. induction (seq 0 n) as [|a l IH] using rev_ind; [reflexivity|].
  rewrite sum_list_map_snoc.
  rewrite IH by (intros; apply Hs, in_app_iff; auto).
  rewrite Hs by (apply in_app_iff; simpl; auto).
  unfold Rounded.add. simpl. now rewrite Rplus_0_r, overflow32_0.
Qed.

Lemma step_error32_masked (gt pred avails : Tensor) (B M T C b m t : nat) :
  shape pred = [B; M; T; C] -> shape gt = [B; T; C] ->
  finite_on pred -> finite_on gt ->
  (b < B)%nat -> (m < M)%nat -> (t < T)%nat ->
  item avails [b; t] = Fin 0 ->
  (forall c, (c < C)%nat ->
     in_range32 (to_R (item gt [b; t; c]) - to_R (item pred [b; m; t; c]))) ->
  Binary32.step_error gt pred avails C b m t = Fin 0.
Proof.
  intros Hp Hg Fp Fg Hb Hm Ht Ha Hr.
  unfold Binary32.step_error, Rounded.step_error.
  apply sum32_zero. intros c Hc. specialize (Hr c Hc).
  destruct (finite_at3 gt B T C b t c Fg Hg Hb Ht Hc) as [g Eg].
  destruct (finite_at4 pred B M T C b m t c Fp Hp Hb Hm Ht Hc) as [p Ep].
  rewrite Eg, Ep in Hr |- *. rewrite Ha. apply masked_term32. exact Hr.
Qed.

Lemma batch_nll32_masked (gt pred1 pred2 confidences avails : Tensor) (B M T C : nat) :
  Binary32.valid_inputs gt pred1 confidences avails B M T C ->
  Binary32.valid_inputs gt pred2 confidences avails B M T C ->
  (forall b m t c, (b < B)%nat -> (m < M)%nat -> (t < T)%nat -> (c < C)%nat ->
     item avails [b; t] <> Fin 0 ->
     item pred1 [b; m; t; c] = item pred2 [b; m; t; c]) ->
  (forall b m t c, (b < B)%nat -> (m < M)%nat -> (t < T)%nat -> (c < C)%nat ->
     item avails [b; t] = Fin 0 ->
     in_range32 (to_R (item gt [b; t; c]) - to_R (item pred1 [b; m; t; c])) /\
     in_range32 (to_R (item gt [b; t; c]) - to_R (item pred2 [b; m; t; c]))) ->
  Binary32.batch_nll gt pred1 confidences avails M T C B =
  Binary32.batch_nll gt pred2 confidences avails M T C B.
Proof.
  intros [V1 _ _ _ _] [V2 _ _ _ _] Hsame Hrange.
  assert (Hscore : forall b m, (b < B)%nat -> (m < M)%nat ->
            Rounded.log_score overflow32 gt pred1 confidences avails T C b m =
            Rounded.log_score overflow32 gt pred2 confidences avails T C b m).
  { intros b m Hb Hm. unfold Rounded.log_score, Rounded.raw_error. do 2 f_equal.
    apply rounded_sum_ext; intros t Ht.
    destruct (scalar_eq_dec (item avails [b; t]) (Fin 0)) as [Z|NZ].
    - transitivity (Fin 0); [|symmetry].
      + apply (step_error32_masked gt pred1 avails B M T C b m t);
          try assumption; try apply V1.
        intros c Hc. now apply (Hrange b m t c).
      + apply (step_error32_masked gt pred2 avails B M T C b m t);
          try assumption; try apply V2.
        intros c Hc. now apply (Hrange b m t c).
    - unfold Rounded.step_error. apply rounded_sum_ext; intros c Hc.
      now rewrite Hsame. }
  unfold Binary32.batch_nll, Rounded.batch_nll. f_equal.
  apply rounded_sum_ext; intros b Hb.
  unfold Rounded.sample_nll. cbv zeta.
  rewrite (range_max_ext M _ (Rounded.log_score overflow32 gt pred2 confidences avails T C b))
    by (intros; now apply Hscore).
  do 3 f_equal. apply rounded_sum_ext; intros m Hm.
  now rewrite Hscore.
Qed.

(** C1, as amended.  In [float32], zeroing a timestep's availability
    makes that timestep's error contribution exactly zero whenever the
    difference between ground truth and prediction at that timestep
    does not overflow: the error of such a masked timestep is 0, and
    two valid batches whose predictions differ only at timesteps of
    availability 0, with differences in range there, get the same
    result from [pytorch_neg_multi_log_likelihood_batch], which is a
    loss value as soon as there is a mode. *)
Theorem masked_steps_in_range_do_not_contribute
    (gt pred1 pred2 confidences avails : Tensor) (B M T C : nat) :
  Binary32.valid_inputs gt pred1 confidences avails B M T C ->
  Binary32.valid_inputs gt pred2 confidences avails B M T C ->
  (forall b m t c, (b < B)%nat -> (m < M)%nat -> (t < T)%nat -> (c < C)%nat ->
     item avails [b; t] <> Fin 0 ->
     item pred1 [b; m; t; c] = item pred2 [b; m; t; c]) ->
  (forall b m t c, (b < B)%nat -> (m < M)%nat -> (t < T)%nat -> (c < C)%nat ->
     item avails [b; t] = Fin 0 ->
     in_range32 (to_R (item gt [b; t; c]) - to_R (item pred1 [b; m; t; c])) /\
     in_range32 (to_R (item gt [b; t; c]) - to_R (item pred2 [b; m; t; c]))) ->
  (forall b m t, (b < B)%nat -> (m < M)%nat -> (t < T)%nat ->
     item avails [b; t] = Fin 0 ->
     Binary32.step_error gt pred1 avails C b m t = Fin 0) /\
  Binary32.pytorch_neg_multi_log_likelihood_batch gt pred1 confidences avails =
  Binary32.pytorch_neg_multi_log_likelihood_batch gt pred2 confidences avails /\
  ((0 < M)%nat ->
   exists loss,
     Binary32.pytorch_neg_multi_log_likelihood_batch gt pred1 confidences avails
     = Ok loss).
Proof.
  intros V1 V2 Hsame Hrange. split; [|split].
  - intros b m t Hb Hm Ht Ha.
    apply (step_error32_masked gt pred1 avails B M T C); try assumption;
      try apply V1.
    intros c Hc. now apply (Hrange b m t c).
  - rewrite (batch32_valid _ _ _ _ B M T C V1).
    rewrite (batch32_valid _ _ _ _ B M T C V2).
    destruct (M =? 0)%nat; [reflexivity|].
    f_equal. now apply batch_nll32_masked.
  - intros HM. eexists. now apply (batch32_entries _ _ _ _ B M T C).
Qed.

(** ** Sums that stay in range *)

Lemma fold_Rplus_nonneg (l : list R) :
  (forall x, In x l -> 0 <= x) -> 0 <= fold_right Rplus 0 l.
Proof.
  induction l as [|a l IH]; simpl; intros H; [lra|].
  pose proof (H a (or_introl eq_refl)).
  assert (0 <= fold_right Rplus 0 l) by (apply IH; intros; apply H; simpl; auto).
  lra.
Qed.

(** A sum of non-negative terms whose exact value is in range does not
    overflow on the way. *)
Lemma sum32_Rsum (n : nat) (f : nat -> scalar) (g : nat -> R) :
  (forall i, (i < n)%nat -> f i = Fin (g i)) ->
  (forall i, (i < n)%nat -> 0 <= g i) ->
  Rsum n g <= max_float32 ->
  Binary32.range_sum n f = Fin (Rsum n g).
Proof.
  intros Hf Hg. unfold Binary32.range_sum, Rounded.range_sum, Rsum.
  assert (Hf' : forall i, In i (seq 0 n) -> f i = Fin (g i)).
  { intros i Hi. apply in_seq in Hi. apply Hf. lia. }
  assert (Hg' : forall i, In i (seq 0 n) -> 0 <= g i).
  { intros i Hi. apply in_seq in Hi. apply Hg. lia. }
  clear Hf Hg. induction (seq 0 n) as [|a l IH] using rev_ind; intros Hle.
  - reflexivity.
  - pose proof (Hg' a ltac:(apply in_app_iff; simpl; auto)) as Ha.
    assert (Hl : 0 <= fold_right Rplus 0 (map g l)).
    { apply fold_Rplus_nonneg. intros x Hx.
      apply in_map_iff in Hx as (i & <- & Hi). apply Hg', in_app_iff. auto. }
    assert (Hsplit : fold_right Rplus 0 (map g (l ++ [a])) =
                     fold_right Rplus 0 (map g l) + g a).
    { rewrite map_app, fold_right_app. simpl. rewrite Rplus_0_r.
      clear. induction (map g l) as [|x xs IHx]; simpl; [lra|].
      rewrite IHx. lra. }
    rewrite Hsplit in *.
    rewrite sum_list_map_snoc.
    rewrite IH; [| intros; apply Hf', in_app_iff; auto
                 | intros; apply Hg', in_app_iff; auto | lra].
    rewrite Hf' by (apply in_app_iff; simpl; auto).
    unfold Rounded.add. simpl. apply overflow32_in_range.
    pose proof max_float32_ge_1. unfold in_range32. lra.
Qed.

Lemma sum32_NaN (n i : nat) (f : nat -> scalar) :
  (i < n)%nat -> f i = NaN -> Binary32.range_sum n f = NaN.
Proof.
  intros Hi Hf. unfold Binary32.range_sum, Rounded.range_sum.
  assert (Hin : In NaN (map f (seq 0 n))).
  { rewrite <- Hf. apply in_map, in_seq. lia. }
  induction (map f (seq 0 n)) as [|a l IH] using rev_ind; [contradiction|].
  rewrite sum_list_snoc. apply in_app_iff in Hin as [Hin | [-> | []]].
  - rewrite IH by assumption. reflexivity.
  - unfold Rounded.add.
    destruct (Rounded.sum_list overflow32 l); reflexivity.
Qed.

(** ** A single mode in [float32] *)

(** The score of a mode of confidence 1 whose raw error is in range. *)
Lemma log_score32_sure (gt pred confidences avails : Tensor) (T C b m : nat) (e : R) :
  item confidences [b; m] = Fin 1 ->
  Binary32.raw_error gt pred avails T C b m = Fin e ->
  0 <= e <= max_float32 ->
  Binary32.log_score gt pred confidences avails T C b m = Fin (- (1 / 2 * e)).
Proof.
  intros Hc He Hr. pose proof max_float32_ge_1.
  unfold Binary32.log_score, Rounded.log_score.
  unfold Binary32.raw_error in He. rewrite Hc, He.
  unfold32. simpl. rewrite Rltb_true by lra. rewrite ln_1, overflow32_0.
  rewrite (overflow32_in_range (1 / 2 * e)) by (unfold in_range32; lra).
  simpl. rewrite Rplus_0_l. apply overflow32_in_range. unfold in_range32; lra.
Qed.

Lemma range_max_1 (f : nat -> scalar) : range_max 1 f = f 0%nat.
Proof. unfold range_max. simpl. destruct (f 0%nat); reflexivity. Qed.

Lemma sum32_1 (f : nat -> scalar) :
  Binary32.range_sum 1 f = overflow32 (f 0%nat).
Proof.
  unfold Binary32.range_sum, Rounded.range_sum, Rounded.sum_list, Rounded.add.
  cbn [seq map fold_left]. now rewrite fadd_0_l.
Qed.

(** With one mode of finite score the log-sum-exp is the score. *)
Lemma sample_nll32_single (gt pred confidences avails : Tensor) (T C b : nat) (s : R) :
  Binary32.log_score gt pred confidences avails T C b 0 = Fin (- s) ->
  0 <= s <= max_float32 ->
  Binary32.sample_nll gt pred confidences avails 1 T C b = Fin s.
Proof.
  intros Hs Hr. pose proof max_float32_ge_1.
  unfold Binary32.sample_nll, Rounded.sample_nll. cbv zeta.
  unfold Binary32.log_score in Hs.
  rewrite range_max_1, Hs.
  change (Rounded.range_sum overflow32 1) with (Binary32.range_sum 1).
  rewrite sum32_1, Hs. unfold32. simpl.
  rewrite Rplus_opp_r, overflow32_0. simpl.
  rewrite exp_0, !overflow32_1. simpl.
  rewrite Rltb_true by lra. rewrite ln_1, overflow32_0. simpl.
  rewrite Ropp_0, Rplus_0_l, Ropp_involutive.
  apply overflow32_in_range. unfold in_range32; lra.
Qed.

(** With one mode of score [-inf] the shift by the maximum is
    [-inf - (-inf)]. *)
Lemma sample_nll32_single_lost (gt pred confidences avails : Tensor) (T C b : nat) :
  Binary32.log_score gt pred confidences avails T C b 0 = NInf ->
  Binary32.sample_nll gt pred confidences avails 1 T C b = NaN.
Proof.
  intros Hs.
  unfold Binary32.sample_nll, Rounded.sample_nll. cbv zeta.
  unfold Binary32.log_score in Hs.
  rewrite range_max_1, Hs.
  change (Rounded.range_sum overflow32 1) with (Binary32.range_sum 1).
  rewrite sum32_1, Hs. unfold32. reflexivity.
Qed.

Lemma log_score32_NaN (gt pred confidences avails : Tensor) (T C b m : nat) :
  Binary32.raw_error gt pred avails T C b m = NaN ->
  Binary32.log_score gt pred confidences avails T C b m = NaN.
Proof.
  intros He. unfold Binary32.log_score, Rounded.log_score.
  unfold Binary32.raw_error in He. rewrite He. unfold32. simpl.
  destruct (overflow32 (flog (item confidences [b; m]))); reflexivity.
Qed.

(** A NaN score of one mode of one sample makes the loss NaN. *)
Lemma batch_nll32_NaN (gt pred confidences avails : Tensor) (B M T C b m : nat) :
  (b < B)%nat -> (m < M)%nat ->
  Binary32.log_score gt pred confidences avails T C b m = NaN ->
  Binary32.batch_nll gt pred confidences avails M T C B = NaN.
Proof.
  intros Hb Hm Hs. unfold Binary32.batch_nll, Rounded.batch_nll.
  change (Rounded.range_sum overflow32 B) with (Binary32.range_sum B).
  rewrite (sum32_NaN B b); [reflexivity | exact Hb |].
  unfold Rounded.sample_nll. cbv zeta.
  rewrite (range_max_NaN M m) by assumption.
  unfold Rounded.sub.
  match goal with |- overflow32 (fsub ?a NaN) = NaN => destruct a; reflexivity end.
Qed.

(** The squared error of an available coordinate. *)
Lemma sq_term32 (g p : R) :
  Rsqr (g - p) <= max_float32 ->
  Binary32.square (Binary32.mul (Binary32.sub (Fin g) (Fin p)) (Fin 1)) =
  Fin (Rsqr (g - p)).
Proof.
  intros H. pose proof max_float32_ge_1 as H1. unfold Rsqr in H.
  assert (Hd : in_range32 (g - p)).
  { unfold in_range32. split; nra. }
  unfold32. simpl.
  rewrite (overflow32_in_range (g + - p)) by exact Hd. simpl.
  rewrite Rmult_1_r, (overflow32_in_range (g + - p)) by exact Hd. simpl.
  rewrite overflow32_in_range.
  - reflexivity.
  - unfold in_range32. pose proof (Rle_0_sqr (g - p)) as Hn.
    unfold Rsqr, Rminus in *. lra.
Qed.

(** The raw error of a mode of a fully available sample, when the sum
    of its squared errors is in range. *)
Lemma raw_error32_available (gt pred avails : Tensor) (B M T C b m : nat) :
  shape gt = [B; T; C] -> shape pred = [B; M; T; C] ->
  finite_on gt -> finite_on pred ->
  (b < B)%nat -> (m < M)%nat ->
  (forall t, (t < T)%nat -> item avails [b; t] = Fin 1) ->
  Rsum T (fun t => Rsum C (fun c =>
    Rsqr (to_R (item gt [b; t; c]) - to_R (item pred [b; m; t; c]))))
  <= max_float32 ->
  Binary32.raw_error gt pred avails T C b m =
  Fin (Rsum T (fun t => Rsum C (fun c =>
    Rsqr (to_R (item gt [b; t; c]) - to_R (item pred [b; m; t; c]))))).
Proof.
  intros Hg Hp Fg Fp Hb Hm Hav Hle.
  set (sq t c := Rsqr (to_R (item gt [b; t; c]) - to_R (item pred [b; m; t; c]))) in *.
  assert (Hrow : forall t, (t < T)%nat -> Rsum C (sq t) <= max_float32).
  { intros t Ht. eapply Rle_trans; [|exact Hle].
    apply (Rsum_ge_term T (fun t => Rsum C (sq t)) t); [|exact Ht].
    intros j _. apply Rsum_nonneg. intros c _. apply Rle_0_sqr. }
  unfold Binary32.raw_error, Rounded.raw_error.
  apply sum32_Rsum; [| |exact Hle].
  - intros t Ht. unfold Rounded.step_error.
    apply sum32_Rsum; [| |now apply Hrow].
    + intros c Hc.
      destruct (finite_at3 gt B T C b t c Fg Hg Hb Ht Hc) as [g Eg].
      destruct (finite_at4 pred B M T C b m t c Fp Hp Hb Hm Ht Hc) as [p Ep].
      assert (Hsq : Rsqr (g - p) <= max_float32).
      { eapply Rle_trans; [|apply (Hrow t Ht)].
        replace (Rsqr (g - p)) with (sq t c)
          by (unfold sq; now rewrite Eg, Ep).
        apply (Rsum_ge_term C (sq t) c); [|exact Hc].
        intros j _. apply Rle_0_sqr. }
      unfold sq. rewrite Eg, Ep, Hav by assumption. simpl.
      now apply sq_term32.
    + intros c _. apply Rle_0_sqr.
  - intros t _. apply Rsum_nonneg. intros c _. apply Rle_0_sqr.
Qed.

Lemma Rsum_half (n : nat) (f : nat -> R) :
  Rsum n (fun i => 1 / 2 * f i) = 1 / 2 * Rsum n f.
Proof.
  induction n as [|n IH]; [unfold Rsum; simpl; lra|].
  rewrite !Rsum_S, IH. lra.
Qed.

(** The loss of a fully available [float32] batch with one mode of
    confidence 1, when no sum overflows. *)
Lemma batch32_single_mode_value (gt pred confidences avails : Tensor) (B T C : nat) :
  Binary32.valid_inputs gt pred confidences avails B 1 T C ->
  (forall b, (b < B)%nat -> item confidences [b; 0%nat] = Fin 1) ->
  (forall b t, (b < B)%nat -> (t < T)%nat -> item avails [b; t] = Fin 1) ->
  (0 < B)%nat ->
  let E b := Rsum T (fun t => Rsum C (fun c =>
    Rsqr (to_R (item gt [b; t; c]) - to_R (item pred [b; 0%nat; t; c])))) in
  (forall b, (b < B)%nat -> E b <= max_float32) ->
  Rsum B (fun b => 1 / 2 * E b) <= max_float32 ->
  Binary32.pytorch_neg_multi_log_likelihood_batch gt pred confidences avails =
  Ok (Fin (1 / 2 * (Rsum B E / INR B))).
Proof.
  intros V Hc Hav HB E HE Hsum. pose proof max_float32_ge_1 as H1.
  assert (Hpos : forall b, 0 <= E b).
  { intros b. apply Rsum_nonneg. intros t _. apply Rsum_nonneg.
    intros c _. apply Rle_0_sqr. }
  rewrite (batch32_entries _ _ _ _ B 1 T C V) by lia. f_equal.
  unfold Binary32.batch_nll, Rounded.batch_nll.
  change (Rounded.range_sum overflow32 B) with (Binary32.range_sum B).
  rewrite (sum32_Rsum B _ (fun b => 1 / 2 * E b)); [| | |exact Hsum].
  - assert (Hn : 0 < INR B) by (now apply INR_pos).
    assert (Hs : 0 <= Rsum B (fun b => 1 / 2 * E b)).
    { apply Rsum_nonneg. intros b _. specialize (Hpos b). lra. }
    assert (Hinv : 0 < / INR B <= 1).
    { split; [now apply Rinv_0_lt_compat|].
      rewrite <- Rinv_1. apply Rinv_le_contravar; [lra|].
      apply (le_INR 1); lia. }
    assert (Hq : 0 <= Rsum B (fun b => 1 / 2 * E b) / INR B
                 <= Rsum B (fun b => 1 / 2 * E b)).
    { unfold Rdiv. split; nra. }
    unfold Rounded.div. simpl. rewrite Rltb_true by exact Hn.
    rewrite overflow32_in_range by (unfold in_range32; lra).
    f_equal. rewrite Rsum_half. field. lra.
  - intros b Hb.
    apply (sample_nll32_single gt pred confidences avails T C b (1 / 2 * E b)).
    + apply (log_score32_sure gt pred confidences avails T C b 0 (E b)).
      * now apply Hc.
      * apply (raw_error32_available gt pred avails B 1 T C b 0);
          try apply V; try assumption; try lia.
        -- intros t Ht. now apply Hav.
        -- now apply HE.
      * split; [apply Hpos | now apply HE].
    + specialize (Hpos b). specialize (HE b Hb). lra.
  - intros b _. specialize (Hpos b). lra.
Qed.

(** The square of an available difference beyond the range. *)
Lemma sq_term32_overflow (g p : R) :
  in_range32 (g - p) -> max_float32 < (g - p) * (g - p) ->
  Binary32.square (Binary32.mul (Binary32.sub (Fin g) (Fin p)) (Fin 1)) = PInf.
Proof.
  intros Hd H. unfold32. simpl.
  rewrite (overflow32_in_range (g + - p)) by exact Hd. simpl.
  rewrite Rmult_1_r, (overflow32_in_range (g + - p)) by exact Hd. simpl.
  apply overflow32_above. exact H.
Qed.

(** The score of a mode of confidence 1 whose raw error overflowed. *)
Lemma log_score32_lost (gt pred confidences avails : Tensor) (T C b m : nat) :
  item confidences [b; m] = Fin 1 ->
  Binary32.raw_error gt pred avails T C b m = PInf ->
  Binary32.log_score gt pred confidences avails T C b m = NInf.
Proof.
  intros Hc He. unfold Binary32.log_score, Rounded.log_score.
  unfold Binary32.raw_error in He. rewrite Hc, He.
  unfold32. simpl. rewrite Rltb_true by lra. rewrite ln_1, overflow32_0.
  unfold inf_times. rewrite Rltb_true by lra. reflexivity.
Qed.

(** ** The single-mode wrapper in [float32] *)

Lemma new_ones_rows32 (B : nat) :
  Rounded.rows_sum_to_one overflow32 (new_ones [B; 1%nat]) B 1.
Proof.
  intros b Hb.
  change (Rounded.range_sum overflow32 1) with (Binary32.range_sum 1).
  rewrite sum32_1. simpl. rewrite overflow32_1. apply isclose_Fin_eq. reflexivity.
Qed.

Lemma single_rows32 (confidences : Tensor) (B : nat) :
  (forall b, (b < B)%nat -> item confidences [b; 0%nat] = Fin 1) ->
  Rounded.rows_sum_to_one overflow32 confidences B 1.
Proof.
  intros H b Hb.
  change (Rounded.range_sum overflow32 1) with (Binary32.range_sum 1).
  rewrite sum32_1, H, overflow32_1 by assumption. apply isclose_Fin_eq. reflexivity.
Qed.

Lemma unsqueeze_float32 (traj : Tensor) (B T C : nat) :
  shape traj = [B; T; C] -> float32_on traj -> float32_on (unsqueeze traj 1).
Proof.
  intros Ht Ft idx Hin. unfold unsqueeze in *. simpl in *. rewrite Ht in Hin.
  apply (indices_4 B 1 T C) in Hin as (b & m & t & c & -> & Hb & Hm & Htt & Hc).
  simpl. apply Ft, in_indices. rewrite Ht. repeat constructor; assumption.
Qed.

Lemma single_inputs_valid32 (gt traj avails : Tensor) (B T C : nat) :
  shape gt = [B; T; C] -> shape traj = [B; T; C] -> shape avails = [B; T] ->
  float32_on gt -> float32_on traj -> float32_on avails ->
  Binary32.valid_inputs gt (unsqueeze traj 1) (new_ones [B; 1%nat]) avails B 1 T C.
Proof.
  intros Hg Ht Ha Fg Ft Fa.
  assert (Fu : float32_on (unsqueeze traj 1))
    by (now apply (unsqueeze_float32 traj B T C)).
  assert (Fo : float32_on (new_ones [B; 1%nat])).
  { intros idx _. exists 1. split; [reflexivity | apply in_range32_1]. }
  split; try assumption.
  split; try assumption; try (now apply float32_finite).
  - unfold unsqueeze. simpl. now rewrite Ht.
  - reflexivity.
  - apply new_ones_rows32.
Qed.

Lemma single32_unfold (gt traj avails : Tensor) (B T C : nat) :
  shape traj = [B; T; C] ->
  Binary32.pytorch_neg_multi_log_likelihood_single gt traj avails =
  Binary32.pytorch_neg_multi_log_likelihood_batch gt (unsqueeze traj 1)
    (new_ones [B; 1%nat]) avails.
Proof.
  intros H. unfold Binary32.pytorch_neg_multi_log_likelihood_single,
    Rounded.pytorch_neg_multi_log_likelihood_single. now rewrite H.
Qed.

Lemma select_mode_float32 (pred : Tensor) (B M T C m : nat) :
  shape pred = [B; M; T; C] -> float32_on pred -> (m < M)%nat ->
  float32_on (select_mode pred m).
Proof.
  intros Hp Fp Hm idx Hin. unfold select_mode in *. simpl in *.
  rewrite Hp in Hin. simpl in Hin.
  apply indices_3 in Hin as (b & t & c & -> & Hb & Ht & Hc).
  simpl. apply Fp, in_indices. rewrite Hp. repeat constructor; assumption.
Qed.

(** C2, as amended.  In [float32], with every timestep available and a
    single mode of confidence 1, the batch loss, and the single-mode
    loss of that one trajectory, is 0.5 times the mean over the batch
    of the sum over timesteps and coordinates of the squared errors
    [(gt - pred)^2], provided that sum is within the [float32] range
    for every sample and the halved sums add up within the range over
    the batch. *)
Theorem single_mode_loss_in_range_is_half_mean_squared_error
    (gt pred confidences avails : Tensor) (B T C : nat) :
  Binary32.valid_inputs gt pred confidences avails B 1 T C ->
  (forall b, (b < B)%nat -> item confidences [b; 0%nat] = Fin 1) ->
  (forall b t, (b < B)%nat -> (t < T)%nat -> item avails [b; t] = Fin 1) ->
  (0 < B)%nat ->
  (forall b, (b < B)%nat ->
     real_sq_error gt (select_mode pred 0) T C b <= max_float32) ->
  Rsum B (fun b => 1 / 2 * real_sq_error gt (select_mode pred 0) T C b)
    <= max_float32 ->
  let half_mean_sq :=
    Fin (1 / 2 * (Rsum B (real_sq_error gt (select_mode pred 0) T C) / INR B)) in
  Binary32.pytorch_neg_multi_log_likelihood_batch gt pred confidences avails
    = Ok half_mean_sq /\
  Binary32.pytorch_neg_multi_log_likelihood_single gt (select_mode pred 0) avails
    = Ok half_mean_sq.
Proof.
  intros V Hc Hav HB HE Hsum half_mean_sq. unfold half_mean_sq.
  pose proof V as [[Hp Hg _ Ha _ _ _ _ _] Fp Fg _ Fa].
  split.
  - exact (batch32_single_mode_value gt pred confidences avails B T C
             V Hc Hav HB HE Hsum).
  - assert (Hs : shape (select_mode pred 0) = [B; T; C]).
    { unfold select_mode. simpl. now rewrite Hp. }
    rewrite (single32_unfold gt (select_mode pred 0) avails B T C Hs).
    refine (batch32_single_mode_value gt (unsqueeze (select_mode pred 0) 1)
              (new_ones [B; 1%nat]) avails B T C _ _ Hav HB HE Hsum).
    + apply single_inputs_valid32; try assumption.
      apply (select_mode_float32 pred B 1 T C); [assumption | assumption | lia].
    + reflexivity.
Qed.

(** ** Modes of confidence 0 in [float32] *)

(** A sum is a [float32] value. *)
Lemma fold32_fixed (l : list scalar) :
  overflow32 (Rounded.sum_list overflow32 l) = Rounded.sum_list overflow32 l.
Proof.
  destruct l as [|a l] using rev_ind; [apply overflow32_0|].
  rewrite sum_list_snoc. unfold Rounded.add. apply overflow32_idem.
Qed.

(** Terms equal to 0 do not change a sum. *)
Lemma fold32_skip_zero (f : nat -> scalar) (zero : nat -> bool) (l : list nat) :
  (forall m, In m l -> zero m = true -> f m = Fin 0) ->
  Rounded.sum_list overflow32 (map f l) =
  Rounded.sum_list overflow32 (map f (filter (fun m => negb (zero m)) l)).
Proof.
  induction l as [|a l IH] using rev_ind; intros H; [reflexivity|].
  rewrite filter_app, sum_list_map_snoc.
  rewrite IH by (intros; apply H; [apply in_app_iff; auto | assumption]).
  cbn [filter]. destruct (zero a) eqn:Ez; cbn [negb].
  - rewrite (H a) by (try apply in_app_iff; simpl; auto).
    rewrite app_nil_r.
    unfold Rounded.add at 1. rewrite fadd_0_r. apply fold32_fixed.
  - now rewrite sum_list_map_snoc.
Qed.

Lemma fold32_has_NaN (l : list scalar) :
  In NaN l -> Rounded.sum_list overflow32 l = NaN.
Proof.
  induction l as [|a l IH] using rev_ind; [contradiction|].
  intros Hin. rewrite sum_list_snoc.
  apply in_app_iff in Hin as [Hin | [-> | []]].
  - rewrite IH by assumption. reflexivity.
  - unfold Rounded.add.
    destruct (Rounded.sum_list overflow32 l); reflexivity.
Qed.

(** Scores of [-inf] do not change a maximum. *)
Lemma fold_max_skip (s : nat -> scalar) (zero : nat -> bool) (l : list nat) :
  (forall m, In m l -> zero m = true -> s m = NInf) ->
  fold_right fmax NInf (map s l) =
  fold_right fmax NInf (map s (filter (fun m => negb (zero m)) l)).
Proof.
  induction l as [|a l IH]; intros H; simpl; [reflexivity|].
  rewrite IH by (intros; apply H; simpl; auto).
  destruct (zero a) eqn:Ez; simpl; [|reflexivity].
  rewrite (H a) by (simpl; auto). apply fmax_NInf_l.
Qed.

Lemma rounded_sum_select (rnd : scalar -> scalar) (f : nat -> scalar) (keep : list nat) :
  Rounded.range_sum rnd (length keep) (fun i => f (nth i keep 0%nat)) =
  Rounded.sum_list rnd (map f keep).
Proof.
  unfold Rounded.range_sum. f_equal.
  rewrite <- (map_map (fun i => nth i keep 0%nat) f). now rewrite map_nth_seq.
Qed.

Lemma remaining_in_range (zero : nat -> bool) (M i : nat) :
  (i < length (remaining_modes zero M))%nat ->
  (nth i (remaining_modes zero M) 0 < M)%nat.
Proof.
  intros Hi.
  assert (Hin : In (nth i (remaining_modes zero M) 0%nat) (remaining_modes zero M))
    by (now apply nth_In).
  apply filter_In in Hin as [Hin _]. apply in_seq in Hin. lia.
Qed.

(** The row reduction of lines 255-256 ignores modes of score [-inf]
    as long as a mode remains. *)
Lemma nll32_row_select (s : nat -> scalar) (zero : nat -> bool) (M : nat) :
  remaining_modes zero M <> [] ->
  (forall d, (d < M)%nat -> zero d = true -> s d = NInf) ->
  Binary32.sub
    (fneg (Binary32.log (Binary32.range_sum M (fun m =>
       Binary32.exp (Binary32.sub (s m) (range_max M s))))))
    (range_max M s) =
  let keep := remaining_modes zero M in
  let s' i := s (nth i keep 0%nat) in
  let n := length keep in
  Binary32.sub
    (fneg (Binary32.log (Binary32.range_sum n (fun i =>
       Binary32.exp (Binary32.sub (s' i) (range_max n s'))))))
    (range_max n s').
Proof.
  intros Hne Hdrop. cbv zeta.
  assert (Hdrop' : forall m, In m (seq 0 M) -> zero m = true -> s m = NInf).
  { intros m Hm. apply in_seq in Hm. apply Hdrop. lia. }
  rewrite (range_max_select s (remaining_modes zero M)).
  unfold Binary32.range_sum.
  rewrite (rounded_sum_select overflow32
             (fun k => Binary32.exp (Binary32.sub (s k) _)) (remaining_modes zero M)).
  assert (Hmax : range_max M s =
                 fold_right fmax NInf (map s (remaining_modes zero M))).
  { unfold range_max, remaining_modes. now apply fold_max_skip. }
  rewrite Hmax.
  set (mx := fold_right fmax NInf (map s (remaining_modes zero M))) in *.
  f_equal. do 2 f_equal.
  unfold Rounded.range_sum.
  assert (Hex : exists k0, In k0 (remaining_modes zero M)).
  { destruct (remaining_modes zero M) as [|k0 rest]; [congruence|].
    exists k0. simpl; auto. }
  destruct Hex as [k0 Hk0].
  assert (Hk0' : In k0 (seq 0 M)).
  { unfold remaining_modes in Hk0. now apply filter_In in Hk0. }
  destruct mx eqn:Hmx.
  - unfold remaining_modes. apply fold32_skip_zero.
    intros m Hm Hz. rewrite (Hdrop' m Hm Hz).
    unfold32. simpl. apply overflow32_0.
  - unfold remaining_modes. apply fold32_skip_zero.
    intros m Hm Hz. rewrite (Hdrop' m Hm Hz).
    unfold32. simpl. apply overflow32_0.
  - assert (Hs : s k0 = NInf).
    { apply (fold_max_is_NInf (map s (remaining_modes zero M)) Hmx).
      now apply in_map. }
    rewrite !fold32_has_NaN; [reflexivity | |].
    + apply in_map_iff. exists k0. split; [now rewrite Hs | exact Hk0].
    + apply in_map_iff. exists k0. split; [now rewrite Hs | exact Hk0'].
  - rewrite !fold32_has_NaN; [reflexivity | |].
    + apply in_map_iff. exists k0. split; [|exact Hk0].
      unfold32. destruct (s k0); reflexivity.
    + apply in_map_iff. exists k0. split; [|exact Hk0'].
      unfold32. destruct (s k0); reflexivity.
Qed.

Lemma overflow32_nonneg (x : R) :
  0 <= x -> overflow32 (Fin x) = PInf \/ overflow32 (Fin x) = Fin x.
Proof.
  intros H. pose proof max_float32_ge_1. unfold overflow32.
  destruct (Rltb max_float32 x); [now left|].
  rewrite Rltb_false by lra. now right.
Qed.

Lemma square32_value (a : scalar) : nonneg_value (Binary32.square a).
Proof.
  unfold32. destruct a as [x| | |]; simpl.
  - destruct (overflow32_nonneg (x * x)) as [-> | ->].
    + nra.
    + right; now left.
    + right; right. exists (x * x). split; [reflexivity | nra].
  - right; now left.
  - right; now left.
  - now left.
Qed.

Lemma add32_value (a b : scalar) :
  nonneg_value a -> nonneg_value b ->
  nonneg_value (Binary32.add a b).
Proof.
  unfold32.
  intros [-> | [-> | (x & -> & Hx)]] [-> | [-> | (y & -> & Hy)]]; simpl;
    try (now left); try (right; now left).
  destruct (overflow32_nonneg (x + y)) as [-> | ->].
  - lra.
  - right; now left.
  - right; right. exists (x + y). split; [reflexivity | lra].
Qed.

Lemma sum32_value (n : nat) (f : nat -> scalar) :
  (forall i, (i < n)%nat -> nonneg_value (f i)) ->
  nonneg_value (Binary32.range_sum n f).
Proof.
  intros H. unfold Binary32.range_sum, Rounded.range_sum.
  assert (Hs : forall i, In i (seq 0 n) -> nonneg_value (f i)).
  { intros i Hi. apply in_seq in Hi. apply H. lia. }
  clear H. induction (seq 0 n) as [|a l IH] using rev_ind.
  - right; right. exists 0. split; [reflexivity | lra].
  - rewrite sum_list_map_snoc. apply add32_value.
    + apply IH. intros; apply Hs, in_app_iff; auto.
    + apply Hs, in_app_iff. simpl; auto.
Qed.

Lemma raw_error32_value (gt pred avails : Tensor) (T C b m : nat) :
  nonneg_value (Binary32.raw_error gt pred avails T C b m).
Proof.
  unfold Binary32.raw_error, Rounded.raw_error.
  apply sum32_value. intros t _. unfold Rounded.step_error.
  apply sum32_value. intros c _. apply square32_value.
Qed.

(** A mode of confidence 0 whose raw error is not NaN has the score
    [log 0 - 0.5 * error = -inf]. *)
Lemma zero_confidence_score32 (gt pred confidences avails : Tensor) (T C b d : nat) :
  item confidences [b; d] = Fin 0 ->
  Binary32.raw_error gt pred avails T C b d <> NaN ->
  Binary32.log (item confidences [b; d]) = NInf /\
  Binary32.log_score gt pred confidences avails T C b d = NInf.
Proof.
  intros Hz Hn.
  assert (Hlog : Binary32.log (Fin 0) = NInf).
  { unfold32. simpl. now rewrite !Rltb_false by lra. }
  rewrite Hz. split; [exact Hlog|].
  unfold Binary32.log_score, Rounded.log_score. rewrite Hz.
  fold Binary32.log. rewrite Hlog.
  fold (Binary32.raw_error gt pred avails T C b d).
  destruct (raw_error32_value gt pred avails T C b d) as [E | [E | (e & E & He)]].
  - contradiction.
  - rewrite E. unfold32. simpl. unfold inf_times.
    rewrite Rltb_true by lra. reflexivity.
  - rewrite E. unfold32. simpl.
    destruct (overflow32_nonneg (1 / 2 * e)) as [-> | ->]; [lra | |]; reflexivity.
Qed.

Lemma select_valid32 (gt pred confidences avails : Tensor) (B M T C : nat)
    (zero : nat -> bool) :
  Binary32.valid_inputs gt pred confidences avails B M T C ->
  (forall b d, (b < B)%nat -> (d < M)%nat -> zero d = true ->
     item confidences [b; d] = Fin 0) ->
  let keep := remaining_modes zero M in
  Binary32.valid_inputs gt (index_select1 pred keep) (index_select1 confidences keep)
    avails B (length keep) T C.
Proof.
  intros [[Hp Hg Hc Ha Hsum _ _ _ _] Fp Fg Fc Fa] Hz keep.
  assert (Fp' : float32_on (index_select1 pred keep)).
  { intros idx Hin. unfold index_select1 in *. simpl in *.
    rewrite Hp in Hin. simpl in Hin.
    apply indices_4 in Hin as (b & m & t & c & -> & Hb & Hm & Ht & Hcc).
    simpl. apply Fp, in_indices. rewrite Hp.
    repeat constructor; try assumption. now apply remaining_in_range. }
  assert (Fc' : float32_on (index_select1 confidences keep)).
  { intros idx Hin. unfold index_select1 in *. simpl in *.
    rewrite Hc in Hin. simpl in Hin.
    apply indices_2 in Hin as (b & m & -> & Hb & Hm).
    simpl. apply Fc, in_indices. rewrite Hc.
    repeat constructor; try assumption. now apply remaining_in_range. }
  split; try assumption.
  split; try assumption; try (now apply float32_finite).
  - unfold index_select1. simpl. now rewrite Hp.
  - unfold index_select1. simpl. now rewrite Hc.
  - intros b Hb. specialize (Hsum b Hb).
    rewrite <- Hsum. f_equal.
    change (Rounded.range_sum overflow32 (length keep)
              (fun i => item confidences [b; nth i keep 0%nat]) =
            Rounded.range_sum overflow32 M (fun m => item confidences [b; m])).
    rewrite (rounded_sum_select overflow32 (fun m => item confidences [b; m]) keep).
    symmetry. unfold Rounded.range_sum, keep, remaining_modes.
    apply fold32_skip_zero.
    intros m Hm Hzm. apply in_seq in Hm. apply Hz; [assumption | lia | assumption].
Qed.

Lemma sample_nll32_select (gt pred confidences avails : Tensor) (M T C b : nat)
    (zero : nat -> bool) :
  remaining_modes zero M <> [] ->
  (forall d, (d < M)%nat -> zero d = true -> item confidences [b; d] = Fin 0) ->
  (forall d, (d < M)%nat -> zero d = true ->
     Binary32.raw_error gt pred avails T C b d <> NaN) ->
  let keep := remaining_modes zero M in
  Binary32.sample_nll gt pred confidences avails M T C b =
  Binary32.sample_nll gt (index_select1 pred keep) (index_select1 confidences keep)
    avails (length keep) T C b.
Proof.
  intros Hne Hz Hn keep.
  apply (nll32_row_select (Binary32.log_score gt pred confidences avails T C b)
           zero M Hne).
  intros d Hd Hzd.
  apply zero_confidence_score32; [now apply Hz | now apply Hn].
Qed.

Lemma select_nll32 (gt pred confidences avails : Tensor) (B M T C : nat)
    (zero : nat -> bool) :
  remaining_modes zero M <> [] ->
  (forall b d, (b < B)%nat -> (d < M)%nat -> zero d = true ->
     item confidences [b; d] = Fin 0) ->
  (forall b d, (b < B)%nat -> (d < M)%nat -> zero d = true ->
     Binary32.raw_error gt pred avails T C b d <> NaN) ->
  let keep := remaining_modes zero M in
  Binary32.batch_nll gt (index_select1 pred keep) (index_select1 confidences keep)
    avails (length keep) T C B =
  Binary32.batch_nll gt pred confidences avails M T C B.
Proof.
  intros Hne Hz Hn keep. unfold Binary32.batch_nll, Rounded.batch_nll. f_equal.
  apply rounded_sum_ext; intros b Hb. symmetry.
  apply (sample_nll32_select gt pred confidences avails M T C b zero Hne).
  - intros d Hd Hzd. now apply Hz.
  - intros d Hd Hzd. now apply Hn.
Qed.

Lemma remaining_modes_count (zero : nat -> bool) (M : nat) :
  remaining_modes zero M <> [] -> (0 < M)%nat.
Proof.
  intros Hne. destruct M; [|lia]. now contradiction Hne.
Qed.

(** C7, as amended.  In [float32], a mode of confidence exactly 0 whose
    raw error is not NaN has the log-score [log 0 - 0.5 * error = -inf]
    and is dropped.  The loss of a valid batch is the mean of the
    per-sample values [sample_nll]; in each sample the modes of
    confidence 0 with a raw error other than NaN have log-score [-inf]
    and [sample_nll] is the value computed over the remaining modes
    only, as long as a mode remains; and when the same modes have
    confidence 0 in every sample, the loss is the loss of the batch
    restricted to the remaining modes. *)
Theorem zero_confidence_modes_without_nan_are_dropped
    (gt pred confidences avails : Tensor) (B M T C : nat) :
  Binary32.valid_inputs gt pred confidences avails B M T C ->
  ((0 < M)%nat ->
   Binary32.pytorch_neg_multi_log_likelihood_batch gt pred confidences avails =
   Ok (Binary32.div
         (Binary32.range_sum B (Binary32.sample_nll gt pred confidences avails M T C))
         (Fin (INR B)))) /\
  (forall b zero,
     (b < B)%nat ->
     remaining_modes zero M <> [] ->
     (forall d, (d < M)%nat -> zero d = true -> item confidences [b; d] = Fin 0) ->
     (forall d, (d < M)%nat -> zero d = true ->
        Binary32.raw_error gt pred avails T C b d <> NaN) ->
     (forall d, (d < M)%nat -> zero d = true ->
        Binary32.log (item confidences [b; d]) = NInf /\
        Binary32.log_score gt pred confidences avails T C b d = NInf) /\
     Binary32.sample_nll gt pred confidences avails M T C b =
     Binary32.sample_nll gt
       (index_select1 pred (remaining_modes zero M))
       (index_select1 confidences (remaining_modes zero M))
       avails (length (remaining_modes zero M)) T C b) /\
  (forall zero,
     remaining_modes zero M <> [] ->
     (forall b d, (b < B)%nat -> (d < M)%nat -> zero d = true ->
        item confidences [b; d] = Fin 0) ->
     (forall b d, (b < B)%nat -> (d < M)%nat -> zero d = true ->
        Binary32.raw_error gt pred avails T C b d <> NaN) ->
     exists loss,
       Binary32.pytorch_neg_multi_log_likelihood_batch gt pred confidences avails
         = Ok loss /\
       Binary32.pytorch_neg_multi_log_likelihood_batch gt
         (index_select1 pred (remaining_modes zero M))
         (index_select1 confidences (remaining_modes zero M)) avails
         = Ok loss).
Proof.
  intros V. split; [|split].
  - intros HM. now apply batch32_entries.
  - intros b zero Hb Hne Hz Hn. split.
    + intros d Hd Hzd.
      apply zero_confidence_score32; [now apply Hz | now apply Hn].
    + now apply (sample_nll32_select gt pred confidences avails M T C b zero).
  - intros zero Hne Hz Hn.
    exists (Binary32.batch_nll gt pred confidences avails M T C B). split.
    + apply batch32_entries; [assumption|].
      now apply (remaining_modes_count zero M).
    + rewrite <- (select_nll32 gt pred confidences avails B M T C zero)
        by assumption.
      apply batch32_entries.
      * now apply (select_valid32 gt pred confidences avails B M T C zero).
      * destruct (remaining_modes zero M); [congruence | simpl; lia].
Qed.

(** ** Reordered modes in [float32] *)

Lemma exp32_value (a : scalar) : nonneg_value (Binary32.exp a).
Proof.
  unfold32. destruct a as [x| | |]; simpl.
  - pose proof (exp_pos x).
    destruct (overflow32_nonneg (exp x)) as [-> | ->]; [lra | |].
    + right; now left.
    + right; right. exists (exp x). split; [reflexivity | lra].
  - right; now left.
  - rewrite overflow32_0. right; right. exists 0. split; [reflexivity | lra].
  - now left.
Qed.

Lemma fadd_value (a b : scalar) :
  nonneg_value a -> nonneg_value b -> nonneg_value (fadd a b).
Proof.
  intros [-> | [-> | (x & -> & Hx)]] [-> | [-> | (y & -> & Hy)]]; simpl;
    try (now left); try (right; now left).
  right; right. exists (x + y). split; [reflexivity | lra].
Qed.

Lemma fold_fadd_value (l : list scalar) :
  (forall a, In a l -> nonneg_value a) ->
  nonneg_value (fold_right fadd (Fin 0) l).
Proof.
  induction l as [|a l IH]; intros H; simpl.
  - right; right. exists 0. split; [reflexivity | lra].
  - apply fadd_value; [apply H; simpl; auto|].
    apply IH. intros; apply H; simpl; auto.
Qed.

(** Adding to a sum that has overflowed, or to the exact sum, gives
    the same [float32] value when nothing is negative. *)
Lemma add32_after_overflow (a e : scalar) :
  nonneg_value a -> nonneg_value e ->
  overflow32 (fadd a (overflow32 e)) = overflow32 (fadd a e).
Proof.
  intros Ha [-> | [-> | (y & -> & Hy)]]; try reflexivity.
  unfold overflow32 at 2.
  destruct (Rltb max_float32 y) eqn:E1.
  - assert (Hy' : max_float32 < y).
    { unfold Rltb in E1. destruct (Rlt_dec max_float32 y); [assumption | discriminate]. }
    destruct Ha as [-> | [-> | (x & -> & Hx)]]; try reflexivity.
    simpl. symmetry. apply overflow32_above. lra.
  - pose proof max_float32_ge_1. now rewrite Rltb_false by lra.
Qed.

(** A [float32] sum of non-negative values is the exact sum brought
    into the range: it does not depend on the order of the terms. *)
Lemma fold32_exact (l : list scalar) :
  (forall a, In a l -> nonneg_value a) ->
  Rounded.sum_list overflow32 l = overflow32 (fold_right fadd (Fin 0) l).
Proof.
  induction l as [|a l IH] using rev_ind; intros H.
  - symmetry. apply overflow32_0.
  - rewrite sum_list_snoc.
    rewrite IH by (intros; apply H, in_app_iff; auto).
    rewrite (fold_right_perm fadd (Fin 0) fadd_comm fadd_assoc (l ++ [a]) (a :: l))
      by (apply Permutation_sym, Permutation_cons_append).
    simpl. unfold Rounded.add. rewrite (fadd_comm (overflow32 _) a).
    apply add32_after_overflow.
    + apply H, in_app_iff. simpl; auto.
    + apply fold_fadd_value. intros; apply H, in_app_iff; auto.
Qed.

Lemma fold32_perm (l1 l2 : list scalar) :
  Permutation l1 l2 ->
  (forall a, In a l1 -> nonneg_value a) ->
  Rounded.sum_list overflow32 l1 = Rounded.sum_list overflow32 l2.
Proof.
  intros Hperm H.
  rewrite (fold32_exact l1 H).
  rewrite (fold32_exact l2)
    by (intros a Ha; apply H; now apply (Permutation_in _ (Permutation_sym Hperm))).
  f_equal. now apply (fold_right_perm fadd (Fin 0) fadd_comm fadd_assoc).
Qed.

Lemma permuted_in_range (p : list nat) (M i : nat) :
  Permutation p (seq 0 M) -> (i < length p)%nat -> (nth i p 0 < M)%nat.
Proof.
  intros Hperm Hi.
  assert (Hin : In (nth i p 0%nat) (seq 0 M)).
  { apply (Permutation_in _ Hperm). now apply nth_In. }
  apply in_seq in Hin. lia.
Qed.

(** The row reduction of lines 255-256 does not depend on the order of
    the modes. *)
Lemma nll32_row_perm (s : nat -> scalar) (p : list nat) (M : nat) :
  Permutation p (seq 0 M) ->
  Binary32.sub
    (fneg (Binary32.log (Binary32.range_sum M (fun m =>
       Binary32.exp (Binary32.sub (s m) (range_max M s))))))
    (range_max M s) =
  let s' i := s (nth i p 0%nat) in
  let n := length p in
  Binary32.sub
    (fneg (Binary32.log (Binary32.range_sum n (fun i =>
       Binary32.exp (Binary32.sub (s' i) (range_max n s'))))))
    (range_max n s').
Proof.
  intros Hperm. cbv zeta.
  rewrite (range_max_select s p).
  unfold Binary32.range_sum.
  rewrite (rounded_sum_select overflow32
             (fun k => Binary32.exp (Binary32.sub (s k) _)) p).
  assert (Hmax : range_max M s = fold_right fmax NInf (map s p)).
  { unfold range_max. symmetry.
    apply (fold_right_perm fmax NInf fmax_comm fmax_assoc).
    now apply Permutation_map. }
  rewrite Hmax. f_equal. do 2 f_equal.
  unfold Rounded.range_sum. symmetry. apply fold32_perm.
  - now apply Permutation_map.
  - intros a Ha. apply in_map_iff in Ha as (k & <- & _). apply exp32_value.
Qed.

Lemma permuted_valid32 (gt pred confidences avails : Tensor) (B M T C : nat)
    (p : list nat) :
  Binary32.valid_inputs gt pred confidences avails B M T C ->
  Permutation p (seq 0 M) ->
  Rounded.rows_sum_to_one overflow32 (index_select1 confidences p) B M ->
  Binary32.valid_inputs gt (index_select1 pred p) (index_select1 confidences p)
    avails B M T C.
Proof.
  intros [[Hp Hg Hc Ha _ _ _ _ _] Fp Fg Fc Fa] Hperm Hrows.
  assert (Hlen : length p = M).
  { apply Permutation_length in Hperm. now rewrite length_seq in Hperm. }
  assert (Fp' : float32_on (index_select1 pred p)).
  { intros idx Hin. unfold index_select1 in *. simpl in *.
    rewrite Hp in Hin. simpl in Hin.
    apply indices_4 in Hin as (b & m & t & c & -> & Hb & Hm & Ht & Hcc).
    simpl. apply Fp, in_indices. rewrite Hp.
    repeat constructor; try assumption. now apply permuted_in_range. }
  assert (Fc' : float32_on (index_select1 confidences p)).
  { intros idx Hin. unfold index_select1 in *. simpl in *.
    rewrite Hc in Hin. simpl in Hin.
    apply indices_2 in Hin as (b & m & -> & Hb & Hm).
    simpl. apply Fc, in_indices. rewrite Hc.
    repeat constructor; try assumption. now apply permuted_in_range. }
  split; try assumption.
  split; try assumption; try (now apply float32_finite).
  - unfold index_select1. simpl. now rewrite Hp, Hlen.
  - unfold index_select1. simpl. now rewrite Hc, Hlen.
Qed.

(** Non-negative confidences pass the check of line 234 in every
    order of the modes. *)
Lemma nonneg_rows_permuted (confidences : Tensor) (B M : nat) (p : list nat) :
  shape confidences = [B; M] -> float32_on confidences ->
  (forall b m, (b < B)%nat -> (m < M)%nat -> 0 <= to_R (item confidences [b; m])) ->
  Rounded.rows_sum_to_one overflow32 confidences B M ->
  Permutation p (seq 0 M) ->
  Rounded.rows_sum_to_one overflow32 (index_select1 confidences p) B M.
Proof.
  intros Hc Fc Hnn Hrows Hperm b Hb.
  assert (Hlen : length p = M).
  { apply Permutation_length in Hperm. now rewrite length_seq in Hperm. }
  rewrite <- (Hrows b Hb). f_equal.
  change (Rounded.range_sum overflow32 M
            (fun i => item confidences [b; nth i p 0%nat]) =
          Rounded.range_sum overflow32 M (fun m => item confidences [b; m])).
  rewrite <- Hlen at 1.
  rewrite (rounded_sum_select overflow32 (fun m => item confidences [b; m]) p).
  unfold Rounded.range_sum. apply fold32_perm.
  - now apply Permutation_map.
  - intros a Ha. apply in_map_iff in Ha as (m & <- & Hm).
    apply (Permutation_in _ Hperm), in_seq in Hm.
    destruct (float32_at2 confidences B M b m Fc Hc Hb) as (r & Er & _); [lia|].
    specialize (Hnn b m Hb ltac:(lia)). rewrite Er in Hnn |- *. simpl in Hnn.
    right; right. exists r. split; [reflexivity | exact Hnn].
Qed.


(** ** Samples of a batch in [float32] *)

Lemma sample_nll32_fixed (gt pred confidences avails : Tensor) (M T C b : nat) :
  overflow32 (Binary32.sample_nll gt pred confidences avails M T C b) =
  Binary32.sample_nll gt pred confidences avails M T C b.
Proof.
  unfold Binary32.sample_nll, Rounded.sample_nll, Rounded.sub. cbv zeta.
  apply overflow32_idem.
Qed.

Lemma mean32_of_one (f : nat -> scalar) :
  overflow32 (f 0%nat) = f 0%nat ->
  Binary32.div (Binary32.range_sum 1 f) (Fin (INR 1)) = f 0%nat.
Proof.
  intros Hf. rewrite sum32_1, Hf. unfold32.
  destruct (f 0%nat) as [x| | |] eqn:E; simpl.
  - rewrite Rltb_true by lra.
    replace (x / 1) with x by field. exact Hf.
  - now rewrite Rltb_false by lra.
  - now rewrite Rltb_false by lra.
  - reflexivity.
Qed.

Lemma slice_float32 (x : Tensor) (shp : list nat) (B b : nat) :
  shape x = B :: shp -> (b < B)%nat -> float32_on x ->
  float32_on (batch_slice x b).
Proof.
  intros Hs Hb Fx idx Hin. unfold batch_slice in *. simpl in *.
  rewrite Hs in Hin. simpl in Hin. rewrite app_nil_r in Hin.
  apply in_map_iff in Hin as (rest & <- & Hrest). simpl.
  apply Fx. rewrite Hs. simpl.
  apply in_flat_map. exists b. split; [apply in_seq; lia|].
  change (replace_at 0 b (0%nat :: rest)) with (b :: rest).
  now apply in_map.
Qed.

Lemma slice_valid32 (gt pred confidences avails : Tensor) (B M T C b : nat) :
  Binary32.valid_inputs gt pred confidences avails B M T C -> (b < B)%nat ->
  Binary32.valid_inputs (batch_slice gt b) (batch_slice pred b)
    (batch_slice confidences b) (batch_slice avails b) 1 M T C.
Proof.
  intros [[Hp Hg Hc Ha Hsum _ _ _ _] Fp Fg Fc Fa] Hb.
  assert (Fp' := slice_float32 pred _ B b Hp Hb Fp).
  assert (Fg' := slice_float32 gt _ B b Hg Hb Fg).
  assert (Fc' := slice_float32 confidences _ B b Hc Hb Fc).
  assert (Fa' := slice_float32 avails _ B b Ha Hb Fa).
  split; try assumption.
  split; try (now apply float32_finite).
  - unfold batch_slice. simpl. now rewrite Hp.
  - unfold batch_slice. simpl. now rewrite Hg.
  - unfold batch_slice. simpl. now rewrite Hc.
  - unfold batch_slice. simpl. now rewrite Ha.
  - intros b0 Hb0. replace b0 with 0%nat by lia. apply (Hsum b Hb).
Qed.

(** X9.  In [float32] the loss of a batch is the mean of the losses of
    its samples: each sample, taken as a batch of one, gets a loss,
    and the loss of the whole batch is their [float32] sum divided by
    the batch size. *)
Theorem loss_is_mean_of_sample_losses
    (gt pred confidences avails : Tensor) (B M T C : nat) :
  Binary32.valid_inputs gt pred confidences avails B M T C -> (0 < M)%nat ->
  exists sample_loss : nat -> scalar,
    (forall b, (b < B)%nat ->
       Binary32.pytorch_neg_multi_log_likelihood_batch (batch_slice gt b)
         (batch_slice pred b) (batch_slice confidences b) (batch_slice avails b)
       = Ok (sample_loss b)) /\
    Binary32.pytorch_neg_multi_log_likelihood_batch gt pred confidences avails =
    Ok (Binary32.div (Binary32.range_sum B sample_loss) (Fin (INR B))).
Proof.
  intros V HM.
  exists (Binary32.sample_nll gt pred confidences avails M T C). split.
  - intros b Hb.
    rewrite (batch32_entries _ _ _ _ 1 M T C
               (slice_valid32 gt pred confidences avails B M T C b V Hb) HM).
    f_equal.
    change (Binary32.batch_nll (batch_slice gt b) (batch_slice pred b)
              (batch_slice confidences b) (batch_slice avails b) M T C 1)
      with (Binary32.div
              (Binary32.range_sum 1
                 (Binary32.sample_nll (batch_slice gt b) (batch_slice pred b)
                    (batch_slice confidences b) (batch_slice avails b) M T C))
              (Fin (INR 1))).
    rewrite mean32_of_one by apply sample_nll32_fixed. reflexivity.
  - now apply batch32_entries.
Qed.

(** ** One mode of confidence 1 among modes of confidence 0 *)

Lemma filter_only (M k : nat) :
  (k < M)%nat ->
  remaining_modes (fun m => negb (m =? k)%nat) M = [k].
Proof.
  intros Hk. unfold remaining_modes.
  rewrite (filter_ext _ (fun m => (m =? k)%nat))
    by (intros m; apply negb_involutive).
  assert (Hgen : forall n s, (s <= k < s + n)%nat ->
            filter (fun m => (m =? k)%nat) (seq s n) = [k]).
  { induction n as [|n IH]; intros s Hs; [lia|]. simpl.
    destruct (Nat.eqb_spec s k) as [-> | Hne].
    - f_equal.
      assert (Hnone : forall n' s', (k < s')%nat ->
                filter (fun m => (m =? k)%nat) (seq s' n') = []).
      { induction n' as [|n' IH']; intros s' Hs'; [reflexivity|]. simpl.
        destruct (Nat.eqb_spec s' k); [lia|]. apply IH'. lia. }
      apply Hnone. lia.
    - apply IH. lia. }
  apply Hgen. lia.
Qed.

Lemma batch_nll32_same_scores
    (gt1 pred1 conf1 gt2 pred2 conf2 avails1 avails2 : Tensor) (B M T C : nat) :
  (forall b m, (b < B)%nat -> (m < M)%nat ->
     Binary32.log_score gt1 pred1 conf1 avails1 T C b m =
     Binary32.log_score gt2 pred2 conf2 avails2 T C b m) ->
  Binary32.batch_nll gt1 pred1 conf1 avails1 M T C B =
  Binary32.batch_nll gt2 pred2 conf2 avails2 M T C B.
Proof.
  intros H. unfold Binary32.batch_nll, Rounded.batch_nll. f_equal.
  apply rounded_sum_ext; intros b Hb.
  unfold Rounded.sample_nll. cbv zeta.
  rewrite (range_max_ext M _ (Rounded.log_score overflow32 gt2 pred2 conf2 avails2 T C b))
    by (intros; now apply H).
  do 3 f_equal. apply rounded_sum_ext; intros m Hm.
  unfold Binary32.log_score in H. now rewrite H.
Qed.

(** X14.  In [float32] the multi-mode loss extends the single-mode
    loss: when mode [k] has confidence 1 in every sample, the other
    modes have confidence 0 and none of their raw errors is NaN, the
    loss of a valid batch is the single-mode loss of the trajectories
    [pred[:, k]]. *)
Theorem one_hot_confidence_gives_single_loss
    (gt pred confidences avails : Tensor) (B M T C k : nat) :
  Binary32.valid_inputs gt pred confidences avails B M T C ->
  (k < M)%nat ->
  (forall b, (b < B)%nat -> item confidences [b; k] = Fin 1) ->
  (forall b m, (b < B)%nat -> (m < M)%nat -> m <> k ->
     item confidences [b; m] = Fin 0) ->
  (forall b m, (b < B)%nat -> (m < M)%nat -> m <> k ->
     Binary32.raw_error gt pred avails T C b m <> NaN) ->
  exists loss,
    Binary32.pytorch_neg_multi_log_likelihood_batch gt pred confidences avails
      = Ok loss /\
    Binary32.pytorch_neg_multi_log_likelihood_single gt (select_mode pred k) avails
      = Ok loss.
Proof.
  intros V Hk Hone Hzero Hnan.
  pose proof V as [[Hp Hg Hc Ha _ _ _ _ _] Fp Fg Fc Fa].
  set (zero := fun m => negb (m =? k)%nat).
  assert (Hkeep : remaining_modes zero M = [k]) by (now apply filter_only).
  assert (Hne : forall m, zero m = true -> m <> k).
  { intros m Hz. unfold zero in Hz. apply negb_true_iff, Nat.eqb_neq in Hz. exact Hz. }
  exists (Binary32.batch_nll gt pred confidences avails M T C B). split.
  - apply batch32_entries; [exact V | lia].
  - assert (Hs : shape (select_mode pred k) = [B; T; C]).
    { unfold select_mode. simpl. now rewrite Hp. }
    rewrite (single32_unfold gt (select_mode pred k) avails B T C Hs).
    rewrite (batch32_entries _ _ _ _ B 1 T C) by
      (try lia; apply single_inputs_valid32; try assumption;
       now apply (select_mode_float32 pred B M T C)).
    f_equal.
    rewrite <- (select_nll32 gt pred confidences avails B M T C zero).
    + rewrite Hkeep. cbn [length].
      apply batch_nll32_same_scores. intros b m Hb Hm.
      replace m with 0%nat by lia.
      unfold Binary32.log_score, Rounded.log_score. f_equal.
      cbn [index_select1 item nth replace_at firstn skipn app new_ones].
      now rewrite Hone.
    + rewrite Hkeep. discriminate.
    + intros b d Hb Hd Hz. apply Hzero; auto.
    + intros b d Hb Hd Hz. apply Hnan; auto.
Qed.

(** ** Rows of confidences that fail the check *)

Lemma batch32_row_off (gt pred confidences avails : Tensor) (B M T C b : nat) :
  shape pred = [B; M; T; C] -> shape gt = [B; T; C] ->
  shape confidences = [B; M] -> (b < B)%nat ->
  isclose (Binary32.range_sum M (fun m => item confidences [b; m])) (Fin 1) = false ->
  Binary32.pytorch_neg_multi_log_likelihood_batch gt pred confidences avails =
  Raise (AssertionError "confidences should sum to 1").
Proof.
  intros Hp Hg Hc Hb Hoff.
  unfold Binary32.pytorch_neg_multi_log_likelihood_batch,
    Rounded.pytorch_neg_multi_log_likelihood_batch.
  rewrite Hp, Hg, Hc. simpl length. simpl Nat.eqb. cbn [assert bind].
  rewrite !shape_eqb_refl. cbn [assert bind].
  unfold allclose, broadcast_shapes. simpl. rewrite Hc. simpl.
  rewrite bdim_refl. cbn [bind].
  match goal with |- context [assert ?c _] => destruct c eqn:Hclose end;
    [|reflexivity].
  exfalso. rewrite forallb_forall in Hclose.
  specialize (Hclose [b] (in_indices_1 B b Hb)).
  unfold bcast_index in Hclose; simpl in Hclose.
  rewrite (clamp_lt B b Hb) in Hclose.
  change (isclose (Binary32.range_sum M (fun m => item confidences [b; m])) (Fin 1)
          = true) in Hclose.
  rewrite Hoff in Hclose. discriminate.
Qed.

Lemma log_score32_negative (gt pred confidences avails : Tensor) (T C b m : nat) (x : R) :
  item confidences [b; m] = Fin x -> x < 0 ->
  Binary32.log_score gt pred confidences avails T C b m = NaN.
Proof.
  intros Hc Hx. unfold Binary32.log_score, Rounded.log_score. rewrite Hc.
  unfold32. simpl. rewrite Rltb_false by lra. rewrite Rltb_true by exact Hx.
  reflexivity.
Qed.

(** ** The evaluation step *)

Import LyftMultiModel.

Lemma range_sum_Rsum (n : nat) (f : nat -> scalar) (g : nat -> R) :
  (forall i, (i < n)%nat -> f i = Fin (g i)) ->
  range_sum n f = Fin (Rsum n g).
Proof.
  intros H. induction n as [|n IH]; [reflexivity|].
  rewrite range_sum_S, Rsum_S, IH, H by auto. reflexivity.
Qed.

(** A finite output of a linear layer is a [float32] number. *)
Lemma last_layer_float32 (model : Model) (x logits : Tensor) (b j : nat) (r : R) :
  last_layer_output model x = Ok logits ->
  item logits [b; j] = Fin r -> in_range32 r.
Proof.
  unfold last_layer_output.
  destruct (backbone_forward (backbone model) x) as [x0|e]; cbn [bind]; [|discriminate].
  destruct (linear_forward (head model) x0) as [x1|e]; cbn [bind]; [|discriminate].
  intros E Hr. apply linear_forward_inv in E as (bs & _ & _ & Hitem).
  rewrite Hitem in Hr. unfold Binary32.add, Rounded.add in Hr.
  now apply overflow32_Fin_inv in Hr.
Qed.

(** A decoder output with finite trajectories and rows of confidences
    that form distributions is a valid input of the loss. *)
Lemma decoder_output_valid32
    (targets pred confidences avails : Tensor) (B M T : nat) :
  shape targets = [B; T; 2%nat] -> shape avails = [B; T] ->
  float32_on targets -> float32_on avails ->
  shape pred = [B; M; T; 2%nat] -> shape confidences = [B; M] ->
  float32_on pred ->
  (forall b, (b < B)%nat ->
     (forall m, (m < M)%nat ->
        exists r, item confidences [b; m] = Fin r /\ 0 <= r) /\
     range_sum M (fun m => item confidences [b; m]) = Fin 1) ->
  Binary32.valid_inputs targets pred confidences avails B M T 2.
Proof.
  intros Hg Ha Fg Fa Hp Hc Fp Hconf.
  assert (Hreal : forall b, (b < B)%nat ->
            (forall m, (m < M)%nat ->
               item confidences [b; m] = Fin (to_R (item confidences [b; m])) /\
               0 <= to_R (item confidences [b; m])) /\
            Rsum M (fun m => to_R (item confidences [b; m])) = 1).
  { intros b Hb. destruct (Hconf b Hb) as [Hpos Hsum].
    assert (Hm : forall m, (m < M)%nat ->
              item confidences [b; m] = Fin (to_R (item confidences [b; m])) /\
              0 <= to_R (item confidences [b; m])).
    { intros m Hm. destruct (Hpos m Hm) as (r & -> & Hr). split; [reflexivity | exact Hr]. }
    split; [exact Hm|].
    rewrite (range_sum_Rsum M _ (fun m => to_R (item confidences [b; m]))) in Hsum
      by (intros m Hm'; now apply Hm).
    now injection Hsum. }
  assert (Fc : float32_on confidences).
  { intros idx Hin. rewrite Hc in Hin.
    apply indices_2 in Hin as (b & m & -> & Hb & Hm).
    destruct (Hreal b Hb) as [Hpos Hsum].
    destruct (Hpos m Hm) as [E Hr].
    exists (to_R (item confidences [b; m])). split; [exact E|].
    pose proof (Rsum_ge_term M (fun m => to_R (item confidences [b; m])) m
                  (fun j Hj => proj2 (Hpos j Hj)) Hm) as Hle.
    cbv beta in Hle. pose proof max_float32_ge_1.
    unfold in_range32. lra. }
  split; try assumption.
  split; try assumption; try (now apply float32_finite).
  intros b Hb. destruct (Hreal b Hb) as [Hpos Hsum].
  change (Rounded.range_sum overflow32 M) with (Binary32.range_sum M).
  rewrite (sum32_Rsum M _ (fun m => to_R (item confidences [b; m]))).
  - rewrite Hsum. now apply isclose_Fin_eq.
  - intros m Hm. now apply Hpos.
  - intros m Hm. now apply Hpos.
  - rewrite Hsum. apply max_float32_ge_1.
Qed.

(** X13.  The evaluation step does not trip the assertions of the loss
    on the model's own output: for a model built by the constructor
    for [M >= 1] modes and a horizon of at least one frame, and a
    batch holding rasters, [float32] target positions of shape
    [(B, future_len, 2)] and [float32] availabilities of shape
    [(B, future_len)], whenever the layers run through with a finite
    output of the last layer, [forward] with the multi-mode loss as
    criterion returns a loss, the predictions and the confidences. *)
Theorem evaluation_step_returns_a_loss
    (theta : Parameters) (c : model_params)
    (data : list (string * Tensor)) (x targets avails logits : Tensor)
    (M B ch h w : nat) (model : Model) :
  __init__ theta c M = Ok model ->
  (0 < M)%nat -> (0 < future_num_frames c)%nat ->
  Wrapper.getitem data "image" = Some x ->
  Wrapper.getitem data "target_availabilities" = Some avails ->
  Wrapper.getitem data "target_positions" = Some targets ->
  shape x = [B; ch; h; w] ->
  shape targets = [B; future_num_frames c; 2%nat] ->
  shape avails = [B; future_num_frames c] ->
  float32_on targets -> float32_on avails ->
  last_layer_output model x = Ok logits ->
  (forall b j, (b < B)%nat -> (j < 2 * future_num_frames c * M + M)%nat ->
     isfinite (item logits [b; j]) = true) ->
  exists loss preds confidences,
    Wrapper.forward data model Binary32.pytorch_neg_multi_log_likelihood_batch =
    Wrapper.Done (loss, preds, confidences).
Proof.
  intros Hinit HM Hf Himg Hav Htg Hx Hg Ha Fg Fa Hlast Hfin.
  destruct (forward_decodes theta c x logits M B ch h w model Hinit HM Hf Hx Hlast)
    as (preds & confidences & Hfwd & _ & Sp & Sc & Hpred & Hconf).
  set (f := future_num_frames c) in *.
  assert (Fp : float32_on preds).
  { intros idx Hin. rewrite Sp in Hin.
    apply indices_4 in Hin as (b & m & t & k & -> & Hb & Hm & Ht & Hk).
    rewrite Hpred by assumption.
    pose proof (trajectory_offset M f m t k Hm Ht Hk) as Hoff.
    destruct (isfinite_Fin _ (Hfin b ((m * f + t) * 2 + k)%nat Hb ltac:(lia)))
      as [r Hr].
    exists r. split; [exact Hr|].
    exact (last_layer_float32 model x logits b _ r Hlast Hr). }
  assert (Hrows : forall b, (b < B)%nat ->
            (forall m, (m < M)%nat ->
               exists r, item confidences [b; m] = Fin r /\ 0 <= r) /\
            range_sum M (fun m => item confidences [b; m]) = Fin 1).
  { intros b Hb.
    apply (confidences_of_finite_logits logits confidences M (2 * f * M) b HM).
    - intros m Hm. apply Hfin; [assumption | lia].
    - intros m Hm. now apply Hconf. }
  pose proof (decoder_output_valid32 targets preds confidences avails B M f
                Hg Ha Fg Fa Sp Sc Fp Hrows) as V.
  exists (Binary32.batch_nll targets preds confidences avails M f 2 B),
         preds, confidences.
  unfold Wrapper.forward. rewrite Himg, Hav, Htg, Hfwd. cbn [bind].
  rewrite (batch32_entries _ _ _ _ B M f 2 V HM). reflexivity.
Qed.

(** ** The further theorems at sample inputs *)

Lemma signed_confidences_valid :
  valid_inputs gt_ones two_modes_zeros signed_confidences avails_ones 1 2 1 2.
Proof.
  split; try reflexivity; try apply full_finite.
  - intros b _. unfold range_sum. simpl. apply isclose_Fin_eq. lra.
  - intros idx _. simpl. destruct (nth 1 idx 0 =? 0)%nat; reflexivity.
Qed.

Lemma moved_valid :
  valid_inputs gt_moved one_mode_moved one_mode_confidence avails_ones 1 1 1 2.
Proof.
  apply (full_valid _ _ _ _ 1 1 1 2 4 3 1 1); try reflexivity.
  simpl. lra.
Qed.


Lemma empty_batch_witness :
  pytorch_neg_multi_log_likelihood_batch
    (full [0; 1; 2]%nat 0) (full [0; 2; 1; 2]%nat 0)
    (full [0; 2]%nat 0) (full [0; 1]%nat 0) = Ok NaN.
Proof.
  apply (empty_batch_loss (full [0; 1; 2]%nat 0) (full [0; 2; 1; 2]%nat 0)
           (full [0; 2]%nat 0) (full [0; 1]%nat 0) 2 1 2); reflexivity.
Defined.

Lemma no_modes_witness :
  pytorch_neg_multi_log_likelihood_batch
    gt_ones (full [1; 0; 1; 2]%nat 0) (full [1; 0]%nat 0) avails_ones =
  Raise (AssertionError "confidences should sum to 1").
Proof.
  apply (no_modes_rejected gt_ones (full [1; 0; 1; 2]%nat 0)
           (full [1; 0]%nat 0) avails_ones 1 1 2); try reflexivity.
  lia.
Defined.

Lemma common_offset_witness :
  pytorch_neg_multi_log_likelihood_batch
    gt_moved one_mode_moved one_mode_confidence avails_ones =
  pytorch_neg_multi_log_likelihood_batch
    gt_ones one_mode_zeros one_mode_confidence avails_ones.
Proof.
  apply (loss_invariant_under_common_offset gt_ones one_mode_zeros
           gt_moved one_mode_moved one_mode_confidence avails_ones 1 1 1 2
           (fun _ _ _ => 3)).
  - exact one_mode_valid.
  - exact moved_valid.
  - intros b t c _ _ _. simpl. f_equal; lra.
  - intros b m t c _ _ _ _. simpl. f_equal; lra.
Defined.

(** ** The loss at the edge of the [float32] range *)

Lemma in_range32_two_127 : in_range32 two_127 /\ in_range32 (- two_127).
Proof. unfold in_range32, two_127, max_float32. lra. Qed.

Lemma sure_mode_valid32 (gt pred confidences avails : Tensor) (B T C : nat) :
  shape gt = [B; T; C] -> shape pred = [B; 1%nat; T; C] ->
  shape confidences = [B; 1%nat] -> shape avails = [B; T] ->
  float32_on gt -> float32_on pred -> float32_on confidences -> float32_on avails ->
  (forall b, (b < B)%nat -> item confidences [b; 0%nat] = Fin 1) ->
  Binary32.valid_inputs gt pred confidences avails B 1 T C.
Proof.
  intros Hg Hp Hc Ha Fg Fp Fc Fa H1.
  split; try assumption.
  split; try assumption; try (now apply float32_finite).
  now apply single_rows32.
Qed.

Lemma one_mode_valid32 (gt pred avails : Tensor) (B T C : nat) :
  shape gt = [B; T; C] -> shape pred = [B; 1%nat; T; C] -> shape avails = [B; T] ->
  float32_on gt -> float32_on pred -> float32_on avails ->
  Binary32.valid_inputs gt pred (full [B; 1%nat] 1) avails B 1 T C.
Proof.
  intros Hg Hp Ha Fg Fp Fa.
  apply sure_mode_valid32; try assumption; try reflexivity.
  apply float32_full, in_range32_1.
Qed.

Lemma batch_nll32_one_sample (gt pred confidences avails : Tensor) (M T C : nat) :
  Binary32.batch_nll gt pred confidences avails M T C 1 =
  overflow32 (fdiv (overflow32 (Binary32.sample_nll gt pred confidences avails M T C 0))
                   (Fin 1)).
Proof.
  unfold Binary32.batch_nll, Rounded.batch_nll.
  change (Rounded.range_sum overflow32 1) with (Binary32.range_sum 1).
  rewrite sum32_1. reflexivity.
Qed.

Lemma low_valid :
  Binary32.valid_inputs gt_low one_mode_low one_mode_confidence avails_none 1 1 1 2.
Proof.
  apply one_mode_valid32; try reflexivity; apply float32_full;
    try apply in_range32_two_127; apply in_range32_0.
Qed.

Lemma high_valid :
  Binary32.valid_inputs gt_low one_mode_high one_mode_confidence avails_none 1 1 1 2.
Proof.
  apply one_mode_valid32; try reflexivity; apply float32_full;
    try apply in_range32_two_127; apply in_range32_0.
Qed.

(** A masked prediction equal to the ground truth: the loss is 0. *)
Lemma masked_exact_loss (pred confidences : Tensor) :
  Binary32.valid_inputs gt_low pred confidences avails_none 1 1 1 2 ->
  item confidences [0; 0]%nat = Fin 1 ->
  (forall c, item pred [0; 0; 0; c]%nat = Fin (- two_127)) ->
  Binary32.pytorch_neg_multi_log_likelihood_batch
    gt_low pred confidences avails_none = Ok (Fin 0).
Proof.
  intros V Hc Hp. pose proof V as [[Sp Sg _ _ _ Fp Fg _ _] _ _ _ _].
  rewrite (batch32_entries _ _ _ _ 1 1 1 2 V) by lia. f_equal.
  rewrite batch_nll32_one_sample.
  rewrite (sample_nll32_single _ _ _ _ 1 2 0 0).
  - rewrite overflow32_0. simpl. rewrite Rltb_true by lra.
    unfold Rdiv. rewrite Rmult_0_l. apply overflow32_0.
  - replace (- 0) with (- (1 / 2 * 0)) by lra.
    apply log_score32_sure; [exact Hc | | pose proof max_float32_ge_1; lra].
    unfold Binary32.raw_error, Rounded.raw_error.
    apply sum32_zero. intros t Ht.
    apply (step_error32_masked gt_low pred avails_none 1 1 1 2 0 0 t);
      try assumption; try reflexivity; try lia.
    intros c _. replace t with 0%nat by lia. rewrite Hp. simpl.
    replace (- two_127 - - two_127) with 0 by lra.
    apply in_range32_0.
  - pose proof max_float32_ge_1. lra.
Qed.

Lemma low_loss :
  Binary32.pytorch_neg_multi_log_likelihood_batch
    gt_low one_mode_low one_mode_confidence avails_none = Ok (Fin 0).
Proof. apply (masked_exact_loss _ _ low_valid); reflexivity. Qed.

(** The masked prediction at [+2^127]: the difference overflows, its
    product with the mask is NaN, and so is the loss. *)
Lemma high_loss :
  Binary32.pytorch_neg_multi_log_likelihood_batch
    gt_low one_mode_high one_mode_confidence avails_none = Ok NaN.
Proof.
  rewrite (batch32_entries _ _ _ _ 1 1 1 2 high_valid) by lia. f_equal.
  apply (batch_nll32_NaN _ _ _ _ 1 1 1 2 0 0); try lia.
  apply log_score32_NaN.
  apply (sum32_NaN 1 0); [lia|].
  apply (sum32_NaN 2 0); [lia|].
  simpl. apply masked_term32_overflow.
  unfold two_127, max_float32. lra.
Qed.

(** C1, as stated, fails when a masked difference overflows: with the
    ground truth at [-2^127] and the only timestep masked, the
    prediction [-2^127] gives the loss 0 and the prediction [+2^127]
    gives NaN, both batches being valid. *)
Lemma masked_overflow_counterexample :
  Binary32.valid_inputs gt_low one_mode_low one_mode_confidence avails_none 1 1 1 2 /\
  Binary32.valid_inputs gt_low one_mode_high one_mode_confidence avails_none 1 1 1 2 /\
  item avails_none [0; 0]%nat = Fin 0 /\
  Binary32.pytorch_neg_multi_log_likelihood_batch
    gt_low one_mode_low one_mode_confidence avails_none = Ok (Fin 0) /\
  Binary32.pytorch_neg_multi_log_likelihood_batch
    gt_low one_mode_high one_mode_confidence avails_none = Ok NaN.
Proof.
  repeat split; try apply low_valid; try apply high_valid.
  - exact low_loss.
  - exact high_loss.
Qed.

Lemma two_steps_valid32 (pred : Tensor) :
  shape pred = [1; 1; 2; 2]%nat -> float32_on pred ->
  Binary32.valid_inputs gt_two_steps pred one_mode_confidence avails_first_only 1 1 2 2.
Proof.
  intros Hs Hf. apply one_mode_valid32; try reflexivity; try assumption.
  - apply float32_full, in_range32_0.
  - intros idx _. simpl. destruct (nth 1 idx 0 =? 0)%nat.
    + exists 1. split; [reflexivity | apply in_range32_1].
    + exists 0. split; [reflexivity | apply in_range32_0].
Qed.

Lemma in_range32_small (x : R) : -10 <= x <= 10 -> in_range32 x.
Proof. unfold in_range32, max_float32. lra. Qed.

Lemma masked_steps_in_range_witness :
  Binary32.pytorch_neg_multi_log_likelihood_batch
    gt_two_steps pred_two_steps one_mode_confidence avails_first_only =
  Binary32.pytorch_neg_multi_log_likelihood_batch
    gt_two_steps pred_two_steps_moved one_mode_confidence avails_first_only.
Proof.
  apply (masked_steps_in_range_do_not_contribute gt_two_steps pred_two_steps
           pred_two_steps_moved one_mode_confidence avails_first_only 1 1 2 2).
  - apply two_steps_valid32; [reflexivity | apply float32_full, in_range32_0].
  - apply two_steps_valid32; [reflexivity|].
    intros idx _. simpl. destruct (nth 2 idx 0 =? 1)%nat.
    + exists 5. split; [reflexivity | apply in_range32_small; lra].
    + exists 0. split; [reflexivity | apply in_range32_0].
  - intros b m t c _ _ Ht _. simpl.
    destruct t as [|[|t]]; simpl; [reflexivity | congruence | lia].
  - intros b m t c _ _ _ _ _. simpl.
    destruct (t =? 1)%nat; simpl; split; apply in_range32_small; lra.
Defined.

(** ** The squared error beyond the range *)

Lemma far_valid :
  Binary32.valid_inputs gt_far one_mode_zeros one_mode_confidence avails_ones 1 1 1 2.
Proof.
  apply one_mode_valid32; try reflexivity; apply float32_full;
    try apply in_range32_0; try apply in_range32_1.
  unfold in_range32, two_64, max_float32. lra.
Qed.

Lemma far_score (pred : Tensor) :
  (forall c, item pred [0; 0; 0; c]%nat = Fin 0) ->
  Binary32.log_score gt_far pred (new_ones [1; 1]%nat) avails_ones 1 2 0 0 = NInf.
Proof.
  intros Hp. apply log_score32_lost; [reflexivity|].
  unfold Binary32.raw_error, Rounded.raw_error.
  change (Rounded.range_sum overflow32 1) with (Binary32.range_sum 1).
  rewrite sum32_1. unfold Rounded.step_error, Rounded.range_sum, Rounded.sum_list. simpl.
  rewrite !Hp.
  change (Rounded.square overflow32 (Rounded.mul overflow32
            (Rounded.sub overflow32 (Fin two_64) (Fin 0)) (Fin 1)))
    with (Binary32.square (Binary32.mul (Binary32.sub (Fin two_64) (Fin 0)) (Fin 1))).
  rewrite sq_term32_overflow.
  - reflexivity.
  - unfold in_range32, two_64, max_float32. lra.
  - unfold two_64, max_float32. lra.
Qed.

Lemma far_loss (pred : Tensor) :
  Binary32.valid_inputs gt_far pred (new_ones [1; 1]%nat) avails_ones 1 1 1 2 ->
  (forall c, item pred [0; 0; 0; c]%nat = Fin 0) ->
  Binary32.pytorch_neg_multi_log_likelihood_batch
    gt_far pred (new_ones [1; 1]%nat) avails_ones = Ok NaN.
Proof.
  intros V Hp.
  rewrite (batch32_entries _ _ _ _ 1 1 1 2 V) by lia. f_equal.
  rewrite batch_nll32_one_sample.
  rewrite sample_nll32_single_lost by (now apply far_score).
  reflexivity.
Qed.

(** C2, as stated, fails when a squared error overflows: with the
    ground truth at [2^64] and the prediction at 0, every squared
    error is the number [2^128], and both losses are NaN. *)
Lemma squared_error_overflow_counterexample :
  Binary32.valid_inputs gt_far one_mode_zeros one_mode_confidence avails_ones 1 1 1 2 /\
  (forall c, (c < 2)%nat ->
     Rsqr (to_R (item gt_far [0; 0; c]%nat) - to_R (item one_mode_zeros [0; 0; 0; c]%nat))
     = two_64 * two_64) /\
  Binary32.pytorch_neg_multi_log_likelihood_batch
    gt_far one_mode_zeros one_mode_confidence avails_ones = Ok NaN /\
  Binary32.pytorch_neg_multi_log_likelihood_single
    gt_far (select_mode one_mode_zeros 0) avails_ones = Ok NaN.
Proof.
  split; [exact far_valid|]. split; [|split].
  - intros c _. simpl. unfold Rsqr. ring.
  - apply (far_loss one_mode_zeros far_valid). reflexivity.
  - rewrite (single32_unfold _ _ _ 1 1 2) by reflexivity.
    apply far_loss; [|reflexivity].
    apply single_inputs_valid32; try reflexivity; apply float32_full;
      try apply in_range32_0; try apply in_range32_1.
    unfold in_range32, two_64, max_float32. lra.
Qed.

Lemma single_mode_in_range_witness :
  Binary32.pytorch_neg_multi_log_likelihood_batch
    gt_ones one_mode_zeros one_mode_confidence avails_ones =
    Ok (Fin (1 / 2 * (Rsum 1 (real_sq_error gt_ones (select_mode one_mode_zeros 0) 1 2)
                      / INR 1))) /\
  Binary32.pytorch_neg_multi_log_likelihood_single
    gt_ones (select_mode one_mode_zeros 0) avails_ones =
    Ok (Fin (1 / 2 * (Rsum 1 (real_sq_error gt_ones (select_mode one_mode_zeros 0) 1 2)
                      / INR 1))).
Proof.
  apply (single_mode_loss_in_range_is_half_mean_squared_error gt_ones one_mode_zeros
           one_mode_confidence avails_ones 1 1 2).
  - apply one_mode_valid32; try reflexivity; apply float32_full;
      try apply in_range32_0; apply in_range32_1.
  - reflexivity.
  - reflexivity.
  - lia.
  - intros b _. unfold real_sq_error, Rsum. simpl. unfold Rsqr, max_float32. lra.
  - unfold real_sq_error, Rsum. simpl. unfold Rsqr, max_float32. lra.
Defined.

(** ** A mode of confidence 0 with a NaN error *)

Lemma low_high_valid :
  Binary32.valid_inputs gt_low two_modes_low_high second_mode_off avails_none 1 2 1 2.
Proof.
  split; [split; try reflexivity | | | |].
  - intros b _. unfold Rounded.range_sum, Rounded.sum_list, Rounded.add. simpl.
    rewrite Rplus_0_l, overflow32_1. simpl.
    rewrite Rplus_0_r, overflow32_1. apply isclose_Fin_eq. reflexivity.
  - intros idx _. simpl. destruct (nth 1 idx 0 =? 0)%nat; reflexivity.
  - apply full_finite.
  - intros idx _. simpl. destruct (nth 1 idx 0 =? 0)%nat; reflexivity.
  - apply full_finite.
  - intros idx _. simpl. destruct (nth 1 idx 0 =? 0)%nat.
    + exists (- two_127). split; [reflexivity | apply in_range32_two_127].
    + exists two_127. split; [reflexivity | apply in_range32_two_127].
  - apply float32_full, in_range32_two_127.
  - intros idx _. simpl. destruct (nth 1 idx 0 =? 0)%nat.
    + exists 1. split; [reflexivity | apply in_range32_1].
    + exists 0. split; [reflexivity | apply in_range32_0].
  - apply float32_full, in_range32_0.
Qed.

(** C7, as stated, fails when the raw error of the mode of confidence
    0 is NaN: with the only timestep masked, the ground truth at
    [-2^127], a first mode of confidence 1 that predicts [-2^127] and
    a second mode of confidence 0 that predicts [+2^127], the loss is
    NaN, and the loss of the batch restricted to the first mode is
    0. *)
Lemma zero_confidence_nan_counterexample :
  Binary32.valid_inputs gt_low two_modes_low_high second_mode_off avails_none 1 2 1 2 /\
  item second_mode_off [0; 1]%nat = Fin 0 /\
  Binary32.pytorch_neg_multi_log_likelihood_batch
    gt_low two_modes_low_high second_mode_off avails_none = Ok NaN /\
  Binary32.pytorch_neg_multi_log_likelihood_batch gt_low
    (index_select1 two_modes_low_high [0%nat])
    (index_select1 second_mode_off [0%nat]) avails_none = Ok (Fin 0).
Proof.
  split; [exact low_high_valid|]. split; [reflexivity|]. split.
  - rewrite (batch32_entries _ _ _ _ 1 2 1 2 low_high_valid) by lia. f_equal.
    apply (batch_nll32_NaN _ _ _ _ 1 2 1 2 0 1); try lia.
    apply log_score32_NaN.
    apply (sum32_NaN 1 0); [lia|].
    apply (sum32_NaN 2 0); [lia|].
    simpl. apply masked_term32_overflow.
    unfold two_127, max_float32. lra.
  - apply masked_exact_loss; try reflexivity.
    apply sure_mode_valid32; try reflexivity.
    + apply float32_full, in_range32_two_127.
    + intros idx Hin.
      apply (indices_4 1 1 1 2) in Hin as (b & m & t & c & -> & _ & Hm & _ & _).
      replace m with 0%nat by lia. exists (- two_127).
      split; [reflexivity | apply in_range32_two_127].
    + intros idx Hin.
      apply (indices_2 1 1) in Hin as (b & m & -> & _ & Hm).
      replace m with 0%nat by lia. exists 1.
      split; [reflexivity | apply in_range32_1].
    + apply float32_full, in_range32_0.
Qed.

(** Two modes that predict (0,0) and (1,1), the second of confidence
    0. *)
Lemma second_mode_off_valid32 :
  Binary32.valid_inputs gt_ones two_modes_apart second_mode_off avails_ones 1 2 1 2.
Proof.
  split; [split; try reflexivity | | | |]; try apply full_finite;
    try (apply float32_full; try apply in_range32_0; apply in_range32_1).
  - intros b _. unfold Rounded.range_sum, Rounded.sum_list, Rounded.add. simpl.
    rewrite Rplus_0_l, overflow32_1. simpl.
    rewrite Rplus_0_r, overflow32_1. apply isclose_Fin_eq. reflexivity.
  - intros idx _. simpl. destruct (nth 1 idx 0 =? 0)%nat; reflexivity.
  - intros idx _. simpl. destruct (nth 1 idx 0 =? 0)%nat; reflexivity.
  - intros idx _. simpl. destruct (nth 1 idx 0 =? 0)%nat.
    + exists 0. split; [reflexivity | apply in_range32_0].
    + exists 1. split; [reflexivity | apply in_range32_1].
  - intros idx _. simpl. destruct (nth 1 idx 0 =? 0)%nat.
    + exists 1. split; [reflexivity | apply in_range32_1].
    + exists 0. split; [reflexivity | apply in_range32_0].
Qed.

Lemma apart_raw_error (b m : nat) :
  (b < 1)%nat -> (m < 2)%nat ->
  Binary32.raw_error gt_ones two_modes_apart avails_ones 1 2 b m <> NaN.
Proof.
  intros Hb Hm.
  rewrite (raw_error32_available gt_ones two_modes_apart avails_ones 1 2 1 2 b m);
    try reflexivity; try apply full_finite; try assumption.
  - discriminate.
  - intros idx _. simpl. destruct (nth 1 idx 0 =? 0)%nat; reflexivity.
  - unfold Rsum. simpl. destruct (m =? 0)%nat; simpl; unfold Rsqr, max_float32; lra.
Qed.

Lemma zero_confidence_without_nan_witness :
  remaining_modes (Nat.eqb 1) 2 = [0%nat] /\
  exists loss,
    Binary32.pytorch_neg_multi_log_likelihood_batch
      gt_ones two_modes_apart second_mode_off avails_ones = Ok loss /\
    Binary32.pytorch_neg_multi_log_likelihood_batch gt_ones
      (index_select1 two_modes_apart (remaining_modes (Nat.eqb 1) 2))
      (index_select1 second_mode_off (remaining_modes (Nat.eqb 1) 2)) avails_ones
      = Ok loss.
Proof.
  split; [reflexivity|].
  apply (zero_confidence_modes_without_nan_are_dropped gt_ones two_modes_apart
           second_mode_off avails_ones 1 2 1 2 second_mode_off_valid32).
  - discriminate.
  - intros b d _ Hd Hz. apply Nat.eqb_eq in Hz. subst d. reflexivity.
  - intros b d Hb Hd _. now apply apart_raw_error.
Defined.

(** ** Reordered modes at sample inputs *)

Lemma half_rows32 (confidences : Tensor) (B : nat) (c0 c1 : R) :
  (forall b, (b < B)%nat ->
     item confidences [b; 0%nat] = Fin c0 /\ item confidences [b; 1%nat] = Fin c1) ->
  0 <= c0 -> 0 <= c1 -> c0 + c1 = 1 ->
  Rounded.rows_sum_to_one overflow32 confidences B 2.
Proof.
  intros H H0 H1 Hsum b Hb. destruct (H b Hb) as [E0 E1].
  change (Rounded.range_sum overflow32 2) with (Binary32.range_sum 2).
  rewrite (sum32_Rsum 2 _ (fun m => match m with 0%nat => c0 | _ => c1 end)).
  - apply isclose_Fin_eq. unfold Rsum. simpl. lra.
  - intros m Hm. destruct m as [|[|m]]; [exact E0 | exact E1 | lia].
  - intros m Hm. destruct m as [|[|m]]; lra.
  - pose proof max_float32_ge_1. unfold Rsum. simpl. lra.
Qed.

Lemma apart_valid :
  Binary32.valid_inputs gt_ones two_modes_apart two_modes_skewed avails_ones 1 2 1 2.
Proof.
  split; [split; try reflexivity | | | |]; try apply full_finite;
    try (apply float32_full; apply in_range32_1).
  - apply (half_rows32 _ 1 (1 / 4) (3 / 4)); try lra.
    intros b _. split; reflexivity.
  - intros idx _. simpl. destruct (nth 1 idx 0 =? 0)%nat; reflexivity.
  - intros idx _. simpl. destruct (nth 1 idx 0 =? 0)%nat; reflexivity.
  - intros idx _. simpl. destruct (nth 1 idx 0 =? 0)%nat.
    + exists 0. split; [reflexivity | apply in_range32_0].
    + exists 1. split; [reflexivity | apply in_range32_1].
  - intros idx _. simpl. destruct (nth 1 idx 0 =? 0)%nat.
    + exists (1 / 4). split; [reflexivity | apply in_range32_small; lra].
    + exists (3 / 4). split; [reflexivity | apply in_range32_small; lra].
Qed.


Lemma alternating_valid :
  Binary32.valid_inputs gt_ones five_modes_zeros five_modes_alternating
    avails_ones 1 5 1 2.
Proof.
  assert (Hitem : forall idx, exists r,
            item five_modes_alternating idx = Fin r /\ in_range32 r).
  { intros idx. simpl.
    destruct (nth 1 idx 0%nat) as [|[|[|[|n]]]]; eexists;
      (split; [reflexivity|]);
      try apply in_range32_two_127; apply in_range32_1. }
  split; [split; try reflexivity | | | |]; try apply full_finite;
    try (apply float32_full; try apply in_range32_0; apply in_range32_1).
  - intros b _. unfold Rounded.range_sum, Rounded.sum_list, Rounded.add.
    cbn [seq map fold_left five_modes_alternating item nth].
    repeat (cbn [fadd];
            rewrite overflow32_in_range
              by (unfold in_range32, two_127, max_float32; lra)).
    apply isclose_Fin_eq. lra.
  - intros idx _. destruct (Hitem idx) as (r & -> & _). reflexivity.
  - intros idx _. apply Hitem.
Qed.


(** ** Samples of a batch at sample inputs *)

Lemma two_samples_valid :
  Binary32.valid_inputs gt_two_samples pred_two_samples confidences_two_samples
    avails_two_samples 2 2 1 2.
Proof.
  split; [split; try reflexivity | | | |]; try apply full_finite;
    try (apply float32_full; apply in_range32_small; lra).
  - apply (half_rows32 _ 2 (1 / 2) (1 / 2)); try lra.
    intros b _. split; reflexivity.
  - intros idx _. simpl. destruct (nth 0 idx 0 =? 0)%nat; reflexivity.
  - intros idx _. simpl. destruct (nth 0 idx 0 =? 0)%nat.
    + exists 1. split; [reflexivity | apply in_range32_1].
    + exists 2. split; [reflexivity | apply in_range32_small; lra].
Qed.

Lemma sample_losses_witness :
  item (batch_slice gt_two_samples 0) [0; 0; 0]%nat = Fin 1 /\
  item (batch_slice gt_two_samples 1) [0; 0; 0]%nat = Fin 2 /\
  exists sample_loss : nat -> scalar,
    (forall b, (b < 2)%nat ->
       Binary32.pytorch_neg_multi_log_likelihood_batch (batch_slice gt_two_samples b)
         (batch_slice pred_two_samples b) (batch_slice confidences_two_samples b)
         (batch_slice avails_two_samples b)
       = Ok (sample_loss b)) /\
    Binary32.pytorch_neg_multi_log_likelihood_batch
      gt_two_samples pred_two_samples confidences_two_samples avails_two_samples =
    Ok (Binary32.div (Binary32.range_sum 2 sample_loss) (Fin (INR 2))).
Proof.
  split; [reflexivity|]. split; [reflexivity|].
  apply (loss_is_mean_of_sample_losses gt_two_samples pred_two_samples
           confidences_two_samples avails_two_samples 2 2 1 2).
  - exact two_samples_valid.
  - lia.
Defined.

Lemma one_hot_witness :
  exists loss,
    Binary32.pytorch_neg_multi_log_likelihood_batch
      gt_ones two_modes_apart second_mode_off avails_ones = Ok loss /\
    Binary32.pytorch_neg_multi_log_likelihood_single
      gt_ones (select_mode two_modes_apart 0) avails_ones = Ok loss.
Proof.
  apply (one_hot_confidence_gives_single_loss gt_ones two_modes_apart
           second_mode_off avails_ones 1 2 1 2 0).
  - exact second_mode_off_valid32.
  - lia.
  - intros b _. reflexivity.
  - intros b m _ Hm Hne. destruct m as [|[|m]]; [congruence | reflexivity | lia].
  - intros b m Hb Hm _. now apply apart_raw_error.
Defined.

(** ** The decoder at sample inputs *)

Lemma zero_layer (l : Linear) (x y : Tensor) :
  linear_forward l x = Ok y ->
  (forall j i, weight l j i = Fin 0) -> (forall j, bias l j = Fin 0) ->
  (forall b i, exists r, item x [b; i] = Fin r) ->
  forall b j, item y [b; j] = Fin 0.
Proof.
  intros E Hw Hb Hx b j.
  apply linear_forward_inv in E as (bs & _ & _ & Hitem).
  rewrite Hitem, Hb. rewrite sum32_zero.
  - unfold32. simpl. now rewrite Rplus_0_r, overflow32_0.
  - intros i _. destruct (Hx b i) as [r ->]. rewrite Hw.
    unfold32. simpl. now rewrite Rmult_0_r, overflow32_0.
Qed.

(** With all parameters 0 the last layer gives 0 everywhere. *)
Lemma zero_parameters_logits (c : model_params) (M : nat) (model : Model)
    (x logits : Tensor) :
  __init__ zero_parameters c M = Ok model ->
  last_layer_output model x = Ok logits ->
  forall b j, item logits [b; j] = Fin 0.
Proof.
  intros Hinit.
  destruct (init_fields zero_parameters c M model Hinit)
    as (width & _ & Hbb & Hhead & Hlogit & _).
  unfold last_layer_output.
  destruct (backbone_forward (backbone model) x) as [x0|e] eqn:E0;
    cbn [bind]; [|discriminate].
  destruct (linear_forward (head model) x0) as [x1|e] eqn:E1;
    cbn [bind]; [|discriminate].
  intros E2.
  assert (H0 : forall b i, exists r, item x0 [b; i] = Fin r).
  { intros b i. exists 0. unfold backbone_forward in E0.
    destruct (shape x) as [|? [|? [|? [|? [|? ?]]]]]; try discriminate.
    destruct (_ =? _)%nat; [|discriminate].
    destruct (accepts (backbone model) x); [|discriminate].
    injection E0 as <-. rewrite Hbb. reflexivity. }
  assert (H1 : forall b i, item x1 [b; i] = Fin 0).
  { apply (zero_layer (head model) x0 x1 E1); try assumption;
      rewrite Hhead; reflexivity. }
  apply (zero_layer (logit model) x1 logits E2);
    try (rewrite Hlogit; reflexivity).
  intros b i. exists 0. apply H1.
Qed.

Lemma forward_finite_logits_witness :
  exists model logits pred confidences,
    __init__ zero_parameters cfg 3 = Ok model /\
    last_layer_output model two_rasters = Ok logits /\
    forward model two_rasters = Ok (pred, confidences) /\
    shape pred = [2; 3; 50; 2]%nat /\
    shape confidences = [2; 3]%nat /\
    forall b, (b < 2)%nat ->
      (forall m, (m < 3)%nat ->
         exists r, item confidences [b; m] = Fin r /\ 0 <= r) /\
      range_sum 3 (fun m => item confidences [b; m]) = Fin 1.
Proof.
  destruct (forward_output_contract_for_finite_logits zero_parameters
              two_rasters 2 224 224 eq_refl)
    as (model & Hinit & _ & _ & H).
  destruct (last_layer_supported zero_parameters cfg two_rasters 3 2 224 224
              model Hinit) as [logits Hl];
    [discriminate | reflexivity | reflexivity |].
  destruct (H logits Hl) as (pred & confidences & Hf & Sp & Sc & Hd).
  exists model, logits, pred, confidences.
  repeat (split; [assumption|]).
  apply Hd. intros b m _ _.
  now rewrite (zero_parameters_logits cfg 3 model two_rasters logits Hinit Hl).
Defined.

Lemma nan_layer (l : Linear) (x y : Tensor) :
  linear_forward l x = Ok y ->
  (0 < in_features l)%nat ->
  (forall b i, item x [b; i] = NaN) ->
  forall b j, item y [b; j] = NaN.
Proof.
  intros E Hn Hx b j.
  apply linear_forward_inv in E as (bs & _ & _ & Hitem).
  rewrite Hitem, (sum32_NaN (in_features l) 0); [reflexivity | exact Hn |].
  now rewrite Hx.
Qed.

(** The confidences of a row whose logits are NaN. *)
Lemma nan_logits_confidences (logits confidences : Tensor) (M K b : nat) :
  (0 < M)%nat ->
  (forall j, item logits [b; j] = NaN) ->
  (forall m, (m < M)%nat ->
     let row j := item logits [b; K + j]%nat in
     item confidences [b; m] =
     fdiv (fexp (fsub (row m) (range_max M row)))
          (range_sum M (fun j => fexp (fsub (row j) (range_max M row))))) ->
  item confidences [b; 0%nat] = NaN /\
  range_sum M (fun m => item confidences [b; m]) = NaN.
Proof.
  intros HM Hnan Hconf.
  assert (H0 : item confidences [b; 0%nat] = NaN).
  { rewrite (Hconf 0%nat HM). cbv zeta. rewrite Hnan. reflexivity. }
  split; [exact H0|]. now apply (range_sum_NaN M 0).
Qed.

(** C5, as stated, fails when the last layer gives a NaN.  With a NaN
    in the bias of the last layer and all-zero rasters, and with
    rasters that hold NaN and convolutional layers that pass it on,
    [forward] returns confidences that are NaN, neither non-negative
    numbers nor summing to 1. *)
Lemma nan_logits_counterexample :
  (exists model pred confidences,
     __init__ nan_bias_parameters cfg 3 = Ok model /\
     forward model two_rasters = Ok (pred, confidences) /\
     item confidences [0; 0]%nat = NaN /\
     range_sum 3 (fun m => item confidences [0%nat; m]) = NaN) /\
  (exists model pred confidences,
     __init__ passing_parameters cfg 3 = Ok model /\
     forward model nan_rasters = Ok (pred, confidences) /\
     item confidences [0; 0]%nat = NaN /\
     range_sum 3 (fun m => item confidences [0%nat; m]) = NaN).
Proof.
  split.
  - eexists.
    match goal with
    | |- exists _ _, _ = Ok ?m /\ _ =>
        assert (Einit : __init__ nan_bias_parameters cfg 3 = Ok m) by reflexivity
    end.
    match type of Einit with _ = Ok ?m => set (model := m) in * end.
    destruct (last_layer_supported nan_bias_parameters cfg two_rasters 3 2 224 224
                model Einit) as [logits Hl];
      [discriminate | reflexivity | reflexivity |].
    destruct (forward_decodes nan_bias_parameters cfg two_rasters logits
                3 2 25 224 224 model Einit)
      as (pred & confidences & Hf & _ & _ & _ & _ & Hconf);
      try assumption; try reflexivity; try (cbn; lia).
    assert (Hnan : forall b j, item logits [b; j] = NaN).
    { intros b j. revert Hl. unfold last_layer_output.
      destruct (backbone_forward (backbone model) two_rasters) as [x0|e];
        cbn [bind]; [|discriminate].
      destruct (linear_forward (head model) x0) as [x1|e];
        cbn [bind]; [|discriminate].
      intros E. apply linear_forward_inv in E as (bs & _ & _ & Hitem).
      rewrite Hitem. unfold32.
      change (bias (logit model) j) with NaN.
      match goal with |- overflow32 (fadd ?a NaN) = NaN => destruct a; reflexivity end. }
    exists pred, confidences.
    split; [exact Einit|]. split; [exact Hf|].
    apply (nan_logits_confidences logits confidences 3 300 0); [lia | |].
    + intros j. apply Hnan.
    + intros m Hm. apply Hconf; [lia | exact Hm].
  - eexists.
    match goal with
    | |- exists _ _, _ = Ok ?m /\ _ =>
        assert (Einit : __init__ passing_parameters cfg 3 = Ok m) by reflexivity
    end.
    match type of Einit with _ = Ok ?m => set (model := m) in * end.
    destruct (last_layer_supported passing_parameters cfg nan_rasters 3 2 224 224
                model Einit) as [logits Hl];
      [discriminate | reflexivity | reflexivity |].
    destruct (forward_decodes passing_parameters cfg nan_rasters logits
                3 2 25 224 224 model Einit)
      as (pred & confidences & Hf & _ & _ & _ & _ & Hconf);
      try assumption; try reflexivity; try (cbn; lia).
    assert (Hnan : forall b j, item logits [b; j] = NaN).
    { revert Hl. unfold last_layer_output.
      destruct (backbone_forward (backbone model) nan_rasters) as [x0|e] eqn:E0;
        cbn [bind]; [|discriminate].
      destruct (linear_forward (head model) x0) as [x1|e] eqn:E1;
        cbn [bind]; [|discriminate].
      intros E2.
      assert (H0 : forall b i, item x0 [b; i] = NaN).
      { intros b i. injection E0 as <-. reflexivity. }
      assert (H1 : forall b i, item x1 [b; i] = NaN).
      { apply (nan_layer (head model) x0 x1 E1); [cbn; lia | exact H0]. }
      apply (nan_layer (logit model) x1 logits E2); [cbn; lia | exact H1]. }
    exists pred, confidences.
    split; [exact Einit|]. split; [exact Hf|].
    apply (nan_logits_confidences logits confidences 3 300 0); [lia | |].
    + intros j. apply Hnan.
    + intros m Hm. apply Hconf; [lia | exact Hm].
Qed.

Lemma all_sizes_witness :
  exists model logits pred confidences,
    __init__ zero_parameters cfg 2 = Ok model /\
    last_layer_output model two_rasters = Ok logits /\
    forward model two_rasters = Ok (pred, confidences) /\
    shape pred = [2; 2; 50; 2]%nat /\
    shape confidences = [2; 2]%nat /\
    (forall b m t k, (b < 2)%nat -> (m < 2)%nat -> (t < 50)%nat -> (k < 2)%nat ->
       isfinite (item pred [b; m; t; k]) = true) /\
    forall b, (b < 2)%nat ->
      (forall m, (m < 2)%nat ->
         exists r, item confidences [b; m] = Fin r /\ 0 <= r) /\
      range_sum 2 (fun m => item confidences [b; m]) = Fin 1.
Proof.
  eexists.
  match goal with
  | |- exists _ _ _, _ = Ok ?m /\ _ =>
      assert (Einit : __init__ zero_parameters cfg 2 = Ok m) by reflexivity
  end.
  match type of Einit with _ = Ok ?m => set (model := m) in * end.
  destruct (last_layer_supported zero_parameters cfg two_rasters 2 2 224 224
              model Einit) as [logits Hl];
    [discriminate | reflexivity | reflexivity |].
  destruct (forward_contract_for_all_sizes zero_parameters cfg two_rasters logits
              2 2 25 224 224 model Einit)
    as (pred & confidences & Hf & Sp & Sc & Hd);
    try assumption; try reflexivity; try (cbn; lia).
  exists logits, pred, confidences.
  repeat (split; [assumption|]).
  apply Hd. intros b j _ _.
  now rewrite (zero_parameters_logits cfg 2 model two_rasters logits Einit Hl).
Defined.

Lemma output_layout_witness :
  exists model logits pred confidences,
    __init__ zero_parameters cfg 2 = Ok model /\
    last_layer_output model two_rasters = Ok logits /\
    forward model two_rasters = Ok (pred, confidences) /\
    shape logits = [2; 2 * 50 * 2 + 2]%nat /\
    (forall b m t k, (b < 2)%nat -> (m < 2)%nat -> (t < 50)%nat -> (k < 2)%nat ->
       item pred [b; m; t; k] = item logits [b; (m * 50 + t) * 2 + k]%nat) /\
    (forall b m, (b < 2)%nat -> (m < 2)%nat ->
       item confidences [b; m] =
       item (softmax1 (mkTensor [2; 2]%nat
               (fun idx => item logits [nth 0 idx 0; 2 * 50 * 2 + nth 1 idx 0]%nat)))
            [b; m]).
Proof.
  eexists.
  match goal with
  | |- exists _ _ _, _ = Ok ?m /\ _ =>
      assert (Einit : __init__ zero_parameters cfg 2 = Ok m) by reflexivity
  end.
  match type of Einit with _ = Ok ?m => set (model := m) in * end.
  destruct (last_layer_supported zero_parameters cfg two_rasters 2 2 224 224
              model Einit) as [logits Hl];
    [discriminate | reflexivity | reflexivity |].
  destruct (forward_output_layout zero_parameters cfg two_rasters logits
              2 2 25 224 224 model Einit)
    as (pred & confidences & Hf & Sl & Hp & Hc);
    try assumption; try reflexivity; try (cbn; lia).
  exists logits, pred, confidences.
  repeat (split; [assumption|]). exact Hc.
Defined.

Lemma evaluation_step_witness :
  exists model loss preds confidences,
    __init__ zero_parameters cfg 3 = Ok model /\
    Wrapper.forward two_samples model Binary32.pytorch_neg_multi_log_likelihood_batch =
    Wrapper.Done (loss, preds, confidences).
Proof.
  eexists.
  match goal with
  | |- exists _ _ _, _ = Ok ?m /\ _ =>
      assert (Einit : __init__ zero_parameters cfg 3 = Ok m) by reflexivity
  end.
  match type of Einit with _ = Ok ?m => set (model := m) in * end.
  destruct (last_layer_supported zero_parameters cfg two_rasters 3 2 224 224
              model Einit) as [logits Hl];
    [discriminate | reflexivity | reflexivity |].
  destruct (evaluation_step_returns_a_loss zero_parameters cfg two_samples
              two_rasters two_targets two_availabilities logits
              3 2 25 224 224 model Einit)
    as (loss & preds & confidences & Hstep);
    try assumption; try reflexivity; try (cbn; lia);
    try (apply float32_full; try apply in_range32_0; apply in_range32_1).
  - intros b j _ _.
    now rewrite (zero_parameters_logits cfg 3 model two_rasters logits Einit Hl).
  - exists loss, preds, confidences. split; [exact Einit | exact Hstep].
Defined.
